(** * Format-string fixer scripts and the vocabulary projector

    A shallow embedding of the five scripts under [scripts/]:
    - [fix_format_strings_advanced.py]
    - [fix_format_strings_phase2.py]
    - [fix_final_format_strings.py]
    - [fix_remaining_format_strings.py]
    - [generate-vocabulary-md.py]

    The fixer scripts are written with Python's [re] module, so Part I
    starts with a small backtracking matcher that has the priorities of
    [re] (greedy and lazy repetition, capture groups, leftmost
    non-overlapping substitution) and then gives the scripts function by
    function.  Part II holds the notions needed to state properties (a
    declarative semantics of the patterns, the shape of a call before and
    after a rewrite, rendering, the document as specified), Part III the
    lemmas, Part IV the properties of the specification, numbered as in
    the list of claims. *)

From Stdlib Require Import List Ascii String Arith NArith ZArith Lia Bool
  DecimalString.
From Stdlib.Strings Require Import Byte.
From stdpp Require Import gmap strings list fin_maps.
Import ListNotations.

Set Default Proof Using "Type".

(** * Part I: the programs *)

(** ** Text *)

(** Text is a Python [str]: a list of Unicode code points.  A code point
    is a number; the ones below 256 can be written as a character
    between double quotes. *)
Definition code_point : Set := N.

Definition text := list code_point.

Declare Scope cp_scope.
#[warnings="-hiding-delimiting-key"]
Delimit Scope cp_scope with char.
Bind Scope cp_scope with code_point.

Definition code_point_of_bytes (l : list Byte.byte) : option N :=
  match l with
  | [b] => Some (Byte.to_N b)
  | _ => None
  end.

Definition bytes_of_code_point (c : N) : option (list Byte.byte) :=
  option_map (fun b => [b]) (Byte.of_N c).

String Notation N code_point_of_bytes bytes_of_code_point : cp_scope.

Definition dq : code_point := 34%N.

(** The text of a string literal of this file (ASCII). *)
Fixpoint s2l (s : string) : text :=
  match s with
  | EmptyString => []
  | String a s' => N_of_ascii a :: s2l s'
  end.

(** The literal texts of a goal or a hypothesis, written out. *)
Ltac text_literals :=
  repeat match goal with
         | |- context [s2l ?s] =>
             let t := eval vm_compute in (s2l s) in change (s2l s) with t
         end.

Ltac text_literals_in H :=
  repeat match type of H with
         | context [s2l ?s] =>
             let t := eval vm_compute in (s2l s) in
             change (s2l s) with t in H
         end.

(** [Q s] is the text [s] with every apostrophe read as a double quote,
    so that Rust snippets can be written down without escaping. *)
Definition Q (s : string) : text :=
  map (fun c => if N.eqb c "'"%char then dq else c) (s2l s).

Fixpoint text_eqb (a b : text) : bool :=
  match a, b with
  | [], [] => true
  | x :: a', y :: b' => N.eqb x y && text_eqb a' b'
  | _, _ => false
  end.

(** ** Character classes of [re] *)

(** [\s] in a pattern that is a [str], and the characters removed by
    [strip]: the code points for which [str.isspace] holds, that is
    U+0009 to U+000D, U+001C to U+0020, U+0085, U+00A0, U+1680, U+2000 to
    U+200A, U+2028, U+2029, U+202F, U+205F and U+3000. *)
Definition is_space (c : code_point) : bool :=
  (((9 <=? c) && (c <=? 13)) || ((28 <=? c) && (c <=? 32))
   || (c =? 133) || (c =? 160) || (c =? 5760)
   || ((8192 <=? c) && (c <=? 8202))
   || (c =? 8232) || (c =? 8233) || (c =? 8239) || (c =? 8287)
   || (c =? 12288))%N.

(** The code points from U+0080 on that [str.isalnum] accepts, as closed
    intervals (Unicode 14.0.0, the character database of Python 3.11). *)
Definition word_ranges : list (N * N) :=
  [ (170, 170); (178, 179); (181, 181); (185, 186); (188, 190); (192, 214);
    (216, 246); (248, 705); (710, 721); (736, 740); (748, 748); (750, 750);
    (880, 884); (886, 887); (890, 893); (895, 895); (902, 902); (904, 906);
    (908, 908); (910, 929); (931, 1013); (1015, 1153); (1162, 1327); (1329,
    1366); (1369, 1369); (1376, 1416); (1488, 1514); (1519, 1522); (1568,
    1610); (1632, 1641); (1646, 1647); (1649, 1747); (1749, 1749); (1765,
    1766); (1774, 1788); (1791, 1791); (1808, 1808); (1810, 1839); (1869,
    1957); (1969, 1969); (1984, 2026); (2036, 2037); (2042, 2042); (2048,
    2069); (2074, 2074); (2084, 2084); (2088, 2088); (2112, 2136); (2144,
    2154); (2160, 2183); (2185, 2190); (2208, 2249); (2308, 2361); (2365,
    2365); (2384, 2384); (2392, 2401); (2406, 2415); (2417, 2432); (2437,
    2444); (2447, 2448); (2451, 2472); (2474, 2480); (2482, 2482); (2486,
    2489); (2493, 2493); (2510, 2510); (2524, 2525); (2527, 2529); (2534,
    2545); (2548, 2553); (2556, 2556); (2565, 2570); (2575, 2576); (2579,
    2600); (2602, 2608); (2610, 2611); (2613, 2614); (2616, 2617); (2649,
    2652); (2654, 2654); (2662, 2671); (2674, 2676); (2693, 2701); (2703,
    2705); (2707, 2728); (2730, 2736); (2738, 2739); (2741, 2745); (2749,
    2749); (2768, 2768); (2784, 2785); (2790, 2799); (2809, 2809); (2821,
    2828); (2831, 2832); (2835, 2856); (2858, 2864); (2866, 2867); (2869,
    2873); (2877, 2877); (2908, 2909); (2911, 2913); (2918, 2927); (2929,
    2935); (2947, 2947); (2949, 2954); (2958, 2960); (2962, 2965); (2969,
    2970); (2972, 2972); (2974, 2975); (2979, 2980); (2984, 2986); (2990,
    3001); (3024, 3024); (3046, 3058); (3077, 3084); (3086, 3088); (3090,
    3112); (3114, 3129); (3133, 3133); (3160, 3162); (3165, 3165); (3168,
    3169); (3174, 3183); (3192, 3198); (3200, 3200); (3205, 3212); (3214,
    3216); (3218, 3240); (3242, 3251); (3253, 3257); (3261, 3261); (3293,
    3294); (3296, 3297); (3302, 3311); (3313, 3314); (3332, 3340); (3342,
    3344); (3346, 3386); (3389, 3389); (3406, 3406); (3412, 3414); (3416,
    3425); (3430, 3448); (3450, 3455); (3461, 3478); (3482, 3505); (3507,
    3515); (3517, 3517); (3520, 3526); (3558, 3567); (3585, 3632); (3634,
    3635); (3648, 3654); (3664, 3673); (3713, 3714); (3716, 3716); (3718,
    3722); (3724, 3747); (3749, 3749); (3751, 3760); (3762, 3763); (3773,
    3773); (3776, 3780); (3782, 3782); (3792, 3801); (3804, 3807); (3840,
    3840); (3872, 3891); (3904, 3911); (3913, 3948); (3976, 3980); (4096,
    4138); (4159, 4169); (4176, 4181); (4186, 4189); (4193, 4193); (4197,
    4198); (4206, 4208); (4213, 4225); (4238, 4238); (4240, 4249); (4256,
    4293); (4295, 4295); (4301, 4301); (4304, 4346); (4348, 4680); (4682,
    4685); (4688, 4694); (4696, 4696); (4698, 4701); (4704, 4744); (4746,
    4749); (4752, 4784); (4786, 4789); (4792, 4798); (4800, 4800); (4802,
    4805); (4808, 4822); (4824, 4880); (4882, 4885); (4888, 4954); (4969,
    4988); (4992, 5007); (5024, 5109); (5112, 5117); (5121, 5740); (5743,
    5759); (5761, 5786); (5792, 5866); (5870, 5880); (5888, 5905); (5919,
    5937); (5952, 5969); (5984, 5996); (5998, 6000); (6016, 6067); (6103,
    6103); (6108, 6108); (6112, 6121); (6128, 6137); (6160, 6169); (6176,
    6264); (6272, 6276); (6279, 6312); (6314, 6314); (6320, 6389); (6400,
    6430); (6470, 6509); (6512, 6516); (6528, 6571); (6576, 6601); (6608,
    6618); (6656, 6678); (6688, 6740); (6784, 6793); (6800, 6809); (6823,
    6823); (6917, 6963); (6981, 6988); (6992, 7001); (7043, 7072); (7086,
    7141); (7168, 7203); (7232, 7241); (7245, 7293); (7296, 7304); (7312,
    7354); (7357, 7359); (7401, 7404); (7406, 7411); (7413, 7414); (7418,
    7418); (7424, 7615); (7680, 7957); (7960, 7965); (7968, 8005); (8008,
    8013); (8016, 8023); (8025, 8025); (8027, 8027); (8029, 8029); (8031,
    8061); (8064, 8116); (8118, 8124); (8126, 8126); (8130, 8132); (8134,
    8140); (8144, 8147); (8150, 8155); (8160, 8172); (8178, 8180); (8182,
    8188); (8304, 8305); (8308, 8313); (8319, 8329); (8336, 8348); (8450,
    8450); (8455, 8455); (8458, 8467); (8469, 8469); (8473, 8477); (8484,
    8484); (8486, 8486); (8488, 8488); (8490, 8493); (8495, 8505); (8508,
    8511); (8517, 8521); (8526, 8526); (8528, 8585); (9312, 9371); (9450,
    9471); (10102, 10131); (11264, 11492); (11499, 11502); (11506, 11507);
    (11517, 11517); (11520, 11557); (11559, 11559); (11565, 11565); (11568,
    11623); (11631, 11631); (11648, 11670); (11680, 11686); (11688, 11694);
    (11696, 11702); (11704, 11710); (11712, 11718); (11720, 11726); (11728,
    11734); (11736, 11742); (11823, 11823); (12293, 12295); (12321, 12329);
    (12337, 12341); (12344, 12348); (12353, 12438); (12445, 12447); (12449,
    12538); (12540, 12543); (12549, 12591); (12593, 12686); (12690, 12693);
    (12704, 12735); (12784, 12799); (12832, 12841); (12872, 12879); (12881,
    12895); (12928, 12937); (12977, 12991); (13312, 19903); (19968, 42124);
    (42192, 42237); (42240, 42508); (42512, 42539); (42560, 42606); (42623,
    42653); (42656, 42735); (42775, 42783); (42786, 42888); (42891, 42954);
    (42960, 42961); (42963, 42963); (42965, 42969); (42994, 43009); (43011,
    43013); (43015, 43018); (43020, 43042); (43056, 43061); (43072, 43123);
    (43138, 43187); (43216, 43225); (43250, 43255); (43259, 43259); (43261,
    43262); (43264, 43301); (43312, 43334); (43360, 43388); (43396, 43442);
    (43471, 43481); (43488, 43492); (43494, 43518); (43520, 43560); (43584,
    43586); (43588, 43595); (43600, 43609); (43616, 43638); (43642, 43642);
    (43646, 43695); (43697, 43697); (43701, 43702); (43705, 43709); (43712,
    43712); (43714, 43714); (43739, 43741); (43744, 43754); (43762, 43764);
    (43777, 43782); (43785, 43790); (43793, 43798); (43808, 43814); (43816,
    43822); (43824, 43866); (43868, 43881); (43888, 44002); (44016, 44025);
    (44032, 55203); (55216, 55238); (55243, 55291); (63744, 64109); (64112,
    64217); (64256, 64262); (64275, 64279); (64285, 64285); (64287, 64296);
    (64298, 64310); (64312, 64316); (64318, 64318); (64320, 64321); (64323,
    64324); (64326, 64433); (64467, 64829); (64848, 64911); (64914, 64967);
    (65008, 65019); (65136, 65140); (65142, 65276); (65296, 65305); (65313,
    65338); (65345, 65370); (65382, 65470); (65474, 65479); (65482, 65487);
    (65490, 65495); (65498, 65500); (65536, 65547); (65549, 65574); (65576,
    65594); (65596, 65597); (65599, 65613); (65616, 65629); (65664, 65786);
    (65799, 65843); (65856, 65912); (65930, 65931); (66176, 66204); (66208,
    66256); (66273, 66299); (66304, 66339); (66349, 66378); (66384, 66421);
    (66432, 66461); (66464, 66499); (66504, 66511); (66513, 66517); (66560,
    66717); (66720, 66729); (66736, 66771); (66776, 66811); (66816, 66855);
    (66864, 66915); (66928, 66938); (66940, 66954); (66956, 66962); (66964,
    66965); (66967, 66977); (66979, 66993); (66995, 67001); (67003, 67004);
    (67072, 67382); (67392, 67413); (67424, 67431); (67456, 67461); (67463,
    67504); (67506, 67514); (67584, 67589); (67592, 67592); (67594, 67637);
    (67639, 67640); (67644, 67644); (67647, 67669); (67672, 67702); (67705,
    67742); (67751, 67759); (67808, 67826); (67828, 67829); (67835, 67867);
    (67872, 67897); (67968, 68023); (68028, 68047); (68050, 68096); (68112,
    68115); (68117, 68119); (68121, 68149); (68160, 68168); (68192, 68222);
    (68224, 68255); (68288, 68295); (68297, 68324); (68331, 68335); (68352,
    68405); (68416, 68437); (68440, 68466); (68472, 68497); (68521, 68527);
    (68608, 68680); (68736, 68786); (68800, 68850); (68858, 68899); (68912,
    68921); (69216, 69246); (69248, 69289); (69296, 69297); (69376, 69415);
    (69424, 69445); (69457, 69460); (69488, 69505); (69552, 69579); (69600,
    69622); (69635, 69687); (69714, 69743); (69745, 69746); (69749, 69749);
    (69763, 69807); (69840, 69864); (69872, 69881); (69891, 69926); (69942,
    69951); (69956, 69956); (69959, 69959); (69968, 70002); (70006, 70006);
    (70019, 70066); (70081, 70084); (70096, 70106); (70108, 70108); (70113,
    70132); (70144, 70161); (70163, 70187); (70272, 70278); (70280, 70280);
    (70282, 70285); (70287, 70301); (70303, 70312); (70320, 70366); (70384,
    70393); (70405, 70412); (70415, 70416); (70419, 70440); (70442, 70448);
    (70450, 70451); (70453, 70457); (70461, 70461); (70480, 70480); (70493,
    70497); (70656, 70708); (70727, 70730); (70736, 70745); (70751, 70753);
    (70784, 70831); (70852, 70853); (70855, 70855); (70864, 70873); (71040,
    71086); (71128, 71131); (71168, 71215); (71236, 71236); (71248, 71257);
    (71296, 71338); (71352, 71352); (71360, 71369); (71424, 71450); (71472,
    71483); (71488, 71494); (71680, 71723); (71840, 71922); (71935, 71942);
    (71945, 71945); (71948, 71955); (71957, 71958); (71960, 71983); (71999,
    71999); (72001, 72001); (72016, 72025); (72096, 72103); (72106, 72144);
    (72161, 72161); (72163, 72163); (72192, 72192); (72203, 72242); (72250,
    72250); (72272, 72272); (72284, 72329); (72349, 72349); (72368, 72440);
    (72704, 72712); (72714, 72750); (72768, 72768); (72784, 72812); (72818,
    72847); (72960, 72966); (72968, 72969); (72971, 73008); (73030, 73030);
    (73040, 73049); (73056, 73061); (73063, 73064); (73066, 73097); (73112,
    73112); (73120, 73129); (73440, 73458); (73648, 73648); (73664, 73684);
    (73728, 74649); (74752, 74862); (74880, 75075); (77712, 77808); (77824,
    78894); (82944, 83526); (92160, 92728); (92736, 92766); (92768, 92777);
    (92784, 92862); (92864, 92873); (92880, 92909); (92928, 92975); (92992,
    92995); (93008, 93017); (93019, 93025); (93027, 93047); (93053, 93071);
    (93760, 93846); (93952, 94026); (94032, 94032); (94099, 94111); (94176,
    94177); (94179, 94179); (94208, 100343); (100352, 101589); (101632,
    101640); (110576, 110579); (110581, 110587); (110589, 110590); (110592,
    110882); (110928, 110930); (110948, 110951); (110960, 111355); (113664,
    113770); (113776, 113788); (113792, 113800); (113808, 113817); (119520,
    119539); (119648, 119672); (119808, 119892); (119894, 119964); (119966,
    119967); (119970, 119970); (119973, 119974); (119977, 119980); (119982,
    119993); (119995, 119995); (119997, 120003); (120005, 120069); (120071,
    120074); (120077, 120084); (120086, 120092); (120094, 120121); (120123,
    120126); (120128, 120132); (120134, 120134); (120138, 120144); (120146,
    120485); (120488, 120512); (120514, 120538); (120540, 120570); (120572,
    120596); (120598, 120628); (120630, 120654); (120656, 120686); (120688,
    120712); (120714, 120744); (120746, 120770); (120772, 120779); (120782,
    120831); (122624, 122654); (123136, 123180); (123191, 123197); (123200,
    123209); (123214, 123214); (123536, 123565); (123584, 123627); (123632,
    123641); (124896, 124902); (124904, 124907); (124909, 124910); (124912,
    124926); (124928, 125124); (125127, 125135); (125184, 125251); (125259,
    125259); (125264, 125273); (126065, 126123); (126125, 126127); (126129,
    126132); (126209, 126253); (126255, 126269); (126464, 126467); (126469,
    126495); (126497, 126498); (126500, 126500); (126503, 126503); (126505,
    126514); (126516, 126519); (126521, 126521); (126523, 126523); (126530,
    126530); (126535, 126535); (126537, 126537); (126539, 126539); (126541,
    126543); (126545, 126546); (126548, 126548); (126551, 126551); (126553,
    126553); (126555, 126555); (126557, 126557); (126559, 126559); (126561,
    126562); (126564, 126564); (126567, 126570); (126572, 126578); (126580,
    126583); (126585, 126588); (126590, 126590); (126592, 126601); (126603,
    126619); (126625, 126627); (126629, 126633); (126635, 126651); (127232,
    127244); (130032, 130041); (131072, 173791); (173824, 177976); (177984,
    178205); (178208, 183969); (183984, 191456); (194560, 195101); (196608,
    201546) ]%N.

Definition in_ranges (c : N) (l : list (N * N)) : bool :=
  existsb (fun '(lo, hi) => ((lo <=? c) && (c <=? hi))%N) l.

(** [\w] in a pattern that is a [str]: the code points for which
    [str.isalnum] holds, and the underscore. *)
Definition is_word (c : code_point) : bool :=
  if (c <? 128)%N then
    (((48 <=? c) && (c <=? 57)) || ((65 <=? c) && (c <=? 90))
     || ((97 <=? c) && (c <=? 122)) || (c =? 95))%N
  else in_ranges c word_ranges.

(** [[^...]]: any character that is none of the listed ones. *)
Definition none_of (l : list code_point) (c : code_point) : bool :=
  negb (existsb (N.eqb c) l).

(** ** Regular expressions and the backtracking matcher *)

Module Re.

(** Capture environment: the most recent binding of a group comes first. *)
Definition caps := list (nat * text).

Fixpoint lookup_group (n : nat) (c : caps) : option text :=
  match c with
  | [] => None
  | (m, w) :: c' => if Nat.eqb m n then Some w else lookup_group n c'
  end.

(** The fragment of [re] syntax used by the scripts. [Rep g lo p] is a
    repeated character class ([p*], [p+], [p*?], [p+?]); [Plus r] is the
    greedy [(?:r)+]. *)
Inductive regex : Type :=
| Eps
| Chr (a : code_point)
| Rep (greedy : bool) (lo : nat) (p : code_point -> bool)
| Seq (r1 r2 : regex)
| Grp (n : nat) (r : regex)
| Plus (r : regex).

Fixpoint lit (w : text) : regex :=
  match w with
  | [] => Eps
  | a :: w' => Seq (Chr a) (lit w')
  end.

Fixpoint seq (rs : list regex) : regex :=
  match rs with
  | [] => Eps
  | r :: rs' => Seq r (seq rs')
  end.

Section Exec.
Context {R : Type}.

Definition orelse (x y : option R) : option R :=
  match x with Some _ => x | None => y end.

(** [p{lo}] : exactly [lo] characters of the class, then [k]. *)
Fixpoint rep_min (p : code_point -> bool) (lo : nat) (k : text -> option R)
    (s : text) : option R :=
  match lo with
  | 0 => k s
  | S lo' =>
      match s with
      | x :: s' => if p x then rep_min p lo' k s' else None
      | [] => None
      end
  end.

(** Greedy [p*]: take one more character first, fall back to [k]. *)
Fixpoint rep_greedy (p : code_point -> bool) (k : text -> option R)
    (s : text) : option R :=
  match s with
  | x :: s' => if p x then orelse (rep_greedy p k s') (k s) else k s
  | [] => k []
  end.

(** Lazy [p*?]: try [k] first, take one more character on failure. *)
Fixpoint rep_lazy (p : code_point -> bool) (k : text -> option R)
    (s : text) : option R :=
  orelse (k s)
    match s with
    | x :: s' => if p x then rep_lazy p k s' else None
    | [] => None
    end.

(** Greedy [(?:r)+], [body] being the matcher of [r]: one iteration,
    then another one if possible, then [k].  Every iteration of the
    bodies used here consumes a character, so [fuel] (one more than the
    length of the text) is never used up. *)
Fixpoint plus_loop
    (body : (text -> caps -> option R) -> text -> caps -> option R)
    (k : text -> caps -> option R) (fuel : nat) (s : text) (c : caps)
    : option R :=
  match fuel with
  | 0 => None
  | S fuel' =>
      body (fun s1 c1 => orelse (plus_loop body k fuel' s1 c1) (k s1 c1)) s c
  end.

(** The matcher in continuation-passing style: [exec r k s c] matches
    [r] at the front of [s] and hands the rest of the text and the
    captures to [k]; when [k] fails the next alternative of [r], in the
    priority order of [re], is tried. *)
Fixpoint exec (r : regex) (k : text -> caps -> option R)
    (s : text) (c : caps) {struct r} : option R :=
  match r with
  | Eps => k s c
  | Chr a =>
      match s with
      | x :: s' => if N.eqb x a then k s' c else None
      | [] => None
      end
  | Rep g lo p =>
      rep_min p lo
        ((if g then rep_greedy else rep_lazy) p (fun s1 => k s1 c)) s
  | Seq r1 r2 => exec r1 (exec r2 k) s c
  | Grp n r1 =>
      exec r1
        (fun s1 c1 => k s1 ((n, firstn (length s - length s1) s) :: c1))
        s c
  | Plus r1 => plus_loop (exec r1) k (S (length s)) s c
  end.

End Exec.

(** A match object: the matched text ([group(0)]) and the groups. *)
Record rmatch := { whole : text; groups : caps }.

(** [m.group(n)].  Every group of every pattern below takes part in every
    match; the default only makes the function total. *)
Definition group (m : rmatch) (n : nat) : text :=
  match n with
  | 0 => whole m
  | _ => match lookup_group n (groups m) with Some w => w | None => [] end
  end.

(** [pattern.match] at the front of [s]: the match and the unread rest. *)
Definition match_here (r : regex) (s : text) : option (rmatch * text) :=
  exec r
    (fun s1 c1 =>
       Some ({| whole := firstn (length s - length s1) s; groups := c1 |}, s1))
    s [].

(** [re.sub(pattern, repl, s)] with a function [repl]: scan left to
    right; at a position where the pattern matches emit the replacement and
    continue after the match; otherwise copy one character.  [skip] counts
    the characters of a match that are still to be passed over. *)
Fixpoint sub_go (r : regex) (repl : rmatch -> text) (s : text) (skip : nat)
    : text :=
  match s with
  | [] =>
      match skip, match_here r [] with
      | 0, Some (m, _) => repl m
      | _, _ => []
      end
  | x :: s' =>
      match skip with
      | S n => sub_go r repl s' n
      | 0 =>
          match match_here r s with
          | Some (m, _) =>
              match length (whole m) with
              | 0 => repl m ++ x :: sub_go r repl s' 0
              | S n => repl m ++ sub_go r repl s' n
              end
          | None => x :: sub_go r repl s' 0
          end
      end
  end.

Definition sub (r : regex) (repl : rmatch -> text) (s : text) : text :=
  sub_go r repl s 0.

(** [re.search]: does the pattern match at some position? *)
Fixpoint search (r : regex) (s : text) : bool :=
  match match_here r s with
  | Some _ => true
  | None => match s with [] => false | _ :: s' => search r s' end
  end.

End Re.

(** Shorthands shared by the patterns of the four fixer scripts.  In the
    comments that quote a pattern or a replacement of the source, the
    double quote of the source is written as an apostrophe. *)
Definition ws : Re.regex := Re.Rep true 0 is_space.            (* \s*      *)

Definition lazy_not (l : list code_point) : Re.regex :=
  Re.Rep false 0 (none_of l).                                  (* [^..]*?  *)

Definition some_not (l : list code_point) : Re.regex :=
  Re.Rep true 1 (none_of l).                                   (* [^..]+   *)

Definition word : Re.regex := Re.Rep true 1 is_word.           (* \w+      *)

Definition L (s : string) : Re.regex := Re.lit (s2l s).

(** ** [fix_format_strings_phase2.py] *)

Module Phase2.
Import Re.

(** [format!\s*\(\s*'([^']*?)\{([^}]+\.[^}]+)\}([^']*?)'\s*\)] *)
Definition pattern : regex :=
  seq [ L "format!"; ws; Chr "("%char; ws; Chr dq;
        Grp 1 (lazy_not [dq]);
        Chr "{"%char;
        Grp 2 (seq [some_not ["}"%char]; Chr "."%char; some_not ["}"%char]]);
        Chr "}"%char;
        Grp 3 (lazy_not [dq]);
        Chr dq; ws; Chr ")"%char ].

(** [f'format!('{prefix}{{}}{suffix}', {field_expr})'] *)
Definition replacer (m : rmatch) : text :=
  let prefix := group m 1 in
  let field_expr := group m 2 in
  let suffix := group m 3 in
  s2l "format!(" ++ dq :: prefix ++ s2l "{}" ++ suffix ++ dq :: s2l ", "
    ++ field_expr ++ s2l ")".

(** [format!\s*\(\s*'([^']*?)\{([^}]+\.[^}]+)\}([^']*?)'\s*,\s*([^)]+)\)] *)
Definition pattern2 : regex :=
  seq [ L "format!"; ws; Chr "("%char; ws; Chr dq;
        Grp 1 (lazy_not [dq]);
        Chr "{"%char;
        Grp 2 (seq [some_not ["}"%char]; Chr "."%char; some_not ["}"%char]]);
        Chr "}"%char;
        Grp 3 (lazy_not [dq]);
        Chr dq; ws; Chr ","%char; ws;
        Grp 4 (some_not [")"%char]);
        Chr ")"%char ].

(** [f'format!('{prefix}{{}}{suffix}', {field_expr}, {other_args})'] *)
Definition replacer2 (m : rmatch) : text :=
  let prefix := group m 1 in
  let field_expr := group m 2 in
  let suffix := group m 3 in
  let other_args := group m 4 in
  s2l "format!(" ++ dq :: prefix ++ s2l "{}" ++ suffix ++ dq :: s2l ", "
    ++ field_expr ++ s2l ", " ++ other_args ++ s2l ")".

(** [write!\s*\(\s*([^,]+),\s*'([^']*?)\{([^}]+\.[^}]+)\}([^']*?)'\s*\)] *)
Definition pattern3 : regex :=
  seq [ L "write!"; ws; Chr "("%char; ws;
        Grp 1 (some_not [","%char]);
        Chr ","%char; ws; Chr dq;
        Grp 2 (lazy_not [dq]);
        Chr "{"%char;
        Grp 3 (seq [some_not ["}"%char]; Chr "."%char; some_not ["}"%char]]);
        Chr "}"%char;
        Grp 4 (lazy_not [dq]);
        Chr dq; ws; Chr ")"%char ].

(** [f'write!({writer}, '{prefix}{{}}{suffix}', {field_expr})'] *)
Definition replacer3 (m : rmatch) : text :=
  let writer := group m 1 in
  let prefix := group m 2 in
  let field_expr := group m 3 in
  let suffix := group m 4 in
  s2l "write!(" ++ writer ++ s2l ", " ++ dq :: prefix ++ s2l "{}" ++ suffix
    ++ dq :: s2l ", " ++ field_expr ++ s2l ")".

Definition fix_format_string_field_access (content : text) : text :=
  let fixed := sub pattern replacer content in
  let fixed := sub pattern2 replacer2 fixed in
  let fixed := sub pattern3 replacer3 fixed in
  fixed.

End Phase2.

(** ** [fix_final_format_strings.py] *)

Module Final.
Import Re.

Definition fmt (name : string) (pre post arg : text) : text :=
  s2l name ++ s2l "(" ++ dq :: pre ++ s2l "{}" ++ post ++ dq :: s2l ", "
    ++ arg ++ s2l ")".

(** [format!\s*\(\s*'([^']*?)\{self\.(\w+)\}([^']*?)'\s*\)] *)
Definition format_self_field : regex :=
  seq [ L "format!"; ws; Chr "("%char; ws; Chr dq; Grp 1 (lazy_not [dq]);
        Chr "{"%char; L "self."; Grp 2 word; Chr "}"%char;
        Grp 3 (lazy_not [dq]); Chr dq; ws; Chr ")"%char ].

Definition format_self_field_repl (m : rmatch) : text :=
  fmt "format!" (group m 1) (group m 3) (s2l "self." ++ group m 2).

(** [format!\s*\(\s*'([^']*?)\{(\w+)\.(\w+)\}([^']*?)'\s*\)] *)
Definition format_var_field : regex :=
  seq [ L "format!"; ws; Chr "("%char; ws; Chr dq; Grp 1 (lazy_not [dq]);
        Chr "{"%char; Grp 2 word; Chr "."%char; Grp 3 word; Chr "}"%char;
        Grp 4 (lazy_not [dq]); Chr dq; ws; Chr ")"%char ].

Definition format_var_field_repl (m : rmatch) : text :=
  fmt "format!" (group m 1) (group m 4) (group m 2 ++ s2l "." ++ group m 3).

(** [format!\s*\(\s*'([^']*?)\{self\.(\w+)\(\)\}([^']*?)'\s*\)] *)
Definition format_self_method : regex :=
  seq [ L "format!"; ws; Chr "("%char; ws; Chr dq; Grp 1 (lazy_not [dq]);
        Chr "{"%char; L "self."; Grp 2 word; L "()"; Chr "}"%char;
        Grp 3 (lazy_not [dq]); Chr dq; ws; Chr ")"%char ].

Definition format_self_method_repl (m : rmatch) : text :=
  fmt "format!" (group m 1) (group m 3) (s2l "self." ++ group m 2 ++ s2l "()").

(** [format!\s*\(\s*'([^']*?)\{(\w+)\.(\w+)\(\)\}([^']*?)'\s*\)] *)
Definition format_var_method : regex :=
  seq [ L "format!"; ws; Chr "("%char; ws; Chr dq; Grp 1 (lazy_not [dq]);
        Chr "{"%char; Grp 2 word; Chr "."%char; Grp 3 word; L "()"; Chr "}"%char;
        Grp 4 (lazy_not [dq]); Chr dq; ws; Chr ")"%char ].

Definition format_var_method_repl (m : rmatch) : text :=
  fmt "format!" (group m 1) (group m 4)
    (group m 2 ++ s2l "." ++ group m 3 ++ s2l "()").

(** [println!\s*\(\s*'([^']*?)\{self\.(\w+)\}([^']*?)'\s*\)] *)
Definition println_self_field : regex :=
  seq [ L "println!"; ws; Chr "("%char; ws; Chr dq; Grp 1 (lazy_not [dq]);
        Chr "{"%char; L "self."; Grp 2 word; Chr "}"%char;
        Grp 3 (lazy_not [dq]); Chr dq; ws; Chr ")"%char ].

Definition println_self_field_repl (m : rmatch) : text :=
  fmt "println!" (group m 1) (group m 3) (s2l "self." ++ group m 2).

(** [println!\s*\(\s*'([^']*?)\{(\w+)\.(\w+)\}([^']*?)'\s*\)] *)
Definition println_var_field : regex :=
  seq [ L "println!"; ws; Chr "("%char; ws; Chr dq; Grp 1 (lazy_not [dq]);
        Chr "{"%char; Grp 2 word; Chr "."%char; Grp 3 word; Chr "}"%char;
        Grp 4 (lazy_not [dq]); Chr dq; ws; Chr ")"%char ].

Definition println_var_field_repl (m : rmatch) : text :=
  fmt "println!" (group m 1) (group m 4) (group m 2 ++ s2l "." ++ group m 3).

Definition wfmt (writer pre post arg : text) : text :=
  s2l "write!(" ++ writer ++ s2l ", " ++ dq :: pre ++ s2l "{}" ++ post
    ++ dq :: s2l ", " ++ arg ++ s2l ")".

(** [write!\s*\(\s*(\w+)\s*,\s*'([^']*?)\{self\.(\w+)\}([^']*?)'\s*\)] *)
Definition write_self_field : regex :=
  seq [ L "write!"; ws; Chr "("%char; ws; Grp 1 word; ws; Chr ","%char; ws; Chr dq;
        Grp 2 (lazy_not [dq]);
        Chr "{"%char; L "self."; Grp 3 word; Chr "}"%char;
        Grp 4 (lazy_not [dq]); Chr dq; ws; Chr ")"%char ].

Definition write_self_field_repl (m : rmatch) : text :=
  wfmt (group m 1) (group m 2) (group m 4) (s2l "self." ++ group m 3).

(** [write!\s*\(\s*(\w+)\s*,\s*'([^']*?)\{(\w+)\.(\w+)\}([^']*?)'\s*\)] *)
Definition write_var_field : regex :=
  seq [ L "write!"; ws; Chr "("%char; ws; Grp 1 word; ws; Chr ","%char; ws; Chr dq;
        Grp 2 (lazy_not [dq]);
        Chr "{"%char; Grp 3 word; Chr "."%char; Grp 4 word; Chr "}"%char;
        Grp 5 (lazy_not [dq]); Chr dq; ws; Chr ")"%char ].

Definition write_var_field_repl (m : rmatch) : text :=
  wfmt (group m 1) (group m 2) (group m 5) (group m 3 ++ s2l "." ++ group m 4).

Definition patterns : list (regex * (rmatch -> text)) :=
  [ (format_self_field, format_self_field_repl);
    (format_var_field, format_var_field_repl);
    (format_self_method, format_self_method_repl);
    (format_var_method, format_var_method_repl);
    (println_self_field, println_self_field_repl);
    (println_var_field, println_var_field_repl);
    (write_self_field, write_self_field_repl);
    (write_var_field, write_var_field_repl) ].

(** [for pattern, replacement in patterns: modified = re.sub(...)] *)
Definition apply_patterns (ps : list (regex * (rmatch -> text)))
    (content : text) : text :=
  fold_left (fun modified pr => sub (fst pr) (snd pr) modified) ps content.

Definition fix_format_string_field_access (content : text) : text :=
  apply_patterns patterns content.

End Final.

(** ** [fix_remaining_format_strings.py] *)

Module Remaining.
Import Re.

(** The five patterns of this script are, character for character, the
    first, second, fifth, sixth and seventh pattern of
    [fix_final_format_strings.py], with the same replacements. *)
Definition patterns : list (regex * (rmatch -> text)) :=
  [ (Final.format_self_field, Final.format_self_field_repl);
    (Final.format_var_field, Final.format_var_field_repl);
    (Final.println_self_field, Final.println_self_field_repl);
    (Final.println_var_field, Final.println_var_field_repl);
    (Final.write_self_field, Final.write_self_field_repl) ].

Definition fix_format_string_field_access (content : text) : text :=
  Final.apply_patterns patterns content.

End Remaining.

(** ** Python string methods used by the scripts *)

Module Str.

Fixpoint lstrip (s : text) : text :=
  match s with
  | c :: s' => if is_space c then lstrip s' else s
  | [] => []
  end.

Definition rstrip (s : text) : text := rev (lstrip (rev s)).

(** [s.strip()] *)
Definition strip (s : text) : text := rstrip (lstrip s).

(** [s.startswith(p)] *)
Fixpoint startswith (s p : text) {struct p} : bool :=
  match p, s with
  | [], _ => true
  | a :: p', b :: s' => N.eqb a b && startswith s' p'
  | _ :: _, [] => false
  end.

(** [s.endswith(p)] *)
Definition endswith (s p : text) : bool := startswith (rev s) (rev p).

(** [c in s] for a single character [c]. *)
Definition contains_chr (c : code_point) (s : text) : bool :=
  existsb (N.eqb c) s.

(** Truth value of a string: non-empty. *)
Definition truthy (s : text) : bool :=
  match s with [] => false | _ => true end.

(** [s.count(old)] for a non-empty [old]: occurrences counted left to
    right without overlap; [skip] is the part of the last occurrence still
    to be passed over. *)
Fixpoint count_go (old s : text) (skip : nat) : nat :=
  match s with
  | [] => 0
  | _ :: s' =>
      match skip with
      | S n => count_go old s' n
      | 0 => if startswith s old
             then S (count_go old s' (length old - 1))
             else count_go old s' 0
      end
  end.

Definition count (s old : text) : nat := count_go old s 0.

(** [s.replace(old, new, limit)] for a non-empty [old]; [limit = None] is
    the two-argument form that replaces every occurrence. *)
Fixpoint replace_go (old new s : text) (skip : nat) (limit : option nat)
    : text :=
  match s with
  | [] => []
  | x :: s' =>
      match skip with
      | S n => replace_go old new s' n limit
      | 0 =>
          match limit with
          | Some 0 => x :: replace_go old new s' 0 limit
          | _ =>
              if startswith s old
              then new ++ replace_go old new s' (length old - 1)
                            (option_map Nat.pred limit)
              else x :: replace_go old new s' 0 limit
          end
      end
  end.

Definition replace (s old new : text) (limit : option nat) : text :=
  replace_go old new s 0 limit.

(** [sep.join(parts)] *)
Fixpoint join (sep : text) (parts : list text) : text :=
  match parts with
  | [] => []
  | [p] => p
  | p :: ps => p ++ sep ++ join sep ps
  end.

End Str.

(** ** [fix_format_strings_advanced.py] *)

Module Advanced.
Import Re.

(** The loop shared by [replace_format] and [extract_vars]: split on the
    commas met at depth 0, counting [(] and [<] up and [)] and [>] down;
    a closer below depth 0 ends the loop ([break]).  The result is the
    state of [variables], [current_var] and [paren_depth] after the
    loop. *)
Fixpoint split_loop (s : text) (variables : list text) (current_var : text)
    (paren_depth : Z) : list text * text * Z :=
  match s with
  | [] => (variables, current_var, paren_depth)
  | char :: s' =>
      if N.eqb char "("%char || N.eqb char "<"%char then
        split_loop s' variables (current_var ++ [char]) (paren_depth + 1)
      else if N.eqb char ")"%char || N.eqb char ">"%char then
        let paren_depth := (paren_depth - 1)%Z in
        if (paren_depth <? 0)%Z then (variables, current_var, paren_depth)
        else split_loop s' variables (current_var ++ [char]) paren_depth
      else if N.eqb char ","%char && (paren_depth =? 0)%Z then
        let variables :=
          if Str.truthy (Str.strip current_var)
          then variables ++ [Str.strip current_var] else variables in
        split_loop s' variables [] paren_depth
      else split_loop s' variables (current_var ++ [char]) paren_depth
  end.

(** [extract_vars(vars_str)] *)
Definition extract_vars (vars_str : text) : list text :=
  let vars_str := Str.strip vars_str in
  let vars_str :=
    if Str.startswith vars_str (s2l ",") then Str.strip (tl vars_str)
    else vars_str in
  let '(variables, current_var, paren_depth) :=
    split_loop vars_str [] [] 0%Z in
  if Str.truthy (Str.strip current_var) && (0 <=? paren_depth)%Z
  then variables ++ [Str.strip current_var] else variables.

(** [f'{{{var}}}'] *)
Definition braced (var : text) : text := s2l "{" ++ var ++ s2l "}".

(** [fix_placeholders(format_str, variables)] *)
Definition fix_placeholders (format_str : text) (variables : list text)
    : text :=
  fold_left
    (fun result var => Str.replace result (s2l "{}") (braced var) (Some 1))
    variables format_str.

(** [replace_format(match)].  Its variable-splitting code is, statement
    for statement, the body of [extract_vars] applied to [match.group(2)]. *)
Definition replace_format (m : rmatch) : text :=
  let format_str := group m 1 in
  let remaining := group m 2 in
  let variables := extract_vars remaining in
  let placeholder_count := Str.count format_str (s2l "{}") in
  if (placeholder_count =? 0) || (length variables =? 0) then group m 0
  else
    let result :=
      fold_left
        (fun result var =>
           let var := Str.strip var in
           let var :=
             if Str.endswith var (s2l ")") && negb (Str.contains_chr "("%char var)
             then removelast var else var in
           Str.replace result (s2l "{}") (braced var) (Some 1))
        (firstn placeholder_count variables) format_str in
    let remaining_vars := skipn placeholder_count variables in
    match remaining_vars with
    | _ :: _ =>
        s2l "format!(" ++ dq :: result ++ dq :: s2l ", "
          ++ Str.join (s2l ", ") remaining_vars ++ s2l ")"
    | [] => s2l "format!(" ++ dq :: result ++ dq :: s2l ")"
    end.

(** [NAME\s*\(\s*'([^']*?)'\s*((?:,\s*[^,)]+)+)\s*\)] *)
Definition call_pattern (name : string) : regex :=
  seq [ L name; ws; Chr "("%char; ws; Chr dq; Grp 1 (lazy_not [dq]); Chr dq; ws;
        Grp 2 (Plus (seq [Chr ","%char; ws; some_not [","%char; ")"%char]]));
        ws; Chr ")"%char ].

(** [write!\s*\(\s*([^,]+)\s*,\s*'([^']*?)'\s*((?:,\s*[^,)]+)+)\s*\)] *)
Definition write_pattern : regex :=
  seq [ L "write!"; ws; Chr "("%char; ws; Grp 1 (some_not [","%char]); ws;
        Chr ","%char; ws; Chr dq; Grp 2 (lazy_not [dq]); Chr dq; ws;
        Grp 3 (Plus (seq [Chr ","%char; ws; some_not [","%char; ")"%char]]));
        ws; Chr ")"%char ].

(** [f'write!({m.group(1)}, '{fix_placeholders(...)}')'] *)
Definition write_repl (m : rmatch) : text :=
  s2l "write!(" ++ group m 1 ++ s2l ", " ++ dq
    :: fix_placeholders (group m 2) (extract_vars (group m 3))
    ++ dq :: s2l ")".

(** [fix_format_strings(content)].  ([pattern1] of the source is compiled
    and never used.) *)
Definition fix_format_strings (content : text) : text :=
  let content := sub (call_pattern "format!") replace_format content in
  let content :=
    sub (call_pattern "println!")
      (fun m => Str.replace (replace_format m)
                  (s2l "format!") (s2l "println!") None) content in
  let content :=
    sub (call_pattern "eprintln!")
      (fun m => Str.replace (replace_format m)
                  (s2l "format!") (s2l "eprintln!") None) content in
  let content := sub write_pattern write_repl content in
  content.

End Advanced.

(** ** The file drivers: [process_file] and [main] *)

Module Driver.

(** [str(n)] for a count. *)
Definition decimal (n : nat) : text :=
  s2l (DecimalString.NilZero.string_of_uint (Nat.to_uint n)).

(** [sub in s] *)
Fixpoint contains (s part : text) : bool :=
  Str.startswith s part
  || match s with [] => false | _ :: s' => contains s' part end.

(** [os.path.join(root, file)] for a relative [file]. *)
Definition path_join (root file : text) : text :=
  if Str.truthy root && negb (Str.endswith root (s2l "/"))
  then root ++ s2l "/" ++ file else root ++ file.

(** Outcome of an operation that can raise: a value, or the text of the
    exception. *)
Inductive outcome (A : Type) : Type :=
| Ok (a : A)
| Raise (cause : text).

Arguments Ok {A} a.
Arguments Raise {A} cause.

(** What a run does to its surroundings: lines printed and files written. *)
Inductive event : Type :=
| Printed (line : text)
| Wrote (path content : text).

Section Files.
(** The file system, with the two operations the scripts use:
    [open(path, 'r').read()], which gives the content or raises, and
    [open(path, 'w').write(content)], which gives the file system after
    the attempt and the exception, if one was raised. *)
Variable FS : Type.
Variable read_text : FS -> text -> outcome text.
Variable write_text : FS -> text -> text -> FS * option text.

(** The text transformation applied by a script. *)
Variable fix_text : text -> text.

Definition error_line (filepath cause : text) : text :=
  s2l "Error processing " ++ filepath ++ s2l ": " ++ cause.

(** [process_file] of [fix_format_strings_advanced.py]: the result, the
    file system afterwards and the events, in order. *)
Definition process_file (fs : FS) (filepath : text)
    : bool * FS * list event :=
  match read_text fs filepath with
  | Raise e => (false, fs, [Printed (error_line filepath e)])
  | Ok content =>
      let original := content in
      let fixed := fix_text content in
      if negb (text_eqb fixed original) then
        match write_text fs filepath fixed with
        | (fs', Some e) => (false, fs', [Printed (error_line filepath e)])
        | (fs', None) => (true, fs', [Wrote filepath fixed])
        end
      else (false, fs, [])
  end.

(** [process_file] of the other three scripts, which also prints the
    line [Fixed: path] after writing. *)
Definition process_file_verbose (fs : FS) (file_path : text)
    : bool * FS * list event :=
  match read_text fs file_path with
  | Raise e => (false, fs, [Printed (error_line file_path e)])
  | Ok content =>
      let modified := fix_text content in
      if negb (text_eqb modified content) then
        match write_text fs file_path modified with
        | (fs', Some e) => (false, fs', [Printed (error_line file_path e)])
        | (fs', None) =>
            (true, fs',
             [Wrote file_path modified; Printed (s2l "Fixed: " ++ file_path)])
        end
      else (false, fs, [])
  end.

(** State of the loops of [main]. *)
Record counts : Type :=
  { total_count : nat; fixed_count : nat; files : FS; trace : list event }.

(** Body of [for file in files:]. *)
Definition visit (root : text) (st : counts) (file : text) : counts :=
  if Str.endswith file (s2l ".rs") then
    let filepath := path_join root file in
    let '(ok, fs', evs) := process_file (files st) filepath in
    if ok then
      {| total_count := S (total_count st);
         fixed_count := S (fixed_count st);
         files := fs';
         trace := trace st ++ evs ++ [Printed (s2l "Fixed: " ++ filepath)] |}
    else
      {| total_count := S (total_count st);
         fixed_count := fixed_count st;
         files := fs';
         trace := trace st ++ evs |}
  else st.

(** Body of [for root, dirs, files in os.walk('.'):]. *)
Definition visit_dir (st : counts) (entry : text * list text) : counts :=
  let '(root, names) := entry in
  if contains root (s2l "target") || contains root (s2l "bevy-patched")
  then st
  else fold_left (visit root) names st.

Definition newline : code_point := 10%N.

(** [main] of [fix_format_strings_advanced.py]; [walk] is what
    [os.walk('.')] yields. *)
Definition main (walk : list (text * list text)) (fs : FS) : counts :=
  let st :=
    fold_left visit_dir walk
      {| total_count := 0; fixed_count := 0; files := fs; trace := [] |} in
  {| total_count := total_count st;
     fixed_count := fixed_count st;
     files := files st;
     trace :=
       trace st
       ++ [ Printed (newline :: s2l "Processed " ++ decimal (total_count st)
                     ++ s2l " files, fixed " ++ decimal (fixed_count st)
                     ++ s2l " files");
            Printed (s2l "Run 'cargo fmt' to ensure proper formatting") ] |}.

End Files.

Arguments process_file {FS}.
Arguments process_file_verbose {FS}.
Arguments visit {FS}.
Arguments visit_dir {FS}.
Arguments main {FS}.
Arguments total_count {FS}.
Arguments fixed_count {FS}.
Arguments files {FS}.
Arguments trace {FS}.

(** A file system in memory (of a POSIX system, where writing in text
    mode stores the characters as they are), for running the drivers: a
    readable and writable file is [inr content], an unusable one
    [inl cause]. *)
Definition memfs : Type := list (text * (text + text)).

Fixpoint mem_find (fs : memfs) (path : text) : option (text + text) :=
  match fs with
  | [] => None
  | (p, f) :: fs' => if text_eqb p path then Some f else mem_find fs' path
  end.

(** What [read()] gives for the characters of a file opened in text
    mode: [\r\n] and [\r] are read as [\n]. *)
Fixpoint universal_newlines (s : text) : text :=
  match s with
  | [] => []
  | c :: s' =>
      if N.eqb c 13 then
        10%N :: match s' with
                | d :: s'' =>
                    if N.eqb d 10 then universal_newlines s''
                    else universal_newlines s'
                | [] => []
                end
      else c :: universal_newlines s'
  end.

Definition mem_read (fs : memfs) (path : text) : outcome text :=
  match mem_find fs path with
  | Some (inr content) => Ok (universal_newlines content)
  | Some (inl cause) => Raise cause
  | None =>
      Raise (s2l "[Errno 2] No such file or directory: '" ++ path ++ s2l "'")
  end.

Definition mem_write (fs : memfs) (path content : text)
    : memfs * option text :=
  match mem_find fs path with
  | Some (inl cause) => (fs, Some cause)
  | _ => ((path, inr content) :: fs, None)
  end.

End Driver.

(** ** [generate-vocabulary-md.py] *)

Module Vocab.

(** A term of the vocabulary graph.  Only [category] must be present;
    an absent key is [None]. *)
Record term : Type :=
  { t_id : option text;
    t_name : option text;
    t_category : text;
    t_subcategory : option text;
    t_type : option text;
    t_taxonomy : option text;
    t_definition : option text;
    t_relationships : list (text * list text);
    t_usage_context : option text;
    t_code_reference : option text }.

Record subcategory : Type :=
  { s_id : text; s_name : text; s_description : option text }.

Record category : Type :=
  { c_id : text;
    c_name : text;
    c_description : option text;
    c_subcategories : option (list subcategory) }.

Record vocabulary : Type :=
  { categories : list category; terms : list term }.

(** Truth value of [d.get(key)]: present and not empty. *)
Definition truthy_get (o : option text) : option text :=
  match o with
  | Some ((_ :: _) as v) => Some v
  | _ => None
  end.

(** [d.get(key, default)] *)
Definition get_or (o : option text) (d : string) : text :=
  match o with Some v => v | None => s2l d end.

Definition is_lower (c : code_point) : bool :=
  ((97 <=? c) && (c <=? 122))%N.

Definition is_upper (c : code_point) : bool :=
  ((65 <=? c) && (c <=? 90))%N.

Definition to_upper (c : code_point) : code_point := (c - 32)%N.

Definition to_lower (c : code_point) : code_point := (c + 32)%N.

(** [s.title()] on ASCII text: the first letter of every run of letters
    in upper case, the other letters of the run in lower case. *)
Fixpoint title_go (previous_is_cased : bool) (s : text) : text :=
  match s with
  | [] => []
  | c :: s' =>
      if is_lower c then
        (if previous_is_cased then c else to_upper c) :: title_go true s'
      else if is_upper c then
        (if previous_is_cased then to_lower c else c) :: title_go true s'
      else c :: title_go false s'
  end.

Definition ascii_title (s : text) : text := title_go false s.

(** [s[:s.rfind(part)]], when [part] occurs in [s]. *)
Fixpoint before_last (s part : text) : option text :=
  match s with
  | [] => None
  | c :: s' =>
      match before_last s' part with
      | Some r => Some (c :: r)
      | None => if Str.startswith s part then Some [] else None
      end
  end.

(** [format_term_name(term)] *)
Definition format_term_name (t : term) : text :=
  let name :=
    match t_name t with
    | Some n => n
    | None => match t_id t with Some i => i | None => [] end
    end in
  if Driver.contains name (s2l " (") && Str.endswith name (s2l ")")
  then match before_last name (s2l " (") with Some n => n | None => name end
  else name.

Definition nl : text := [10%N].

Section Titled.
(** [str.title]: its case mapping is the one of the Unicode character
    database of the interpreter, so the method is a parameter here;
    [ascii_title] is what it does on ASCII text. *)
Variable title : text -> text.

(** [format_relationships(relationships)] *)
Definition format_relationships (relationships : list (text * list text))
    : text :=
  match relationships with
  | [] => []
  | _ =>
      Str.join nl
        (map
           (fun '(rel_type, targets) =>
              let rel_name := title (Str.replace rel_type (s2l "-") (s2l " ") None) in
              let targets_str := Str.join (s2l ", ") targets in
              s2l "  * " ++ rel_name ++ s2l ": " ++ targets_str)
           relationships)
  end.

(** The [lines] of [generate_term_section(term, level)]. *)
Definition term_section_lines (t : term) (level : text) : list text :=
  [ level ++ s2l " Term: " ++ format_term_name t;
    s2l "- **Category**: " ++ get_or (t_type t) "Unknown";
    s2l "- **Type**: " ++ get_or (t_type t) "Unknown" ]
  ++ match truthy_get (t_taxonomy t) with
     | Some x => [s2l "- **Taxonomy**: " ++ x]
     | None => []
     end
  ++ [ s2l "- **Definition**: "
         ++ get_or (t_definition t) "No definition provided";
       s2l "- **Relationships**:";
       format_relationships (t_relationships t);
       s2l "- **Usage Context**: " ++ get_or (t_usage_context t) "Not specified";
       match truthy_get (t_code_reference t) with
       | Some r => s2l "- **Code Reference**: `" ++ r ++ s2l "`"
       | None => s2l "- **Code Reference**: TBD"
       end ].

Definition generate_term_section (t : term) (level : text) : text :=
  Str.join nl (term_section_lines t level).

(** One element of the list [lines] of [generate_markdown]: a fixed
    string, or the section of a term. *)
Inductive line : Type :=
| Plain (l : text)
| TermBlock (t : term) (level : text).

Definition render_line (l : line) : text :=
  match l with
  | Plain x => x
  | TermBlock t level => generate_term_section t level
  end.

(** The value stored per category in [terms_by_category]. *)
Record entry : Type :=
  { e_subcategories : gmap text (list term);
    e_direct : option (list term) }.

(** Body of [for term in vocab_data['terms']:]. *)
Definition add_term (terms_by_category : gmap text entry) (t : term)
    : gmap text entry :=
  let cat_id := t_category t in
  let e :=
    match terms_by_category !! cat_id with
    | Some e => e
    | None => {| e_subcategories := ∅; e_direct := None |}
    end in
  match truthy_get (t_subcategory t) with
  | Some subcat_id =>
      let old :=
        match e_subcategories e !! subcat_id with
        | Some l => l
        | None => []
        end in
      <[cat_id :=
          {| e_subcategories := <[subcat_id := old ++ [t]]> (e_subcategories e);
             e_direct := e_direct e |}]> terms_by_category
  | None =>
      let old := match e_direct e with Some l => l | None => [] end in
      <[cat_id :=
          {| e_subcategories := e_subcategories e;
             e_direct := Some (old ++ [t]) |}]> terms_by_category
  end.

Definition group_terms (ts : list term) : gmap text entry :=
  fold_left add_term ts ∅.

Definition term_block (level : string) (t : term) : list line :=
  [TermBlock t (s2l level); Plain []].

(** Body of [for subcat in category['subcategories']:]. *)
Definition subcategory_lines (e : entry) (subcat : subcategory) : list line :=
  match e_subcategories e !! s_id subcat with
  | Some ts =>
      [Plain (s2l "### " ++ s_name subcat); Plain []]
      ++ match truthy_get (s_description subcat) with
         | Some d => [Plain (s2l "*" ++ d ++ s2l "*"); Plain []]
         | None => []
         end
      ++ flat_map (term_block "####") ts
  | None => []
  end.

(** Body of [for category in vocab_data['categories']:]. *)
Definition category_lines (terms_by_category : gmap text entry)
    (cat : category) : list line :=
  match terms_by_category !! c_id cat with
  | None => []
  | Some e =>
      [Plain (s2l "## " ++ c_name cat); Plain []]
      ++ match truthy_get (c_description cat) with
         | Some d => [Plain (s2l "*" ++ d ++ s2l "*"); Plain []]
         | None => []
         end
      ++ match c_subcategories cat with
         | Some ((_ :: _) as subs) => flat_map (subcategory_lines e) subs
         | _ => []
         end
      ++ match e_direct e with
         | Some ts => flat_map (term_block "###") ts
         | None => []
         end
  end.

(** The link line of the header, whose arrow is stored in the source as
    the three characters U+201A, U+00DC and U+00EA. *)
Definition back_link : text :=
  s2l "["
  ++ [8218; 220; 234]%N
  ++ s2l " Back to Index](index.md)".

Definition header : list line :=
  [Plain (s2l "# CIM Vocabulary"); Plain []; Plain back_link; Plain []].

Definition footer : list line :=
  [ Plain (s2l "---"); Plain [];
    Plain (s2l "*This vocabulary is continuously updated as the system evolves. For the latest implementation details, refer to the source code and documentation.*") ].

(** The list [lines] at the end of [generate_markdown]. *)
Definition markdown_lines (v : vocabulary) : list line :=
  header
  ++ flat_map (category_lines (group_terms (terms v))) (categories v)
  ++ footer.

Definition generate_markdown (v : vocabulary) : text :=
  Str.join nl (map render_line (markdown_lines v)).

End Titled.

(** The last line printed by [main]. *)
Definition processed_line (v : vocabulary) : text :=
  s2l "Processed " ++ Driver.decimal (length (terms v))
  ++ s2l " terms across " ++ Driver.decimal (length (categories v))
  ++ s2l " categories".

End Vocab.

(** * Part II: notions used to state the properties *)

(** ** Declarative semantics of the patterns *)

Module ReSem.
Import Re.

(** [Sem r w c c'] : the word [w] is in the language of [r], and matching
    it turns the capture environment [c] into [c']. *)
Inductive Sem : regex -> text -> caps -> caps -> Prop :=
| SemEps c : Sem Eps [] c c
| SemChr a c : Sem (Chr a) [a] c c
| SemRep g lo p w c :
    lo <= length w -> forallb p w = true -> Sem (Rep g lo p) w c c
| SemSeq r1 r2 w1 w2 c c1 c2 :
    Sem r1 w1 c c1 -> Sem r2 w2 c1 c2 -> Sem (Seq r1 r2) (w1 ++ w2) c c2
| SemGrp n r w c c1 :
    Sem r w c c1 -> Sem (Grp n r) w c ((n, w) :: c1)
| SemPlus1 r w c c1 :
    Sem r w c c1 -> Sem (Plus r) w c c1
| SemPlusS r w1 w2 c c1 c2 :
    Sem r w1 c c1 -> Sem (Plus r) w2 c1 c2 -> Sem (Plus r) (w1 ++ w2) c c2.

Create HintDb re.
#[export] Hint Constructors Sem : re.

(** [consumes r]: every word of [r] has at least one character. *)
Fixpoint consumes (r : regex) : bool :=
  match r with
  | Eps => false
  | Chr _ => true
  | Rep _ lo _ => 0 <? lo
  | Seq r1 r2 => consumes r1 || consumes r2
  | Grp _ r1 => consumes r1
  | Plus r1 => consumes r1
  end.

(** Every repeated group of [r] has a body that consumes. *)
Fixpoint productive (r : regex) : bool :=
  match r with
  | Eps | Chr _ | Rep _ _ _ => true
  | Seq r1 r2 => productive r1 && productive r2
  | Grp _ r1 => productive r1
  | Plus r1 => consumes r1 && productive r1
  end.

(** Two continuations agree on all texts of length at most, or below,
    [n]. *)
Definition agree_upto {R : Type} (n : nat) (K K' : text -> caps -> option R)
    : Prop :=
  forall s1 c1, length s1 <= n -> K s1 c1 = K' s1 c1.

Definition agree_below {R : Type} (n : nat) (K K' : text -> caps -> option R)
    : Prop :=
  forall s1 c1, length s1 < n -> K s1 c1 = K' s1 c1.

End ReSem.

(** ** Calls before and after a rewrite *)

Module Rewrites.
Import Re.

Definition quote_free (t : text) : Prop := forallb (none_of [dq]) t = true.

Definition blank (t : text) : Prop := forallb is_space t = true.

(** The text matched by [[^}]+\.[^}]+]. *)
Definition field_expr (e1 e2 : text) : text := e1 ++ s2l "." ++ e2.

Definition is_field_expr (e1 e2 : text) : Prop :=
  e1 <> [] /\ e2 <> [] /\
  forallb (none_of ["}"%char]) e1 = true /\
  forallb (none_of ["}"%char]) e2 = true.

(** A quoted template with one embedded expression, followed by [rest]. *)
Definition tpl (prefix expr suffix rest : text) : text :=
  dq :: prefix ++ s2l "{" ++ expr ++ s2l "}" ++ suffix ++ dq :: rest.

(** The same template with the expression given as [e1.e2]. *)
Definition tpl2 (prefix e1 e2 suffix rest : text) : text :=
  dq :: prefix ++ s2l "{" ++ e1 ++ s2l "." ++ e2 ++ s2l "}" ++ suffix
    ++ dq :: rest.

(** The call after the rewrite: [name("prefix{}suffix", args)]. *)
Definition call_out (name : string) (prefix suffix args : text) : text :=
  s2l name ++ s2l "(" ++ tpl prefix [] suffix (s2l ", " ++ args ++ s2l ")").

(** The [write!] call after the rewrite. *)
Definition write_out (writer prefix suffix args : text) : text :=
  s2l "write!(" ++ writer ++ s2l ", "
    ++ tpl prefix [] suffix (s2l ", " ++ args ++ s2l ")").

(** Rewriting of a [write!] call at the front of [s]: the call is the
    name, the writer, a comma and a template with one embedded expression
    (white space [w1] .. [w5] between the tokens); it is replaced by the
    call with the writer first, the template with the bare placeholder,
    and the expression as the argument. *)
Definition write_rewrite (r : regex) (repl : rmatch -> text)
    (s rest : text) : Prop :=
  exists w1 w2 writer w3 w4 prefix expr suffix w5,
    (blank w1 /\ blank w2 /\ blank w3 /\ blank w4 /\ blank w5)
    /\ writer <> []
    /\ s = (s2l "write!" ++ w1 ++ s2l "(" ++ w2 ++ writer ++ w3 ++ s2l ","
            ++ w4 ++ tpl prefix expr suffix (w5 ++ s2l ")")) ++ rest
    /\ sub r repl s
       = write_out writer prefix suffix expr ++ sub r repl rest.

(** Rewriting of a [format!] call without arguments. *)
Definition extract_rewrite (r : regex) (repl : rmatch -> text)
    (s rest : text) : Prop :=
  exists w1 w2 prefix expr suffix w3,
    s = (s2l "format!" ++ w1 ++ s2l "(" ++ w2
           ++ tpl prefix expr suffix (w3 ++ s2l ")")) ++ rest
    /\ sub r repl s
       = call_out "format!" prefix suffix expr ++ sub r repl rest.

(** Rewriting of a [format!] call that has explicit arguments: the
    extracted expression goes in front of the text of the explicit
    arguments, which is copied. *)
Definition merge_rewrite (r : regex) (repl : rmatch -> text)
    (s rest : text) : Prop :=
  exists w1 w2 prefix expr suffix w3 w4 other_args,
    (blank w1 /\ blank w2 /\ blank w3 /\ blank w4)
    /\ other_args <> []
    /\ s = (s2l "format!" ++ w1 ++ s2l "(" ++ w2
            ++ tpl prefix expr suffix
                 (w3 ++ s2l "," ++ w4 ++ other_args ++ s2l ")")) ++ rest
    /\ sub r repl s
       = call_out "format!" prefix suffix (expr ++ s2l ", " ++ other_args)
         ++ sub r repl rest.

(** What every phase-2 pattern needs to be present: an opening
    parenthesis or a comma, white space, a double quote, a run without
    double quote, an open marker and a character that is not the close
    marker. *)
Definition has_region (s : text) : Prop :=
  exists pre c w prefix x rest,
    s = pre ++ c :: w ++ dq :: prefix ++ s2l "{" ++ x :: rest
    /\ (c = "("%char \/ c = ","%char)
    /\ blank w /\ quote_free prefix /\ x <> "}"%char.

End Rewrites.

(** ** Templates that hold only bare placeholders *)

(** [only_bare armed inq s]: in every string literal of [s] that opens
    after a parenthesis or a comma (where the patterns look for a
    template), every open marker up to the next double quote is directly
    followed by the close marker, that is, it is the bare placeholder
    [{}].  [armed] tells that the last character other than white space
    was an opening parenthesis or a comma, [inq] that such a literal is
    being read. *)
Fixpoint only_bare (armed inq : bool) (s : text) : bool :=
  match s with
  | [] => true
  | c :: s' =>
      if N.eqb c dq then only_bare false armed s'
      else if is_space c then only_bare armed inq s'
      else if N.eqb c "("%char || N.eqb c ","%char then only_bare true inq s'
      else if N.eqb c "{"%char && inq then
        match s' with [] => true | d :: _ => N.eqb d "}"%char end
        && only_bare false inq s'
      else only_bare false inq s'
  end.

(** ** Rendering and well-formedness of a call *)

Module Render.

(** What a formatting call renders, left to right: the literal characters
    of the template and the values of its regions. *)
Inductive piece : Type :=
| Lit (c : code_point)
| Val (expr : text).

(** The pieces rendered by a template with the given positional
    arguments, as the specification describes the template: a doubled
    marker is a literal brace, a region with an expression renders that
    expression, a bare placeholder renders the next argument.  [inside]
    holds the text of the region being read. *)
Fixpoint rendered_go (inside : option text) (s : text) (args : list text)
    : list piece :=
  match s with
  | [] => []
  | c :: s' =>
      match inside with
      | Some acc =>
          if N.eqb c "}"%char then
            match Str.strip acc, args with
            | [], a :: args' => Val a :: rendered_go None s' args'
            | [], [] => rendered_go None s' []
            | e, _ => Val e :: rendered_go None s' args
            end
          else rendered_go (Some (acc ++ [c])) s' args
      | None =>
          if N.eqb c "{"%char then
            match s' with
            | d :: s'' =>
                if N.eqb d "{"%char then Lit c :: rendered_go None s'' args
                else rendered_go (Some []) s' args
            | [] => []
            end
          else if N.eqb c "}"%char then
            match s' with
            | d :: s'' =>
                if N.eqb d "}"%char then Lit c :: rendered_go None s'' args
                else Lit c :: rendered_go None s' args
            | [] => [Lit c]
            end
          else Lit c :: rendered_go None s' args
      end
  end.

Definition rendered (template : text) (args : list text) : list piece :=
  rendered_go None template args.

(** Parentheses outside string literals are balanced, and every string
    literal is closed. *)
Fixpoint balanced_go (in_string : bool) (depth : nat) (s : text) : bool :=
  match s with
  | [] => negb in_string && (depth =? 0)
  | c :: s' =>
      if N.eqb c dq then balanced_go (negb in_string) depth s'
      else if in_string then balanced_go in_string depth s'
      else if N.eqb c "("%char then balanced_go in_string (S depth) s'
      else if N.eqb c ")"%char then
        match depth with
        | 0 => false
        | S d => balanced_go in_string d s'
        end
      else balanced_go in_string depth s'
  end.

Definition balanced (s : text) : bool := balanced_go false 0 s.

End Render.

(** ** The document of the projector, as the specification words it *)

Module VocabSpec.
Import Vocab.

Definition in_cat (c : text) (t : term) : bool := text_eqb (t_category t) c.

(** Terms of category [c] filed under subcategory [sc]. *)
Definition sel_sub (c sc : text) (t : term) : bool :=
  in_cat c t
  && match truthy_get (t_subcategory t) with
     | Some x => text_eqb x sc
     | None => false
     end.

(** Terms of category [c] without a subcategory. *)
Definition sel_direct (c : text) (t : term) : bool :=
  in_cat c t
  && match truthy_get (t_subcategory t) with
     | Some _ => false
     | None => true
     end.

(** The document as the specification words it: per declared category,
    in declaration order, a heading, then per declared subcategory its
    heading and its terms, then the terms without subcategory; each term
    as its labelled block. *)
Definition spec_subcategory_lines (ts : list term) (cat : category)
    (subcat : subcategory) : list line :=
  match List.filter (sel_sub (c_id cat) (s_id subcat)) ts with
  | [] => []
  | sel =>
      [Plain (s2l "### " ++ s_name subcat); Plain []]
      ++ match truthy_get (s_description subcat) with
         | Some d => [Plain (s2l "*" ++ d ++ s2l "*"); Plain []]
         | None => []
         end
      ++ flat_map (term_block "####") sel
  end.

Definition spec_category_lines (ts : list term) (cat : category)
    : list line :=
  if existsb (in_cat (c_id cat)) ts then
    [Plain (s2l "## " ++ c_name cat); Plain []]
    ++ match truthy_get (c_description cat) with
       | Some d => [Plain (s2l "*" ++ d ++ s2l "*"); Plain []]
       | None => []
       end
    ++ match c_subcategories cat with
       | Some subs => flat_map (spec_subcategory_lines ts cat) subs
       | None => []
       end
    ++ flat_map (term_block "###") (List.filter (sel_direct (c_id cat)) ts)
  else [].

Definition spec_lines (v : vocabulary) : list line :=
  header ++ flat_map (spec_category_lines (terms v)) (categories v) ++ footer.

Definition nonempty {A} (l : list A) : option (list A) :=
  match l with [] => None | _ => Some l end.

(** What [terms_by_category] holds after the grouping loop. *)
Definition grouped (ts : list term) (c : text) (o : option entry) : Prop :=
  match o with
  | None => existsb (in_cat c) ts = false
  | Some e =>
      existsb (in_cat c) ts = true
      /\ (forall sc,
            e_subcategories e !! sc = nonempty (List.filter (sel_sub c sc) ts))
      /\ e_direct e = nonempty (List.filter (sel_direct c) ts)
  end.

(** *** The document, line by line *)

Section Document.
Variable title : text -> text.

(** A labelled field of a term block. *)
Definition field (label : string) (value : text) : text :=
  s2l "- **" ++ s2l label ++ s2l "**: " ++ value.

(** The line of one relationship kind: the kind, hyphens read as spaces
    and in title case, and the targets separated by commas. *)
Definition relationship_line (r : text * list text) : text :=
  s2l "  * " ++ title (Str.replace (fst r) (s2l "-") (s2l " ") None)
    ++ s2l ": " ++ Str.join (s2l ", ") (snd r).

(** The block of a term: the heading with its name, then the fields in
    a fixed order (the field [Category] shows the type of the term, as
    the field [Type] does); [Taxonomy] is left out when the term has
    none, and a term without relationships has one empty line in their
    place. *)
Definition block (level : text) (t : term) : list text :=
  [ level ++ s2l " Term: " ++ format_term_name t;
    field "Category" (get_or (t_type t) "Unknown");
    field "Type" (get_or (t_type t) "Unknown") ]
  ++ match truthy_get (t_taxonomy t) with
     | Some x => [field "Taxonomy" x]
     | None => []
     end
  ++ [ field "Definition" (get_or (t_definition t) "No definition provided");
       s2l "- **Relationships**:" ]
  ++ match t_relationships t with
     | [] => [[]]
     | rs => map relationship_line rs
     end
  ++ [ field "Usage Context" (get_or (t_usage_context t) "Not specified");
       match truthy_get (t_code_reference t) with
       | Some r => s2l "- **Code Reference**: `" ++ r ++ s2l "`"
       | None => field "Code Reference" (s2l "TBD")
       end ].

(** A heading, an empty line and, when there is a description, the
    description in italics and an empty line. *)
Definition heading (marks : string) (name : text) (description : option text)
    : list text :=
  [s2l marks ++ s2l " " ++ name; []]
  ++ match truthy_get description with
     | Some d => [s2l "*" ++ d ++ s2l "*"; []]
     | None => []
     end.

(** The blocks of the terms [ts], each followed by an empty line. *)
Definition blocks (level : string) (ts : list term) : list text :=
  flat_map (fun t => block (s2l level) t ++ [[]]) ts.

(** The part of a declared subcategory: nothing when no term of the
    category is filed under it. *)
Definition subsection (ts : list term) (cat : category) (sc : subcategory)
    : list text :=
  match List.filter (sel_sub (c_id cat) (s_id sc)) ts with
  | [] => []
  | sel => heading "###" (s_name sc) (s_description sc) ++ blocks "####" sel
  end.

(** The section of a declared category: nothing when no term names the
    category; else its heading, its declared subcategories in their
    order, and the terms without subcategory. *)
Definition section_of (ts : list term) (cat : category) : list text :=
  if existsb (in_cat (c_id cat)) ts then
    heading "##" (c_name cat) (c_description cat)
    ++ flat_map (subsection ts cat)
         (match c_subcategories cat with Some subs => subs | None => [] end)
    ++ blocks "###" (List.filter (sel_direct (c_id cat)) ts)
  else [].

(** The lines of the document: the title and the link back to the
    index, the sections of the categories in the order of the list
    [categories], and the closing note. *)
Definition document (v : vocabulary) : list text :=
  [ s2l "# CIM Vocabulary"; [];
    s2l "[" ++ [8218; 220; 234]%N ++ s2l " Back to Index](index.md)"; [] ]
  ++ flat_map (section_of (terms v)) (categories v)
  ++ [ s2l "---"; [];
       s2l "*This vocabulary is continuously updated as the system evolves. For the latest implementation details, refer to the source code and documentation.*" ].

(** The lines that an element of the list [lines] of the code stands
    for. *)
Definition lines_of (l : line) : list text :=
  match l with
  | Plain x => [x]
  | TermBlock t level => block level t
  end.

End Document.

(** A term and its rendering in the document. *)
Definition category_declared (v : vocabulary) (t : term) : bool :=
  existsb (fun cat => text_eqb (c_id cat) (t_category t)) (categories v).

Definition subcategory_declared (v : vocabulary) (t : term) (sid : text)
    : bool :=
  existsb
    (fun cat =>
       text_eqb (c_id cat) (t_category t)
       && existsb (fun sc => text_eqb (s_id sc) sid)
            (match c_subcategories cat with Some subs => subs | None => [] end))
    (categories v).

(** The category of the term is not declared, or its subcategory is not
    declared among the subcategories of that category. *)
Definition undeclared (v : vocabulary) (t : term) : bool :=
  negb (category_declared v t)
  || match truthy_get (t_subcategory t) with
     | Some sid => negb (subcategory_declared v t sid)
     | None => false
     end.

End VocabSpec.

(** ** Observations on a run of the file driver *)

Module DriverSpec.
Import Driver.

Definition is_wrote (e : event) : bool :=
  match e with Wrote _ _ => true | Printed _ => false end.

(** Number of files written back, as seen in the trace. *)
Definition wrote_count (evs : list event) : nat :=
  length (List.filter is_wrote evs).

Definition skipped (root : text) : bool :=
  contains root (s2l "target") || contains root (s2l "bevy-patched").

(** The paths [main] hands to [process_file]. *)
Definition eligible (walk : list (text * list text)) : list text :=
  flat_map
    (fun '(root, names) =>
       if skipped root then []
       else map (path_join root)
              (List.filter (fun f => Str.endswith f (s2l ".rs")) names))
    walk.

Section Outcomes.
Variable FS : Type.
Variable read_text : FS -> text -> outcome text.
Variable write_text : FS -> text -> text -> FS * option text.
Variable fix_text : text -> text.

(** The line that reports a failure: the path and the cause. *)
Definition failure (p cause : text) : event :=
  Printed (s2l "Error processing " ++ p ++ s2l ": " ++ cause).

(** The four ways [process_file] can end: the text needs no change and
    nothing is written; the changed text is written; reading fails; or
    writing fails.  A failure is reported by one line and gives
    [False]. *)
Inductive processed (fs : FS) (p : text) : bool * FS * list event -> Prop :=
| Unchanged content :
    read_text fs p = Ok content -> fix_text content = content ->
    processed fs p (false, fs, [])
| Written content fs' :
    read_text fs p = Ok content -> fix_text content <> content ->
    write_text fs p (fix_text content) = (fs', None) ->
    processed fs p (true, fs', [Wrote p (fix_text content)])
| ReadFailed cause :
    read_text fs p = Raise cause ->
    processed fs p (false, fs, [failure p cause])
| WriteFailed content fs' cause :
    read_text fs p = Ok content -> fix_text content <> content ->
    write_text fs p (fix_text content) = (fs', Some cause) ->
    processed fs p (false, fs', [failure p cause]).

(** What [main] prints after a file that was written back. *)
Definition fixed_line (ok : bool) (p : text) : list event :=
  if ok then [Printed (s2l "Fixed: " ++ p)] else [].

(** [runs fs ps fs' evs n]: the files [ps] are processed one after the
    other, each from the file system the one before left, whatever the
    outcome of the ones before; [evs] are the events in order and [n] is
    the number of files written back. *)
Inductive runs (fs : FS) : list text -> FS -> list event -> nat -> Prop :=
| runs_nil : runs fs [] fs [] 0
| runs_cons p ps ok fs1 evs fs2 evs' n :
    processed fs p (ok, fs1, evs) ->
    runs fs1 ps fs2 evs' n ->
    runs fs (p :: ps) fs2 (evs ++ fixed_line ok p ++ evs')
      ((if ok then 1 else 0) + n).

(** The two lines at the end of a run of [main]. *)
Definition summary (total fixed : nat) : list event :=
  [ Printed ([10%N] ++ s2l "Processed " ++ decimal total
             ++ s2l " files, fixed " ++ decimal fixed ++ s2l " files");
    Printed (s2l "Run 'cargo fmt' to ensure proper formatting") ].

End Outcomes.

End DriverSpec.

(** ** Sample inputs *)

Module VocabExample.
Import Vocab.

Definition mk_term (name cat : string) (sub : option string) : term :=
  {| t_id := None; t_name := Some (s2l name); t_category := s2l cat;
     t_subcategory := option_map s2l sub; t_type := Some (s2l "Entity");
     t_taxonomy := None; t_definition := None;
     t_relationships := [(s2l "is-a", [s2l "x"; s2l "y"])];
     t_usage_context := None; t_code_reference := None |}.

Definition sample : vocabulary :=
  {| categories :=
       [ {| c_id := s2l "b"; c_name := s2l "Bee";
            c_description := Some (s2l "desc");
            c_subcategories :=
              Some [ {| s_id := s2l "s1"; s_name := s2l "Sub1";
                        s_description := None |} ] |};
         {| c_id := s2l "a"; c_name := s2l "Ay"; c_description := None;
            c_subcategories := None |} ];
     terms :=
       [ mk_term "T1 (Component)" "a" None; mk_term "T2" "b" (Some "s1");
         mk_term "T3" "b" (Some "zz"); mk_term "T4" "q" None;
         mk_term "T5" "b" None ] |}.

End VocabExample.

Module DriverExample.
Import Driver.

Definition disk : memfs :=
  [ (s2l "./a.rs", inr (Q "format!('{}', x)"));
    (s2l "./b.rs", inl (s2l "[Errno 13] Permission denied: './b.rs'"));
    (s2l "./c.rs", inr (s2l "fn main() {}"));
    (s2l "./target/d.rs", inr (Q "format!('{}', x)")) ].

Definition tree : list (text * list text) :=
  [ (s2l ".", [s2l "b.rs"; s2l "a.rs"; s2l "c.rs"; s2l "README"]);
    (s2l "./target", [s2l "d.rs"]) ].

Definition start : counts memfs :=
  {| total_count := 0; fixed_count := 0; files := disk; trace := [] |}.

End DriverExample.

(** ** Templates in front of the first embedded expression *)

(** [stop p s]: the text [s] does not go on with a character of the
    class [p]. *)
Definition stop (p : code_point -> bool) (s : text) : bool :=
  match s with
  | [] => true
  | y :: _ => negb (p y)
  end.

(** Every open marker of [s] is directly followed by the close marker:
    the template text [s] holds bare placeholders only. *)
Fixpoint bare_template (s : text) : bool :=
  match s with
  | [] => true
  | c :: s' =>
      if N.eqb c "{"%char then
        match s' with d :: _ => N.eqb d "}"%char | [] => false end
        && bare_template s'
      else bare_template s'
  end.


(** ** Templates with bare placeholders and their arguments *)

(** Every open marker of [s] is followed, inside [s], by a character
    other than the close marker: [s] holds no bare placeholder and does
    not end in an open marker. *)
Fixpoint no_hole (s : text) : bool :=
  match s with
  | [] => true
  | c :: s' =>
      (if N.eqb c "{"%char then
         match s' with d :: _ => negb (N.eqb d "}"%char) | [] => false end
       else true)
      && no_hole s'
  end.

(** The text that follows the first piece of a template: each further
    piece of [ts] is preceded by a placeholder, filled with the next
    variable of [vs] as long as there is one. *)
Fixpoint fill (ts vs : list text) : text :=
  match ts with
  | [] => []
  | t :: ts' =>
      match vs with
      | v :: vs' => Advanced.braced v ++ t ++ fill ts' vs'
      | [] => s2l "{}" ++ t ++ fill ts' []
      end
  end.

(** A variable that can be put between braces: not empty, no brace. *)
Definition plain_var (v : text) : Prop :=
  v <> [] /\ forallb (none_of ["{"%char; "}"%char]) v = true.

(** The nesting depth after [v], read from depth [d]: [(] and [<] open,
    [)] and [>] close; [None] when [v] closes more than is open or holds
    a comma at depth 0. *)
Fixpoint arg_depth (d : Z) (v : text) : option Z :=
  match v with
  | [] => Some d
  | c :: v' =>
      if N.eqb c "("%char || N.eqb c "<"%char then arg_depth (d + 1) v'
      else if N.eqb c ")"%char || N.eqb c ">"%char then
        if (d - 1 <? 0)%Z then None else arg_depth (d - 1) v'
      else if N.eqb c ","%char && (d =? 0)%Z then None
      else arg_depth d v'
  end.

(** One argument of a call: not empty, no white space at either end,
    brackets balanced, commas only inside brackets. *)
Definition is_arg (v : text) : Prop :=
  v <> [] /\ stop is_space v = true /\ stop is_space (rev v) = true
  /\ arg_depth 0 v = Some 0%Z.

(** An argument with the white space in front of it. *)
Definition is_item (a : text * text) : Prop :=
  Rewrites.blank (fst a) /\ is_arg (snd a).

(** The text of an argument list as the patterns capture it: a comma and
    white space in front of every argument. *)
Fixpoint arg_list (args : list (text * text)) : text :=
  match args with
  | [] => []
  | (w, v) :: args' => s2l "," ++ w ++ v ++ arg_list args'
  end.

(** The end of [extract_vars]: the current variable is added when it is
    not blank and the loop did not stop at an unmatched closer. *)
Definition finish (st : list text * text * Z) : list text :=
  let '(variables, current_var, paren_depth) := st in
  if Str.truthy (Str.strip current_var) && (0 <=? paren_depth)%Z
  then variables ++ [Str.strip current_var] else variables.
(** * Part III: lemmas *)

(** ** Equality of texts *)

Lemma text_eqb_eq a b : text_eqb a b = true <-> a = b.
Proof.
  revert b; induction a as [|x a IH]; intros [|y b]; simpl;
    try (split; congruence).
  rewrite andb_true_iff, N.eqb_eq, IH. split.
  - intros [-> ->]; reflexivity.
  - intros [= -> ->]; auto.
Qed.

Lemma text_neq (a b : text) : text_eqb a b = false -> a <> b.
Proof.
  intros H E. apply text_eqb_eq in E. rewrite E in H. discriminate.
Qed.

Lemma text_eqb_refl a : text_eqb a a = true.
Proof. apply text_eqb_eq; reflexivity. Qed.

Lemma text_eqb_neq a b : a <> b -> text_eqb a b = false.
Proof.
  intros H. destruct (text_eqb a b) eqn:E; [|reflexivity].
  apply text_eqb_eq in E. contradiction.
Qed.

(** ** Soundness of the matcher and equations of [sub] *)

Module ReFacts.
Import Re ReSem.

Lemma orelse_Some {R} (x y : option R) v :
  orelse x y = Some v -> x = Some v \/ (x = None /\ y = Some v).
Proof. destruct x; simpl; intros; [left | right]; auto. Qed.

Lemma firstn_app_rest (w s1 : text) :
  firstn (length (w ++ s1) - length s1) (w ++ s1) = w.
Proof.
  rewrite length_app, Nat.add_sub.
  rewrite firstn_app, Nat.sub_diag, firstn_all. simpl. apply app_nil_r.
Qed.

Section Sound.
Context {R : Type}.
Implicit Types (k : text -> option R) (x : R).

Lemma rep_min_sound p lo k s x :
  rep_min p lo k s = Some x ->
  exists w s1, s = w ++ s1 /\ length w = lo /\ forallb p w = true
               /\ k s1 = Some x.
Proof.
  revert s; induction lo as [|lo IH]; intros s H; simpl in H.
  - exists [], s; auto.
  - destruct s as [|a s]; [discriminate|].
    destruct (p a) eqn:Hp; [|discriminate].
    destruct (IH _ H) as (w & s1 & -> & Hl & Hw & Hk).
    exists (a :: w), s1; simpl; rewrite Hp, Hl; auto.
Qed.

Lemma rep_greedy_sound p k s x :
  rep_greedy p k s = Some x ->
  exists w s1, s = w ++ s1 /\ forallb p w = true /\ k s1 = Some x.
Proof.
  induction s as [|a s IH]; simpl; intros H.
  - exists [], []; auto.
  - destruct (p a) eqn:Hp.
    + destruct (orelse_Some _ _ _ H) as [H1 | [_ H1]].
      * destruct (IH H1) as (w & s1 & -> & Hw & Hk).
        exists (a :: w), s1; simpl; rewrite Hp; auto.
      * exists [], (a :: s); auto.
    + exists [], (a :: s); auto.
Qed.

Lemma rep_lazy_sound p k s x :
  rep_lazy p k s = Some x ->
  exists w s1, s = w ++ s1 /\ forallb p w = true /\ k s1 = Some x.
Proof.
  induction s as [|a s IH]; simpl; intros H;
    destruct (orelse_Some _ _ _ H) as [H1 | [_ H1]];
    try (eexists [], _; split; [reflexivity | auto]; fail);
    try discriminate.
  destruct (p a) eqn:Hp; [|discriminate].
  destruct (IH H1) as (w & s1 & -> & Hw & Hk).
  exists (a :: w), s1; simpl; rewrite Hp; auto.
Qed.

(** Whatever the matcher finds is a word of the language, split off the
    front of the text, with the captures the semantics prescribes. *)
Theorem exec_sound r :
  forall (k : text -> caps -> option R) s c x,
    exec r k s c = Some x ->
    exists w s1 c1, s = w ++ s1 /\ Sem r w c c1 /\ k s1 c1 = Some x.
Proof.
  induction r as [|a|g lo p|r1 IH1 r2 IH2|n r IH|r IH]; intros k s c x H;
    cbn [exec] in H.
  - exists [], s, c; auto with re.
  - destruct s as [|b s]; [discriminate|].
    destruct (N.eqb b a) eqn:E; [|discriminate].
    apply N.eqb_eq in E; subst b. exists [a], s, c; auto with re.
  - apply rep_min_sound in H as (w1 & s1 & -> & Hl & Hw1 & H).
    assert (exists w2 s2, s1 = w2 ++ s2 /\ forallb p w2 = true
                          /\ k s2 c = Some x) as (w2 & s2 & -> & Hw2 & Hk).
    { destruct g; [apply rep_greedy_sound in H | apply rep_lazy_sound in H];
        exact H. }
    exists (w1 ++ w2), s2, c. rewrite <- app_assoc. repeat split; auto.
    constructor.
    + rewrite length_app; lia.
    + rewrite forallb_app, Hw1, Hw2; reflexivity.
  - apply IH1 in H as (w1 & s1 & c1 & -> & S1 & H).
    apply IH2 in H as (w2 & s2 & c2 & -> & S2 & H).
    exists (w1 ++ w2), s2, c2. rewrite <- app_assoc; eauto with re.
  - apply IH in H as (w & s1 & c1 & -> & S1 & H).
    rewrite firstn_app_rest in H. exists w, s1, ((n, w) :: c1); auto with re.
  - remember (S (length s)) as fuel eqn:Ef. clear Ef.
    revert s c H; induction fuel as [|fuel IHf]; intros s c H; simpl in H;
      [discriminate|].
    apply IH in H as (w & s1 & c1 & -> & S1 & H).
    destruct (orelse_Some _ _ _ H) as [H1 | [_ H1]].
    + apply IHf in H1 as (w2 & s2 & c2 & -> & S2 & Hk).
      exists (w ++ w2), s2, c2. rewrite <- app_assoc; eauto with re.
    + exists w, s1, c1; auto with re.
Qed.

End Sound.

(** A successful [match_here] splits the text into the matched word and
    the rest. *)
Lemma match_here_sound r s m rest :
  match_here r s = Some (m, rest) ->
  s = whole m ++ rest /\ Sem r (whole m) [] (groups m).
Proof.
  unfold match_here; intros H.
  apply exec_sound in H as (w & s1 & c1 & -> & HS & [= <- <-]).
  simpl. rewrite firstn_app_rest. auto.
Qed.

Lemma sub_go_skip r repl w rest :
  rest <> [] \/ match_here r [] = None ->
  sub_go r repl (w ++ rest) (length w) = sub_go r repl rest 0.
Proof.
  intros Hr. induction w as [|a w IH]; simpl; auto.
Qed.

Lemma sub_nomatch r repl a s :
  match_here r (a :: s) = None ->
  sub r repl (a :: s) = a :: sub r repl s.
Proof. unfold sub; simpl; intros ->; reflexivity. Qed.

Lemma sub_match r repl s m rest :
  match_here r s = Some (m, rest) ->
  whole m <> [] ->
  rest <> [] \/ match_here r [] = None ->
  sub r repl s = repl m ++ sub r repl rest.
Proof.
  intros H Hne Hr. pose proof (match_here_sound _ _ _ _ H) as [Hs _].
  unfold sub. destruct (whole m) as [|a w] eqn:Ew; [congruence|].
  destruct s as [|x s']; [discriminate|].
  simpl in Hs; injection Hs as -> ->.
  cbn [sub_go]. rewrite H, Ew. cbn [length].
  f_equal. apply sub_go_skip; auto.
Qed.

(** Where the pattern matches nowhere, [re.sub] returns its input. *)
Lemma sub_no_match r repl s :
  search r s = false -> sub r repl s = s.
Proof.
  unfold sub. induction s as [|a s IH]; simpl.
  - destruct (match_here r []) as [[m ?]|]; [discriminate | reflexivity].
  - destruct (match_here r (a :: s)) as [[m ?]|]; [discriminate|].
    intros H. rewrite IH; auto.
Qed.

Lemma search_false_iff r s :
  search r s = false <->
  forall a b, s = a ++ b -> match_here r b = None.
Proof.
  induction s as [|x s IH]; simpl.
  - destruct (match_here r []) eqn:E; split; try discriminate; auto.
    + intros H. specialize (H [] [] eq_refl). congruence.
    + intros _ a b Hab. symmetry in Hab. apply app_eq_nil in Hab as [-> ->].
      exact E.
  - destruct (match_here r (x :: s)) eqn:E; split; try discriminate.
    + intros H. specialize (H [] (x :: s) eq_refl). congruence.
    + intros H a b Hab. destruct a as [|y a]; simpl in Hab.
      * subst b; exact E.
      * injection Hab as -> ->. apply (proj1 IH H a b eq_refl).
    + intros H. apply IH. intros a b ->. apply (H (x :: a) b eq_refl).
Qed.

End ReFacts.

(** ** The fuel of the greedy group repetition is never used up *)

Module Fuel.
Import Re ReSem ReFacts.

Section Ext.
Context {R : Type}.
Implicit Types (k : text -> option R) (K : text -> caps -> option R).

Lemma rep_greedy_ext p k k' s :
  (forall s1, length s1 <= length s -> k s1 = k' s1) ->
  rep_greedy p k s = rep_greedy p k' s.
Proof.
  induction s as [|a s IH]; intros H; simpl.
  - apply H; simpl; lia.
  - rewrite IH by (intros; apply H; simpl; lia).
    rewrite (H (a :: s)) by (simpl; lia). reflexivity.
Qed.

Lemma rep_lazy_ext p k k' s :
  (forall s1, length s1 <= length s -> k s1 = k' s1) ->
  rep_lazy p k s = rep_lazy p k' s.
Proof.
  induction s as [|a s IH]; intros H; simpl.
  - rewrite (H []) by (simpl; lia). reflexivity.
  - rewrite IH by (intros; apply H; simpl; lia).
    rewrite (H (a :: s)) by (simpl; lia). reflexivity.
Qed.

Lemma rep_min_ext p lo k k' s :
  (forall s1, length s1 + lo <= length s -> k s1 = k' s1) ->
  rep_min p lo k s = rep_min p lo k' s.
Proof.
  revert s; induction lo as [|lo IH]; intros s H; simpl.
  - apply H; lia.
  - destruct s as [|a s]; [reflexivity|]. destruct (p a); [|reflexivity].
    apply IH. intros s1 Hs. apply H. simpl; lia.
Qed.

Lemma plus_loop_ext body K K' fuel :
  (forall K1 K2 s c, agree_upto (length s) K1 K2 ->
                     body K1 s c = body K2 s c) ->
  forall s c, agree_upto (length s) K K' ->
              plus_loop body K fuel s c = plus_loop body K' fuel s c.
Proof.
  intros Hb. induction fuel as [|fuel IH]; intros s c H; simpl; auto.
  apply Hb. intros s1 c1 Hs.
  rewrite (IH s1 c1) by (intros s2 c2 H2; apply H; lia).
  rewrite (H s1 c1 Hs). reflexivity.
Qed.

(** The result of [exec r K s c] only depends on [K] at texts that are
    not longer than [s], and at strictly shorter texts when [r]
    consumes. *)
Lemma exec_ext r :
  (forall K K' s c, agree_upto (length s) K K' ->
                    exec r K s c = exec r K' s c)
  /\ (consumes r = true ->
      forall K K' s c, agree_below (length s) K K' ->
                       exec r K s c = exec r K' s c).
Proof.
  induction r as [|a|g lo p|r1 [IH1 IH1s] r2 [IH2 IH2s]|n r [IH IHs]
                 |r [IH IHs]]; cbn [exec consumes].
  - split; [|discriminate]. intros K K' s c H. apply H; lia.
  - split; intros; destruct s as [|x s]; auto;
      destruct (N.eqb x a); auto; apply H; simpl; lia.
  - assert (E : forall K K' c s1,
               agree_upto (length s1) K K' ->
               (if g then rep_greedy else rep_lazy) p (fun s2 => K s2 c) s1
               = (if g then rep_greedy else rep_lazy) p (fun s2 => K' s2 c) s1).
    { intros K K' c s1 H.
      destruct g; [apply rep_greedy_ext | apply rep_lazy_ext];
        intros s2 Hs; apply H; lia. }
    split.
    + intros K K' s c H. apply rep_min_ext. intros s1 Hs.
      apply (E K K' c). intros s2 c2 H2. apply H; lia.
    + intros Hlo K K' s c H. apply Nat.ltb_lt in Hlo.
      apply rep_min_ext. intros s1 Hs.
      apply (E K K' c). intros s2 c2 H2. apply H; lia.
  - split.
    + intros K K' s c H. apply IH1. intros s1 c1 Hs.
      apply IH2. intros s2 c2 H2. apply H; lia.
    + intros Hc K K' s c H. apply orb_true_iff in Hc as [Hc | Hc].
      * apply IH1s; auto. intros s1 c1 Hs.
        apply IH2. intros s2 c2 H2. apply H; lia.
      * apply IH1. intros s1 c1 Hs.
        apply IH2s; auto. intros s2 c2 H2. apply H; lia.
  - split.
    + intros K K' s c H. apply IH. intros s1 c1 Hs. apply H; lia.
    + intros Hc K K' s c H. apply IHs; auto.
      intros s1 c1 Hs. apply H; lia.
  - split.
    + intros K K' s c H. apply plus_loop_ext; auto.
    + intros Hc K K' s c H. simpl. apply IHs; auto.
      intros s1 c1 Hs.
      rewrite (plus_loop_ext (exec r) K K' (length s) IH s1 c1)
        by (intros s2 c2 H2; apply H; lia).
      rewrite (H s1 c1 Hs). reflexivity.
Qed.

(** With a body that consumes, one unit of fuel per character is
    enough: more fuel gives the same result. *)
Lemma plus_loop_fuel r K :
  consumes r = true ->
  forall n n' s c, length s < n -> length s < n' ->
    plus_loop (exec r) K n s c = plus_loop (exec r) K n' s c.
Proof.
  intros Hc. induction n as [|n IH]; intros n' s c Hn Hn'; [lia|].
  destruct n' as [|n']; [lia|]. simpl.
  apply (proj2 (exec_ext r) Hc). intros s1 c1 Hs.
  rewrite (IH n' s1 c1) by lia. reflexivity.
Qed.

Theorem plus_fuel_enough r K s c n :
  consumes r = true -> length s < n ->
  plus_loop (exec r) K n s c = exec (Plus r) K s c.
Proof.
  intros Hc Hn. cbn [exec]. apply plus_loop_fuel; auto.
Qed.

End Ext.

(** The patterns of [fix_format_strings_advanced.py], the only ones with
    a repeated group, repeat a body that starts with a comma. *)
Lemma advanced_patterns_productive :
  forall name,
    productive (Advanced.call_pattern name) = true
    /\ productive Advanced.write_pattern = true.
Proof.
  intros name. split; [|reflexivity].
  unfold Advanced.call_pattern, L. generalize (s2l name) as w.
  intros w. cbn -[lit]. induction w as [|a w IH]; simpl; auto.
Qed.

End Fuel.

(** ** Shape of the matches of the patterns *)

Module Shapes.
Import Re ReSem ReFacts Rewrites.

(** Inversion of [Sem] along a concrete pattern. *)
Ltac sem_step :=
  match goal with
  | H : Sem (seq _) _ _ _ |- _ => cbn [seq] in H
  | H : Sem (L _) _ _ _ |- _ =>
      unfold L in H; text_literals_in H; cbn [lit] in H
  | H : Sem (lit _) _ _ _ |- _ => cbn [lit] in H
  | H : Sem ws _ _ _ |- _ => unfold ws in H
  | H : Sem word _ _ _ |- _ => unfold word in H
  | H : Sem (lazy_not _) _ _ _ |- _ => unfold lazy_not in H
  | H : Sem (some_not _) _ _ _ |- _ => unfold some_not in H
  | H : Sem Eps _ _ _ |- _ => inversion H; subst; clear H
  | H : Sem (Chr _) _ _ _ |- _ => inversion H; subst; clear H
  | H : Sem (Seq _ _) _ _ _ |- _ => inversion H; subst; clear H
  | H : Sem (Grp _ _) _ _ _ |- _ => inversion H; subst; clear H
  | H : Sem (Rep _ _ _) _ _ _ |- _ => inversion H; subst; clear H
  end.

Ltac sem_inv := repeat sem_step.

Lemma nonempty_length (w : text) : 1 <= length w -> w <> [].
Proof. destruct w; simpl; [lia | discriminate]. Qed.

Ltac shape_done :=
  rewrite ?app_nil_r;
  repeat eexists; try reflexivity; try (apply nonempty_length);
  eassumption.

Lemma pattern_shape w c c1 :
  Sem Phase2.pattern w c c1 ->
  exists w1 w2 prefix e1 e2 suffix w3,
    w = s2l "format!" ++ w1 ++ s2l "(" ++ w2
          ++ tpl prefix (field_expr e1 e2) suffix (w3 ++ s2l ")")
    /\ c1 = (3, suffix) :: (2, field_expr e1 e2) :: (1, prefix) :: c
    /\ is_field_expr e1 e2 /\ quote_free prefix /\ quote_free suffix
    /\ blank w1 /\ blank w2 /\ blank w3.
Proof.
  intros H. unfold Phase2.pattern in H. sem_inv.
  unfold tpl, field_expr, is_field_expr, quote_free, blank.
  shape_done.
Qed.

Lemma pattern2_shape w c c1 :
  Sem Phase2.pattern2 w c c1 ->
  exists w1 w2 prefix e1 e2 suffix w3 w4 other_args,
    w = s2l "format!" ++ w1 ++ s2l "(" ++ w2
          ++ tpl prefix (field_expr e1 e2) suffix
               (w3 ++ s2l "," ++ w4 ++ other_args ++ s2l ")")
    /\ c1 = (4, other_args) :: (3, suffix) :: (2, field_expr e1 e2)
              :: (1, prefix) :: c
    /\ is_field_expr e1 e2 /\ quote_free prefix /\ quote_free suffix
    /\ blank w1 /\ blank w2 /\ blank w3 /\ blank w4
    /\ other_args <> [] /\ forallb (none_of [")"%char]) other_args = true.
Proof.
  intros H. unfold Phase2.pattern2 in H. sem_inv.
  unfold tpl, field_expr, is_field_expr, quote_free, blank.
  shape_done.
Qed.

Lemma pattern3_shape w c c1 :
  Sem Phase2.pattern3 w c c1 ->
  exists w1 w2 writer w3 prefix e1 e2 suffix w4,
    w = s2l "write!" ++ w1 ++ s2l "(" ++ w2 ++ writer ++ s2l "," ++ w3
          ++ tpl prefix (field_expr e1 e2) suffix (w4 ++ s2l ")")
    /\ c1 = (4, suffix) :: (3, field_expr e1 e2) :: (2, prefix)
              :: (1, writer) :: c
    /\ is_field_expr e1 e2 /\ quote_free prefix /\ quote_free suffix
    /\ blank w1 /\ blank w2 /\ blank w3 /\ blank w4
    /\ writer <> [] /\ forallb (none_of [","%char]) writer = true.
Proof.
  intros H. unfold Phase2.pattern3 in H. sem_inv.
  unfold tpl, field_expr, is_field_expr, quote_free, blank.
  shape_done.
Qed.

Lemma tpl2_eq prefix e1 e2 suffix rest :
  tpl2 prefix e1 e2 suffix rest = tpl prefix (field_expr e1 e2) suffix rest.
Proof.
  unfold tpl2, tpl, field_expr. rewrite <- !app_assoc. reflexivity.
Qed.

Lemma format_var_field_shape w c c1 :
  Sem Final.format_var_field w c c1 ->
  exists w1 w2 prefix e1 e2 suffix w3,
    w = s2l "format!" ++ w1 ++ s2l "(" ++ w2
          ++ tpl2 prefix e1 e2 suffix (w3 ++ s2l ")")
    /\ c1 = (4, suffix) :: (3, e2) :: (2, e1) :: (1, prefix) :: c
    /\ quote_free prefix /\ quote_free suffix
    /\ forallb is_word e1 = true /\ forallb is_word e2 = true.
Proof.
  intros H. unfold Final.format_var_field in H. sem_inv.
  unfold tpl2, quote_free.
  shape_done.
Qed.

Lemma write_self_field_shape w c c1 :
  Sem Final.write_self_field w c c1 ->
  exists w1 w2 writer w3 w4 prefix e suffix w5,
    w = s2l "write!" ++ w1 ++ s2l "(" ++ w2 ++ writer ++ w3 ++ s2l ","
          ++ w4 ++ tpl prefix (s2l "self." ++ e) suffix (w5 ++ s2l ")")
    /\ c1 = (4, suffix) :: (3, e) :: (2, prefix) :: (1, writer) :: c
    /\ quote_free prefix /\ quote_free suffix
    /\ blank w1 /\ blank w2 /\ blank w3 /\ blank w4 /\ blank w5
    /\ writer <> [] /\ forallb is_word writer = true.
Proof.
  intros H. unfold Final.write_self_field in H. sem_inv.
  unfold tpl, quote_free, blank.
  shape_done.
Qed.

Lemma write_var_field_shape w c c1 :
  Sem Final.write_var_field w c c1 ->
  exists w1 w2 writer w3 w4 prefix e1 e2 suffix w5,
    w = s2l "write!" ++ w1 ++ s2l "(" ++ w2 ++ writer ++ w3 ++ s2l ","
          ++ w4 ++ tpl2 prefix e1 e2 suffix (w5 ++ s2l ")")
    /\ c1 = (5, suffix) :: (4, e2) :: (3, e1) :: (2, prefix)
              :: (1, writer) :: c
    /\ quote_free prefix /\ quote_free suffix
    /\ blank w1 /\ blank w2 /\ blank w3 /\ blank w4 /\ blank w5
    /\ writer <> [] /\ forallb is_word writer = true.
Proof.
  intros H. unfold Final.write_var_field in H. sem_inv.
  unfold tpl2, quote_free, blank.
  shape_done.
Qed.

End Shapes.

(** ** Text with bare placeholders only is matched by no phase-2 pattern *)

Module Bare.
Import Re ReSem ReFacts Rewrites Shapes.

Lemma has_region_app_l a b : has_region b -> has_region (a ++ b).
Proof.
  intros (pre & c & w & prefix & x & rest & -> & Hc & Hw & Hq & Hx).
  exists (a ++ pre), c, w, prefix, x, rest. rewrite <- app_assoc. auto 6.
Qed.

Lemma has_region_app_r b t : has_region b -> has_region (b ++ t).
Proof.
  intros (pre & c & w & prefix & x & rest & -> & Hc & Hw & Hq & Hx).
  exists pre, c, w, prefix, x, (rest ++ t). split; [|auto].
  rewrite <- app_assoc. cbn. rewrite <- app_assoc. cbn.
  rewrite <- app_assoc. reflexivity.
Qed.

Lemma none_of_single_neq a x : none_of [a] x = true -> x <> a.
Proof.
  unfold none_of; simpl. rewrite orb_false_r, negb_true_iff.
  intros H ->. rewrite N.eqb_refl in H. discriminate.
Qed.

Lemma has_region_tpl c w prefix e1 e2 suffix rest :
  c = "("%char \/ c = ","%char -> blank w ->
  is_field_expr e1 e2 -> quote_free prefix ->
  has_region (c :: w ++ tpl prefix (field_expr e1 e2) suffix rest).
Proof.
  intros Hc Hw (Hne & _ & H1 & _) Hq. destruct e1 as [|x e1]; [congruence|].
  simpl in H1. apply andb_true_iff in H1 as [Hx _].
  exists [], c, w, prefix, x,
    (e1 ++ s2l "." ++ e2 ++ s2l "}" ++ suffix ++ dq :: rest).
  repeat split; auto using none_of_single_neq.
  unfold tpl, field_expr. cbn. rewrite <- !app_assoc. reflexivity.
Qed.

Lemma only_bare_app armed inq a t :
  only_bare armed inq (a ++ t) = true ->
  exists armed' inq', only_bare armed' inq' t = true.
Proof.
  revert armed inq; induction a as [|c a IH]; intros armed inq; simpl; eauto.
  destruct (N.eqb c dq); eauto.
  destruct (is_space c); eauto.
  destruct (N.eqb c "("%char || N.eqb c ","%char); eauto.
  destruct (N.eqb c "{"%char && inq); eauto.
  intros [_ H]%andb_true_iff; eauto.
Qed.

Lemma space_not_quote c : is_space c = true -> N.eqb c dq = false.
Proof.
  intros H. destruct (N.eqb c dq) eqn:E; [|reflexivity].
  apply N.eqb_eq in E. subst c. discriminate.
Qed.

Lemma only_bare_blank inq w t :
  blank w -> only_bare true inq (w ++ t) = true -> only_bare true inq t = true.
Proof.
  unfold blank. induction w as [|c w IH]; simpl; auto.
  intros [Hc Hw]%andb_true_iff. rewrite (space_not_quote c Hc), Hc. auto.
Qed.

Lemma only_bare_run armed prefix x rest :
  quote_free prefix ->
  only_bare armed true (prefix ++ s2l "{" ++ x :: rest) = true ->
  x = "}"%char.
Proof.
  unfold quote_free. revert armed.
  induction prefix as [|c g IH]; intros armed; simpl.
  - intros _ [H _]%andb_true_iff. apply N.eqb_eq; exact H.
  - intros [Hc Hg]%andb_true_iff.
    apply none_of_single_neq, N.eqb_neq in Hc. rewrite Hc.
    destruct (is_space c); eauto.
    destruct (N.eqb c "("%char || N.eqb c ","%char); eauto.
    destruct (N.eqb c "{"%char && true); eauto.
    intros [_ H]%andb_true_iff; eauto.
Qed.

Lemma has_region_not_bare armed inq s :
  has_region s -> only_bare armed inq s = false.
Proof.
  intros (pre & c & w & prefix & x & rest & -> & Hc & Hw & Hq & Hx).
  destruct (only_bare armed inq _) eqn:E; [|reflexivity].
  apply only_bare_app in E as (armed' & inq' & E).
  assert (E1 : only_bare true inq' (w ++ dq :: prefix ++ s2l "{" ++ x :: rest)
               = true).
  { destruct Hc as [-> | ->]; exact E. }
  apply only_bare_blank in E1; auto. simpl in E1.
  apply only_bare_run in E1; auto. contradiction.
Qed.

(** All three phase-2 patterns need such a region. *)
Lemma phase2_match_region r s m rest :
  In r [Phase2.pattern; Phase2.pattern2; Phase2.pattern3] ->
  match_here r s = Some (m, rest) -> has_region s.
Proof.
  intros Hr H. apply match_here_sound in H as [-> H].
  apply has_region_app_r.
  simpl in Hr. destruct Hr as [<- | [<- | [<- | []]]].
  - apply pattern_shape in H
      as (w1 & w2 & prefix & e1 & e2 & suffix & w3 & -> & _ & He & Hq & _
          & _ & B2 & _).
    do 2 apply has_region_app_l. apply has_region_tpl; auto.
  - apply pattern2_shape in H
      as (w1 & w2 & prefix & e1 & e2 & suffix & w3 & w4 & o & -> & _ & He
          & Hq & _ & _ & B2 & _).
    do 2 apply has_region_app_l. apply has_region_tpl; auto.
  - apply pattern3_shape in H
      as (w1 & w2 & wr & w3 & prefix & e1 & e2 & suffix & w4 & -> & _ & He
          & Hq & _ & _ & _ & B3 & _).
    do 5 apply has_region_app_l. apply has_region_tpl; auto.
Qed.

Lemma phase2_no_search r s :
  In r [Phase2.pattern; Phase2.pattern2; Phase2.pattern3] ->
  only_bare false false s = true -> search r s = false.
Proof.
  intros Hr Hb. apply search_false_iff. intros a b ->.
  destruct (match_here r b) as [[m rest]|] eqn:E; [|reflexivity].
  apply (phase2_match_region _ _ _ _ Hr) in E.
  apply (has_region_app_l a), (has_region_not_bare false false) in E.
  congruence.
Qed.

Lemma phase2_bare_fixed s :
  only_bare false false s = true ->
  Phase2.fix_format_string_field_access s = s.
Proof.
  intros Hb. unfold Phase2.fix_format_string_field_access.
  rewrite (sub_no_match Phase2.pattern)
    by (apply phase2_no_search; simpl; auto).
  rewrite (sub_no_match Phase2.pattern2)
    by (apply phase2_no_search; simpl; auto).
  apply sub_no_match, phase2_no_search; simpl; auto.
Qed.

End Bare.

(** ** The rewrite at a match *)

Module RewriteFacts.
Import Re ReSem ReFacts Rewrites Shapes.

Lemma sub_at_match r repl s m rest :
  match_here r s = Some (m, rest) ->
  whole m <> [] ->
  match_here r [] = None ->
  s = whole m ++ rest /\ sub r repl s = repl m ++ sub r repl rest.
Proof.
  intros H Hne H0. split.
  - apply match_here_sound in H as [H _]. exact H.
  - apply sub_match; auto.
Qed.

(** From a match and the shape of the matched word to the equation of
    [sub] at that position. *)
Ltac at_match H Hs Hsub Hsem :=
  pose proof (match_here_sound _ _ _ _ H) as [Hs Hsem];
  pose proof (fun repl Hne H0 => sub_match _ repl _ _ _ H Hne (or_intror H0))
    as Hsub.

Ltac finish_rewrite Hs Hw Hc Hsub :=
  split;
  [ rewrite Hs, Hw; reflexivity
  | rewrite Hsub;
    [ f_equal; unfold group; rewrite Hc; cbn [lookup_group Nat.eqb];
      cbn; rewrite <- ?app_assoc; reflexivity
    | rewrite Hw; discriminate
    | reflexivity ] ].

Lemma pattern3_rewrite s m rest :
  match_here Phase2.pattern3 s = Some (m, rest) ->
  write_rewrite Phase2.pattern3 Phase2.replacer3 s rest.
Proof.
  intros H. at_match H Hs Hsub Hsem.
  apply pattern3_shape in Hsem
    as (w1 & w2 & writer & w3 & prefix & e1 & e2 & suffix & w4 & Hw & Hc & _
        & _ & _ & B1 & B2 & B3 & B4 & Hne & _).
  exists w1, w2, writer, [], w3, prefix, (field_expr e1 e2), suffix, w4.
  split; [unfold blank at 3; simpl; auto 6|]. split; [exact Hne|].
  unfold write_out, Phase2.replacer3, tpl.
  finish_rewrite Hs Hw Hc Hsub.
Qed.

Lemma write_self_field_rewrite s m rest :
  match_here Final.write_self_field s = Some (m, rest) ->
  write_rewrite Final.write_self_field Final.write_self_field_repl s rest.
Proof.
  intros H. at_match H Hs Hsub Hsem.
  apply write_self_field_shape in Hsem
    as (w1 & w2 & writer & w3 & w4 & prefix & e & suffix & w5 & Hw & Hc & _
        & _ & B1 & B2 & B3 & B4 & B5 & Hne & _).
  exists w1, w2, writer, w3, w4, prefix, (s2l "self." ++ e), suffix, w5.
  split; [auto 6|]. split; [exact Hne|].
  unfold write_out, Final.write_self_field_repl, Final.wfmt, tpl.
  finish_rewrite Hs Hw Hc Hsub.
Qed.

Lemma write_var_field_rewrite s m rest :
  match_here Final.write_var_field s = Some (m, rest) ->
  write_rewrite Final.write_var_field Final.write_var_field_repl s rest.
Proof.
  intros H. at_match H Hs Hsub Hsem.
  apply write_var_field_shape in Hsem
    as (w1 & w2 & writer & w3 & w4 & prefix & e1 & e2 & suffix & w5 & Hw & Hc
        & _ & _ & B1 & B2 & B3 & B4 & B5 & Hne & _).
  rewrite tpl2_eq in Hw.
  exists w1, w2, writer, w3, w4, prefix, (field_expr e1 e2), suffix, w5.
  split; [auto 6|]. split; [exact Hne|].
  unfold write_out, Final.write_var_field_repl, Final.wfmt, tpl, field_expr.
  finish_rewrite Hs Hw Hc Hsub.
Qed.

Lemma pattern2_rewrite s m rest :
  match_here Phase2.pattern2 s = Some (m, rest) ->
  merge_rewrite Phase2.pattern2 Phase2.replacer2 s rest.
Proof.
  intros H. at_match H Hs Hsub Hsem.
  apply pattern2_shape in Hsem
    as (w1 & w2 & prefix & e1 & e2 & suffix & w3 & w4 & other & Hw & Hc & _
        & _ & _ & B1 & B2 & B3 & B4 & Hne & _).
  exists w1, w2, prefix, (field_expr e1 e2), suffix, w3, w4, other.
  split; [auto|]. split; [exact Hne|].
  unfold call_out, Phase2.replacer2, tpl.
  finish_rewrite Hs Hw Hc Hsub.
Qed.

Lemma pattern_rewrite s m rest :
  match_here Phase2.pattern s = Some (m, rest) ->
  extract_rewrite Phase2.pattern Phase2.replacer s rest.
Proof.
  intros H. at_match H Hs Hsub Hsem.
  apply pattern_shape in Hsem
    as (w1 & w2 & prefix & e1 & e2 & suffix & w3 & Hw & Hc & _).
  exists w1, w2, prefix, (field_expr e1 e2), suffix, w3.
  unfold call_out, Phase2.replacer, tpl.
  finish_rewrite Hs Hw Hc Hsub.
Qed.

Lemma format_var_field_rewrite s m rest :
  match_here Final.format_var_field s = Some (m, rest) ->
  extract_rewrite Final.format_var_field Final.format_var_field_repl s rest.
Proof.
  intros H. at_match H Hs Hsub Hsem.
  apply format_var_field_shape in Hsem
    as (w1 & w2 & prefix & e1 & e2 & suffix & w3 & Hw & Hc & _).
  rewrite tpl2_eq in Hw.
  exists w1, w2, prefix, (field_expr e1 e2), suffix, w3.
  unfold call_out, Final.format_var_field_repl, Final.fmt, tpl, field_expr.
  finish_rewrite Hs Hw Hc Hsub.
Qed.

End RewriteFacts.

(** ** Text that no pattern recognises *)

Module Verbatim.
Import Re ReFacts.

Lemma apply_patterns_no_match ps content :
  (forall r, In r (map fst ps) -> search r content = false) ->
  Final.apply_patterns ps content = content.
Proof.
  unfold Final.apply_patterns. induction ps as [|[r f] ps IH]; simpl; auto.
  intros H. rewrite sub_no_match by auto. auto.
Qed.

(** The text in front of the first match is copied as it is. *)
Lemma sub_prefix_verbatim r repl a b :
  (forall a1 a2, a = a1 ++ a2 -> a2 <> [] -> match_here r (a2 ++ b) = None) ->
  sub r repl (a ++ b) = a ++ sub r repl b.
Proof.
  induction a as [|x a IH]; intros H; [reflexivity|].
  cbn [app]. rewrite sub_nomatch.
  - f_equal. apply IH. intros a1 a2 -> Hne. apply (H (x :: a1) a2); auto.
  - apply (H [] (x :: a)); [reflexivity | discriminate].
Qed.

End Verbatim.

(** ** The projector groups terms by declared category *)

Module VocabFacts.
Import Vocab VocabSpec.

Lemma nonempty_snoc {A} (l : list A) x : nonempty (l ++ [x]) = Some (l ++ [x]).
Proof. destruct l; reflexivity. Qed.

Lemma nonempty_or_nil {A} (l : list A) :
  match nonempty l with Some l' => l' | None => [] end = l.
Proof. destruct l; reflexivity. Qed.

Lemma no_cat_no_sub c sc ts :
  existsb (in_cat c) ts = false -> List.filter (sel_sub c sc) ts = [].
Proof.
  induction ts as [|t ts IH]; simpl; [reflexivity|].
  intros [Ht Hts]%orb_false_iff. unfold sel_sub at 1. rewrite Ht. auto.
Qed.

Lemma no_cat_no_direct c ts :
  existsb (in_cat c) ts = false -> List.filter (sel_direct c) ts = [].
Proof.
  induction ts as [|t ts IH]; simpl; [reflexivity|].
  intros [Ht Hts]%orb_false_iff. unfold sel_direct at 1. rewrite Ht. auto.
Qed.

Lemma grouped_entry ts c o :
  grouped ts c o ->
  let e := match o with
           | Some e => e
           | None => {| e_subcategories := ∅; e_direct := None |}
           end in
  (forall sc,
      e_subcategories e !! sc = nonempty (List.filter (sel_sub c sc) ts))
  /\ e_direct e = nonempty (List.filter (sel_direct c) ts).
Proof.
  destruct o as [e|]; simpl.
  - intros (_ & H1 & H2); auto.
  - intros H. split.
    + intros sc. rewrite lookup_empty, no_cat_no_sub; auto.
    + rewrite no_cat_no_direct; auto.
Qed.

Lemma group_terms_lookup ts c : grouped ts c (group_terms ts !! c).
Proof.
  induction ts as [|t ts IH] using rev_ind.
  - unfold group_terms; simpl. rewrite lookup_empty. reflexivity.
  - unfold group_terms in *. rewrite fold_left_app. simpl.
    set (g := fold_left add_term ts ∅) in *.
    unfold add_term.
    destruct (decide (t_category t = c)) as [Ec | Hne].
    + subst c. apply grouped_entry in IH. cbv zeta in IH.
      set (e := match g !! t_category t with
                | Some e => e
                | None => {| e_subcategories := ∅; e_direct := None |}
                end) in *.
      destruct IH as [Hsub Hdir].
      assert (Hin : in_cat (t_category t) t = true) by apply text_eqb_refl.
      destruct (truthy_get (t_subcategory t)) as [sid|] eqn:Es;
        rewrite lookup_insert_eq; simpl;
        (split; [rewrite List.existsb_app; simpl; rewrite Hin;
                 apply orb_true_iff; right; reflexivity|]).
      * split.
        -- intros sc. rewrite List.filter_app. simpl.
           unfold sel_sub at 2. rewrite Hin, Es. simpl.
           destruct (decide (sid = sc)) as [->|Hs].
           ++ rewrite lookup_insert_eq, text_eqb_refl, nonempty_snoc, Hsub.
              rewrite nonempty_or_nil. reflexivity.
           ++ rewrite lookup_insert_ne by assumption.
              rewrite (text_eqb_neq _ _ Hs), app_nil_r. apply Hsub.
        -- rewrite List.filter_app. simpl. unfold sel_direct at 2.
           rewrite Hin, Es. simpl. rewrite app_nil_r. exact Hdir.
      * split.
        -- intros sc. rewrite List.filter_app. simpl.
           unfold sel_sub at 2. rewrite Hin, Es. simpl.
           rewrite app_nil_r. apply Hsub.
        -- rewrite List.filter_app. simpl. unfold sel_direct at 2.
           rewrite Hin, Es. simpl. rewrite nonempty_snoc, Hdir.
           rewrite nonempty_or_nil. reflexivity.
    + assert (Hin : in_cat c t = false) by (apply text_eqb_neq; exact Hne).
      assert (E : forall o, grouped ts c o -> grouped (ts ++ [t]) c o).
      { intros [e|]; simpl; rewrite List.existsb_app; simpl; rewrite Hin.
        - intros (H0 & H1 & H2). split; [rewrite H0; reflexivity|]. split.
          + intros sc. rewrite List.filter_app. simpl. unfold sel_sub at 2.
            rewrite Hin. simpl. rewrite app_nil_r. apply H1.
          + rewrite List.filter_app. simpl. unfold sel_direct at 2.
            rewrite Hin. simpl. rewrite app_nil_r. apply H2.
        - intros ->. reflexivity. }
      destruct (truthy_get (t_subcategory t));
        rewrite lookup_insert_ne by assumption; apply E, IH.
Qed.

Lemma subcategory_lines_spec ts cat e subcat :
  (forall sc,
      e_subcategories e !! sc
      = nonempty (List.filter (sel_sub (c_id cat) sc) ts)) ->
  subcategory_lines e subcat = spec_subcategory_lines ts cat subcat.
Proof.
  intros H. unfold subcategory_lines, spec_subcategory_lines. rewrite H.
  destruct (List.filter _ ts); reflexivity.
Qed.

Lemma category_lines_spec ts cat :
  category_lines (group_terms ts) cat = spec_category_lines ts cat.
Proof.
  pose proof (group_terms_lookup ts (c_id cat)) as G.
  unfold category_lines, spec_category_lines.
  destruct (group_terms ts !! c_id cat) as [e|]; simpl in G.
  - destruct G as (-> & Hsub & ->). do 2 f_equal. f_equal.
    + destruct (c_subcategories cat) as [[|sc subs]|]; try reflexivity.
      apply flat_map_ext. intros a. apply subcategory_lines_spec, Hsub.
    + destruct (List.filter _ ts); reflexivity.
  - rewrite G. reflexivity.
Qed.

(** The list built by the dictionary-based loops is the list the
    specification describes. *)
Lemma markdown_lines_spec v : markdown_lines v = spec_lines v.
Proof.
  unfold markdown_lines, spec_lines. do 2 f_equal.
  apply flat_map_ext. intros cat. apply category_lines_spec.
Qed.

Lemma startswith_app a b : Str.startswith (a ++ b) a = true.
Proof.
  induction a as [|x a IH]; simpl; [reflexivity|].
  rewrite N.eqb_refl, IH. reflexivity.
Qed.

Lemma join_cons sep (p : text) ps :
  ps <> [] -> Str.join sep (p :: ps) = p ++ sep ++ Str.join sep ps.
Proof. destruct ps; [congruence | reflexivity]. Qed.

Lemma join_app sep (a b : list text) :
  a <> [] -> b <> [] ->
  Str.join sep (a ++ b) = Str.join sep a ++ sep ++ Str.join sep b.
Proof.
  intros Ha Hb. induction a as [|p a IH]; [congruence|].
  destruct a as [|q a].
  - cbn [app]. rewrite join_cons by assumption. reflexivity.
  - cbn [app] in *. rewrite join_cons by discriminate.
    rewrite IH by discriminate. rewrite (join_cons sep p (q :: a))
      by discriminate.
    rewrite <- !app_assoc. reflexivity.
Qed.

(** Joining joined groups of lines is joining all the lines. *)
Lemma join_groups sep (gs : list (list text)) :
  Forall (fun g => g <> []) gs ->
  Str.join sep (map (Str.join sep) gs) = Str.join sep (concat gs).
Proof.
  induction 1 as [|g gs Hg Hgs IH]; [reflexivity|].
  destruct gs as [|g' gs].
  - cbn. rewrite app_nil_r. reflexivity.
  - cbn [map concat] in *. rewrite join_cons by discriminate.
    rewrite IH. rewrite (join_app sep g (g' ++ concat gs)); auto.
    inversion Hgs as [|? ? Hg' _]; subst.
    destruct g'; [congruence | cbn; discriminate].
Qed.

Section Rendering.
Variable title : text -> text.

Lemma block_nonempty level t : block title level t <> [].
Proof. discriminate. Qed.

(** The text of a term section is its block, line by line. *)
Lemma term_section_block t level :
  generate_term_section title t level
  = Str.join nl (block title level t).
Proof.
  unfold generate_term_section.
  set (G := [ [level ++ s2l " Term: " ++ format_term_name t];
              [field "Category" (get_or (t_type t) "Unknown")];
              [field "Type" (get_or (t_type t) "Unknown")] ]
            ++ match truthy_get (t_taxonomy t) with
               | Some x => [[field "Taxonomy" x]]
               | None => []
               end
            ++ [ [field "Definition"
                    (get_or (t_definition t) "No definition provided")];
                 [s2l "- **Relationships**:"];
                 match t_relationships t with
                 | [] => [[]]
                 | rs => map (relationship_line title) rs
                 end;
                 [field "Usage Context"
                    (get_or (t_usage_context t) "Not specified")];
                 [match truthy_get (t_code_reference t) with
                  | Some r => s2l "- **Code Reference**: `" ++ r ++ s2l "`"
                  | None => field "Code Reference" (s2l "TBD")
                  end] ]).
  assert (E1 : term_section_lines title t level = map (Str.join nl) G).
  { unfold term_section_lines, G, format_relationships.
    assert (Er : forall rs,
               map (fun '(rel_type, targets) =>
                      s2l "  * "
                      ++ title (Str.replace rel_type (s2l "-") (s2l " ") None)
                      ++ s2l ": " ++ Str.join (s2l ", ") targets) rs
               = map (relationship_line title) rs).
    { intros rs. apply map_ext. intros [a b]. reflexivity. }
    destruct (truthy_get (t_taxonomy t)), (t_relationships t) as [|r rs];
      rewrite ?Er; reflexivity. }
  assert (E2 : concat G = block title level t).
  { unfold G, block.
    destruct (truthy_get (t_taxonomy t)); cbn [app concat];
      rewrite ?app_nil_r; reflexivity. }
  rewrite E1, join_groups; [f_equal; exact E2|].
  unfold G. destruct (truthy_get (t_taxonomy t)), (t_relationships t);
    repeat constructor; discriminate.
Qed.

Lemma render_lines ls :
  Str.join nl (map (render_line title) ls)
  = Str.join nl (flat_map (lines_of title) ls).
Proof.
  rewrite flat_map_concat_map, <- join_groups.
  - rewrite map_map. f_equal. apply map_ext. intros [x|t level]; cbn.
    + reflexivity.
    + apply term_section_block.
  - apply List.Forall_forall. intros g (l & <- & _)%in_map_iff.
    destruct l; discriminate.
Qed.

Lemma lines_of_blocks level ts :
  flat_map (lines_of title) (flat_map (term_block level) ts)
  = blocks title level ts.
Proof.
  unfold blocks. induction ts as [|t ts IH]; [reflexivity|].
  cbn [flat_map app term_block lines_of]. rewrite IH.
  rewrite <- ?app_assoc. reflexivity.
Qed.

Lemma lines_of_heading marks name description :
  flat_map (lines_of title)
    ([Plain (s2l marks ++ s2l " " ++ name); Plain []]
     ++ match truthy_get description with
        | Some d => [Plain (s2l "*" ++ d ++ s2l "*"); Plain []]
        | None => []
        end)
  = heading marks name description.
Proof. unfold heading. destruct (truthy_get description); reflexivity. Qed.

Lemma lines_of_subcategory ts cat sc :
  flat_map (lines_of title) (spec_subcategory_lines ts cat sc)
  = subsection title ts cat sc.
Proof.
  unfold spec_subcategory_lines, subsection.
  destruct (List.filter _ ts) as [|t0 sel]; [reflexivity|].
  rewrite app_assoc, flat_map_app, lines_of_blocks.
  f_equal. apply (lines_of_heading "###").
Qed.

Lemma lines_of_category ts cat :
  flat_map (lines_of title) (spec_category_lines ts cat)
  = section_of title ts cat.
Proof.
  unfold spec_category_lines, section_of.
  destruct (existsb _ ts); [|reflexivity].
  rewrite app_assoc, !flat_map_app, lines_of_blocks.
  f_equal; [apply (lines_of_heading "##")|]. f_equal.
  destruct (c_subcategories cat) as [subs|]; [|reflexivity].
  induction subs as [|sc subs IH]; [reflexivity|].
  cbn [flat_map]. rewrite flat_map_app, lines_of_subcategory, IH.
  reflexivity.
Qed.

(** The text produced by [generate_markdown] is the document. *)
Lemma generate_markdown_document v :
  generate_markdown title v = Str.join nl (document title v).
Proof.
  unfold generate_markdown. rewrite markdown_lines_spec, render_lines.
  f_equal. unfold spec_lines, document.
  rewrite !flat_map_app.
  apply (f_equal2 (@app text)); [reflexivity|].
  apply (f_equal2 (@app text)); [|reflexivity].
  induction (categories v) as [|cat cats IH]; [reflexivity|].
  cbn [flat_map]. rewrite flat_map_app, lines_of_category, IH. reflexivity.
Qed.

Lemma blocks_in level sel t :
  In t sel ->
  exists pre post,
    blocks title level sel = pre ++ block title (s2l level) t ++ post.
Proof.
  intros (l1 & l2 & ->)%in_split.
  exists (blocks title level l1), ([[]] ++ blocks title level l2).
  unfold blocks. rewrite flat_map_app. cbn [flat_map].
  rewrite <- !app_assoc. reflexivity.
Qed.

(** A term whose category and subcategory are declared has its block in
    the section of its category: after the heading of its subcategory
    when it has one, among the terms without subcategory else. *)
Lemma declared_term_in_section v t :
  In t (terms v) -> undeclared v t = false ->
  exists cat,
    In cat (categories v) /\ c_id cat = t_category t
    /\ match truthy_get (t_subcategory t) with
       | Some sid =>
           exists sc pre mid post,
             s_id sc = sid
             /\ section_of title (terms v) cat
                = heading "##" (c_name cat) (c_description cat)
                  ++ pre
                  ++ heading "###" (s_name sc) (s_description sc)
                  ++ mid ++ block title (s2l "####") t ++ post
       | None =>
           exists pre post,
             section_of title (terms v) cat
             = heading "##" (c_name cat) (c_description cat)
               ++ pre ++ block title (s2l "###") t ++ post
       end.
Proof.
  intros Hin Hu. unfold undeclared in Hu.
  apply orb_false_iff in Hu as [Hc Hs]. apply negb_false_iff in Hc.
  assert (Hsec : forall cat, c_id cat = t_category t ->
            section_of title (terms v) cat
            = heading "##" (c_name cat) (c_description cat)
              ++ flat_map (subsection title (terms v) cat)
                   (match c_subcategories cat with
                    | Some subs => subs
                    | None => []
                    end)
              ++ blocks title "###"
                   (List.filter (sel_direct (c_id cat)) (terms v))).
  { intros cat Ec. unfold section_of.
    replace (existsb (in_cat (c_id cat)) (terms v)) with true; [reflexivity|].
    symmetry. apply existsb_exists. exists t. split; [exact Hin|].
    unfold in_cat. rewrite Ec. apply text_eqb_refl. }
  destruct (truthy_get (t_subcategory t)) as [sid|] eqn:Es.
  - apply negb_false_iff in Hs. unfold subcategory_declared in Hs.
    apply existsb_exists in Hs as (cat & Hcat & H).
    apply andb_true_iff in H as [Ec H]. apply text_eqb_eq in Ec.
    apply existsb_exists in H as (sc & Hsc & Esc). apply text_eqb_eq in Esc.
    exists cat. split; [exact Hcat|]. split; [exact Ec|].
    apply in_split in Hsc as (l1 & l2 & Esubs).
    assert (Ht : In t (List.filter (sel_sub (c_id cat) (s_id sc)) (terms v))).
    { apply filter_In. split; [exact Hin|]. unfold sel_sub, in_cat.
      rewrite Es, Ec, Esc, !text_eqb_refl. reflexivity. }
    assert (Hsub : exists mid post,
               subsection title (terms v) cat sc
               = heading "###" (s_name sc) (s_description sc)
                 ++ mid ++ block title (s2l "####") t ++ post).
    { unfold subsection.
      destruct (List.filter _ (terms v)) as [|t0 sel] eqn:Ef; [contradiction|].
      destruct (blocks_in "####" _ _ Ht) as (mid & post & ->). eauto. }
    destruct Hsub as (mid & post & Hsub).
    exists sc, (flat_map (subsection title (terms v) cat) l1), mid,
      (post ++ flat_map (subsection title (terms v) cat) l2
       ++ blocks title "###"
            (List.filter (sel_direct (c_id cat)) (terms v))).
    split; [exact Esc|].
    rewrite (Hsec cat Ec), Esubs, flat_map_app. cbn [flat_map].
    rewrite Hsub, <- !app_assoc. reflexivity.
  - unfold category_declared in Hc.
    apply existsb_exists in Hc as (cat & Hcat & Ec). apply text_eqb_eq in Ec.
    exists cat. split; [exact Hcat|]. split; [exact Ec|].
    assert (Ht : In t (List.filter (sel_direct (c_id cat)) (terms v))).
    { apply filter_In. split; [exact Hin|]. unfold sel_direct, in_cat.
      rewrite Es, Ec, text_eqb_refl. reflexivity. }
    destruct (blocks_in "###" _ _ Ht) as (pre & post & E).
    exists (flat_map (subsection title (terms v) cat)
              (match c_subcategories cat with
               | Some subs => subs
               | None => []
               end) ++ pre), post.
    rewrite (Hsec cat Ec), E, <- !app_assoc. reflexivity.
Qed.

End Rendering.

Lemma block_in_term_block t level lv t' :
  In (TermBlock t level) (flat_map (term_block lv) t') -> In t t'.
Proof.
  intros (x & Hx & [H | [H | []]])%in_flat_map; [|discriminate].
  injection H as -> _. exact Hx.
Qed.

Lemma block_needs_declaration v t level :
  In (TermBlock t level) (markdown_lines v) -> undeclared v t = false.
Proof.
  rewrite markdown_lines_spec. unfold spec_lines.
  rewrite !in_app_iff. intros [H | [H | H]].
  - simpl in H. repeat destruct H as [H | H]; try discriminate; contradiction.
  - apply in_flat_map in H as (cat & Hcat & H).
    unfold spec_category_lines in H.
    destruct (existsb _ (terms v)); [|contradiction].
    rewrite !in_app_iff in H. destruct H as [H | [H | [H | H]]].
    + simpl in H. repeat destruct H as [H | H]; try discriminate; contradiction.
    + destruct (truthy_get (c_description cat)); simpl in H;
        repeat destruct H as [H | H]; try discriminate; contradiction.
    + destruct (c_subcategories cat) as [subs|] eqn:Esubs; [|contradiction].
      apply in_flat_map in H as (sc & Hsc & H).
      unfold spec_subcategory_lines in H.
      destruct (List.filter _ (terms v)) as [|t0 sel] eqn:Ef; [contradiction|].
      rewrite !in_app_iff in H. destruct H as [H | [H | H]].
      * simpl in H.
        repeat destruct H as [H | H]; try discriminate; contradiction.
      * destruct (truthy_get (s_description sc)); simpl in H;
          repeat destruct H as [H | H]; try discriminate; contradiction.
      * apply block_in_term_block in H. rewrite <- Ef in H.
        apply filter_In in H as [_ H]. unfold sel_sub, in_cat in H.
        apply andb_true_iff in H as [H1 H2].
        destruct (truthy_get (t_subcategory t)) as [sid|] eqn:Es;
          [|discriminate].
        apply text_eqb_eq in H1, H2. unfold undeclared. rewrite Es.
        assert (D : subcategory_declared v t sid = true).
        { apply existsb_exists. exists cat. split; [exact Hcat|].
          rewrite H1, text_eqb_refl, Esubs. simpl.
          apply existsb_exists. exists sc. rewrite H2, text_eqb_refl. auto. }
        assert (C : category_declared v t = true).
        { apply existsb_exists. exists cat. rewrite H1, text_eqb_refl. auto. }
        rewrite C, D. reflexivity.
    + apply block_in_term_block in H.
      apply filter_In in H as [_ H]. unfold sel_direct, in_cat in H.
      apply andb_true_iff in H as [H1 H2].
      destruct (truthy_get (t_subcategory t)) as [sid|] eqn:Es;
        [discriminate|].
      apply text_eqb_eq in H1. unfold undeclared. rewrite Es.
      assert (C : category_declared v t = true).
      { apply existsb_exists. exists cat. rewrite H1, text_eqb_refl. auto. }
      rewrite C. reflexivity.
  - simpl in H. repeat destruct H as [H | H]; try discriminate; contradiction.
Qed.

End VocabFacts.

(** ** The loops of the file driver *)

Module DriverFacts.
Import Driver DriverSpec.

Section Facts.
Variable FS : Type.
Variable read_text : FS -> text -> outcome text.
Variable write_text : FS -> text -> text -> FS * option text.
Variable fix_text : text -> text.

Abbreviation process := (process_file read_text write_text fix_text).
Abbreviation step := (visit read_text write_text fix_text).

Lemma process_file_cases fs p : processed FS read_text write_text fix_text fs p (process fs p).
Proof.
  unfold process_file. destruct (read_text fs p) as [content|e] eqn:Er.
  - destruct (text_eqb (fix_text content) content) eqn:E; simpl.
    + apply text_eqb_eq in E. eapply Unchanged; eauto.
    + assert (fix_text content <> content).
      { intros H. apply text_eqb_eq in H. congruence. }
      destruct (write_text fs p (fix_text content)) as [fs' [e|]] eqn:Ew.
      * eapply WriteFailed; eauto.
      * eapply Written; eauto.
  - apply ReadFailed. auto.
Qed.

(** The outcome of [process_file] is the only one that [processed]
    allows. *)
Lemma processed_is_result fs p out :
  processed FS read_text write_text fix_text fs p out -> process fs p = out.
Proof.
  unfold process_file. intros H.
  inversion H as [content Hr Hfix|content fs' Hr Hne Hw|cause Hr
                 |content fs' cause Hr Hne Hw]; subst; rewrite Hr.
  - rewrite Hfix, text_eqb_refl. reflexivity.
  - rewrite (text_eqb_neq _ _ Hne). cbn [negb]. rewrite Hw. reflexivity.
  - reflexivity.
  - rewrite (text_eqb_neq _ _ Hne). cbn [negb]. rewrite Hw. reflexivity.
Qed.

Lemma wrote_count_app a b :
  wrote_count (a ++ b) = wrote_count a + wrote_count b.
Proof. unfold wrote_count. rewrite List.filter_app, length_app. auto. Qed.

Abbreviation running := (runs FS read_text write_text fix_text).

Lemma runs_app a b fs fs1 fs2 e1 e2 n1 n2 :
  running fs a fs1 e1 n1 -> running fs1 b fs2 e2 n2 ->
  running fs (a ++ b) fs2 (e1 ++ e2) (n1 + n2).
Proof.
  induction 1 as [|fs p ps ok fs1 evs fs1' evs' n Hp Hr IH]; intros Hb;
    [exact Hb|].
  cbn [app]. rewrite <- !app_assoc, <- Nat.add_assoc.
  econstructor; eauto.
Qed.

(** The number of files written back is the number of [Wrote] events. *)
Lemma runs_wrote fs ps fs' evs n :
  running fs ps fs' evs n -> wrote_count evs = n.
Proof.
  induction 1 as [|fs p ps ok fs1 evs fs2 evs' n Hp Hr IH]; [reflexivity|].
  rewrite !wrote_count_app, IH.
  inversion Hp; subst; reflexivity.
Qed.

(** Every file of a run is processed, whatever happened before it. *)
Lemma runs_each fs ps fs' evs n p :
  running fs ps fs' evs n -> In p ps ->
  exists fs0 ok fs1 e pre post,
    processed FS read_text write_text fix_text fs0 p (ok, fs1, e)
    /\ evs = pre ++ e ++ fixed_line ok p ++ post.
Proof.
  induction 1 as [|fs q ps ok fs1 evs fs2 evs' n Hp Hr IH]; [contradiction|].
  intros [-> | Hin].
  - exists fs, ok, fs1, evs, [], evs'. split; [exact Hp | reflexivity].
  - destruct (IH Hin) as (fs0 & ok' & fs1' & e & pre & post & H & ->).
    exists fs0, ok', fs1', e, (evs ++ fixed_line ok q ++ pre), post.
    split; [exact H|]. rewrite <- !app_assoc. reflexivity.
Qed.

(** The loop over the files of one directory is a run over its [.rs]
    files. *)
Lemma visit_all_runs root names : forall st,
  let st' := fold_left (step root) names st in
  let ps := map (path_join root)
              (List.filter (fun f => Str.endswith f (s2l ".rs")) names) in
  exists evs n,
    running (files st) ps (files st') evs n
    /\ trace st' = trace st ++ evs
    /\ total_count st' = total_count st + length ps
    /\ fixed_count st' = fixed_count st + n.
Proof.
  induction names as [|f names IH]; intros st; cbn [fold_left List.filter].
  - exists [], 0. cbn. rewrite app_nil_r. repeat split; try lia. constructor.
  - specialize (IH (step root st f)). cbv zeta in IH.
    destruct IH as (evs & n & Hr & Ht & Hc & Hf).
    set (st1 := step root st f) in *.
    destruct (Str.endswith f (s2l ".rs")) eqn:Ef.
    + pose proof (process_file_cases (files st) (path_join root f)) as Hp.
      destruct (process_file read_text write_text fix_text (files st)
                  (path_join root f)) as [[ok fs1] e] eqn:Ep.
      assert (E1 : files st1 = fs1
                   /\ trace st1
                      = trace st ++ e ++ fixed_line ok (path_join root f)
                   /\ total_count st1 = S (total_count st)
                   /\ fixed_count st1
                      = fixed_count st + (if ok then 1 else 0)).
      { subst st1. unfold visit. rewrite Ef, Ep.
        destruct ok; cbn; rewrite ?app_nil_r; repeat split; lia. }
      clearbody st1. destruct E1 as (F1 & T1 & C1 & X1).
      rewrite F1 in Hr. rewrite T1 in Ht. rewrite C1 in Hc. rewrite X1 in Hf.
      exists (e ++ fixed_line ok (path_join root f) ++ evs),
        ((if ok then 1 else 0) + n).
      split; [econstructor; eauto|].
      rewrite Ht, <- !app_assoc. cbn [map length]. repeat split; lia.
    + assert (E1 : st1 = st) by (subst st1; unfold visit; rewrite Ef; reflexivity).
      rewrite E1 in *. exists evs, n. auto.
Qed.

(** The loops of [main] are a run over the eligible files. *)
Lemma walk_runs walk : forall st,
  let st' := fold_left (visit_dir read_text write_text fix_text) walk st in
  exists evs n,
    running (files st) (eligible walk) (files st') evs n
    /\ trace st' = trace st ++ evs
    /\ total_count st' = total_count st + length (eligible walk)
    /\ fixed_count st' = fixed_count st + n.
Proof.
  induction walk as [|[root names] walk IH]; intros st;
    cbn [fold_left eligible flat_map].
  - exists [], 0. cbn. rewrite app_nil_r. repeat split; try lia. constructor.
  - fold (eligible walk).
    set (st1 := visit_dir read_text write_text fix_text st (root, names)).
    assert (E : st1 = if skipped root then st
                      else fold_left (step root) names st) by reflexivity.
    specialize (IH st1). cbv zeta in IH.
    destruct IH as (evs & n & Hr & Ht & Hc & Hf). clearbody st1.
    destruct (skipped root); subst st1.
    + exists evs, n. auto.
    + destruct (visit_all_runs root names st) as (e1 & n1 & R1 & T1 & C1 & F1).
      exists (e1 ++ evs), (n1 + n).
      split; [eapply runs_app; eauto|].
      rewrite Ht, T1, Hc, C1, Hf, F1, length_app, <- app_assoc.
      repeat split; lia.
Qed.

End Facts.

End DriverFacts.

(** ** The scenarios of the specification, run on the scripts *)

Module Scenarios.

(** One embedded field access, no explicit argument. *)
Example field_access_extracted :
  Phase2.fix_format_string_field_access (Q "format!('id={self.id}')")
  = Q "format!('id={}', self.id)"
  /\ Final.fix_format_string_field_access (Q "println!('id={self.id}')")
     = Q "println!('id={}', self.id)".
Proof. split; vm_compute; reflexivity. Qed.

(** One embedded field access and one explicit argument. *)
Example field_access_before_explicit :
  Phase2.fix_format_string_field_access (Q "format!('{self.id}: {}', n)")
  = Q "format!('{}: {}', self.id, n)".
Proof. vm_compute; reflexivity. Qed.

(** A [write!] call with an embedded method call. *)
Example writer_kept :
  Final.fix_format_string_field_access (Q "write!(f, '{self.name}')")
  = Q "write!(f, '{}', self.name)"
  /\ Phase2.fix_format_string_field_access (Q "write!(out, '<{x.tag()}>')")
     = Q "write!(out, '<{}>', x.tag())".
Proof. split; vm_compute; reflexivity. Qed.

(** Bare placeholders matched by explicit arguments. *)
Example bare_placeholders_untouched :
  let x := Q "format!('{} {}', a, b.c)" in
  Phase2.fix_format_string_field_access x = x
  /\ Final.fix_format_string_field_access x = x
  /\ Remaining.fix_format_string_field_access x = x.
Proof. repeat split; vm_compute; reflexivity. Qed.

(** The opposite direction of [fix_format_strings_advanced.py]. *)
Example arguments_inlined :
  Advanced.fix_format_strings (Q "println!('{} = {}', name, value)")
  = Q "println!('{name} = {value}')"
  /\ Advanced.fix_format_strings (Q "eprintln!('{}', e)")
     = Q "eprintln!('{e}')".
Proof. split; vm_compute; reflexivity. Qed.

End Scenarios.

(** * Part IV: the claims *)

(** C1, as stated, fails.  A template with three embedded field accesses
    needs two runs of [fix_format_strings_phase2.py]: the second run still
    changes the text.  And [fix_format_strings_advanced.py] rewrites the
    bare placeholder itself, moving the argument into the template. *)
Lemma C1_second_run_changes :
  (let x := Q "format!('{a.b}{c.d}{e.f}')" in
   Phase2.fix_format_string_field_access
     (Phase2.fix_format_string_field_access x)
   <> Phase2.fix_format_string_field_access x)
  /\ Advanced.fix_format_strings (Q "format!('{}', a)")
     <> Q "format!('{}', a)".
Proof. split; apply text_neq; vm_compute; reflexivity. Qed.

(** C1, amended: text in which the string literals that follow an
    opening parenthesis or a comma hold only bare placeholders passes
    through [fix_format_string_field_access] of
    [fix_format_strings_phase2.py] unchanged, so that a second run on it
    reports no change either. *)
Theorem C1_bare_text_is_fixed_point (x : text) :
  only_bare false false x = true ->
  Phase2.fix_format_string_field_access x = x
  /\ Phase2.fix_format_string_field_access
       (Phase2.fix_format_string_field_access x)
     = Phase2.fix_format_string_field_access x.
Proof.
  intros Hb. pose proof (Bare.phase2_bare_fixed x Hb) as E.
  rewrite !E. auto.
Qed.

Lemma C1_bare_text_witness :
  let x :=
    Q "fn f() { let s = format!('{} and {}', a.b, c); if s.is_empty() { g(s) } }"
  in
  only_bare false false x = true
  /\ Phase2.fix_format_string_field_access x = x
  /\ Phase2.fix_format_string_field_access
       (Phase2.fix_format_string_field_access x)
     = Phase2.fix_format_string_field_access x.
Proof.
  split; [vm_compute; reflexivity|].
  apply C1_bare_text_is_fixed_point. vm_compute; reflexivity.
Defined.

(** C2 at its failing inputs.  [fix_format_strings_phase2.py] puts every
    extracted expression in front of the arguments that are already
    there: of two embedded expressions the second ends up first, and an
    expression behind a bare placeholder moves ahead of that
    placeholder's argument, so rendered values change places.  With a
    format specification in the template,
    [fix_format_strings_advanced.py] counts fewer placeholders than
    arguments: its [write!] branch drops the argument left over, which its
    [format!] branch keeps. *)
Theorem C2_rendering_order_not_preserved :
  Phase2.fix_format_string_field_access (Q "format!('{a.b}{c.d}')")
  = Q "format!('{}{}', c.d, a.b)"
  /\ Render.rendered (s2l "{a.b}{c.d}") []
     = [Render.Val (s2l "a.b"); Render.Val (s2l "c.d")]
  /\ Render.rendered (s2l "{}{}") [s2l "c.d"; s2l "a.b"]
     = [Render.Val (s2l "c.d"); Render.Val (s2l "a.b")]
  /\ Phase2.fix_format_string_field_access (Q "format!('{} {a.b}', x)")
     = Q "format!('{} {}', a.b, x)"
  /\ Advanced.fix_format_strings (Q "write!(f, '{:?} {}', a, b)")
     = Q "write!(f, '{:?} {a}')"
  /\ Advanced.fix_format_strings (Q "format!('{:?} {}', a, b)")
     = Q "format!('{:?} {a}', b)".
Proof. repeat split; vm_compute; reflexivity. Qed.

(** C3, as stated, fails.  [fix_format_strings_advanced.py] extracts
    nothing: it moves the first explicit argument into the template, so
    the final argument list is not the explicit arguments unmodified.  And
    one run of [fix_format_strings_phase2.py] over a template with two
    embedded expressions puts the second in front of the first. *)
Lemma C3_argument_list_differs :
  Advanced.fix_format_strings (Q "format!('{} of {}', a, b, c)")
  = Q "format!('{a} of {b}', c)"
  /\ Phase2.fix_format_string_field_access (Q "format!('{a.b}{c.d}')")
     = Q "format!('{}{}', c.d, a.b)"
  /\ Phase2.fix_format_string_field_access (Q "format!('{a.b}{c.d}')")
     <> Q "format!('{}{}', a.b, c.d)".
Proof.
  split; [vm_compute; reflexivity|]. split; [vm_compute; reflexivity|].
  apply text_neq. vm_compute; reflexivity.
Qed.

(** C3, amended: where [pattern2] of [fix_format_strings_phase2.py]
    matches (one embedded field access and explicit arguments), the
    argument text of the rewritten call is the extracted expression, a
    comma, and the text of the explicit arguments copied without any
    change. *)
Theorem C3_extracted_first_explicit_copied
    (s : text) (m : Re.rmatch) (rest : text) :
  Re.match_here Phase2.pattern2 s = Some (m, rest) ->
  Rewrites.merge_rewrite Phase2.pattern2 Phase2.replacer2 s rest.
Proof. apply RewriteFacts.pattern2_rewrite. Qed.

Lemma C3_extracted_first_witness :
  let s := Q "format!('{}: {self.name}', id, extra(1, 2)); more" in
  exists m rest,
    Re.match_here Phase2.pattern2 s = Some (m, rest)
    /\ Rewrites.merge_rewrite Phase2.pattern2 Phase2.replacer2 s rest
    /\ Re.sub Phase2.pattern2 Phase2.replacer2 s
       = Q "format!('{}: {}', self.name, id, extra(1, 2)); more".
Proof.
  intros s. eexists. eexists. split; [vm_compute; reflexivity|]. split.
  - eapply (C3_extracted_first_explicit_copied s). vm_compute; reflexivity.
  - vm_compute; reflexivity.
Defined.

(** C4 at its failing input.  An argument that is a call with a comma and
    nested parentheses: the pattern stops at the first closing
    parenthesis, so the call is cut inside the argument and the rewritten
    text has unbalanced parentheses. *)
Theorem C4_nested_call_argument_unbalanced :
  let x := Q "format!('{}', foo(a, b))" in
  let y := Q "write!(f, '{}', foo(a, b))" in
  Render.balanced x = true
  /\ Advanced.fix_format_strings x = Q "format!('{foo(a, b}'))"
  /\ Render.balanced (Advanced.fix_format_strings x) = false
  /\ Render.balanced y = true
  /\ Advanced.fix_format_strings y = Q "write!(f, '{foo(a, b}'))"
  /\ Render.balanced (Advanced.fix_format_strings y) = false.
Proof. repeat split; vm_compute; reflexivity. Qed.

(** C5, as stated, fails: the patterns have no notion of a doubled open
    marker.  In [{{a.b}}] phase 2 takes the first brace as the opener and
    the second as part of the expression; the final script keeps the
    doubled marker but lets its second brace open the region.  A template
    that is all literal text would have to come back unchanged. *)
Lemma C5_doubled_marker_opens_region :
  let x := Q "format!('{{a.b}}')" in
  Phase2.fix_format_string_field_access x = Q "format!('{}}', {a.b)"
  /\ Final.fix_format_string_field_access x = Q "format!('{{}}', a.b)"
  /\ Phase2.fix_format_string_field_access x <> x
  /\ Final.fix_format_string_field_access x <> x.
Proof.
  repeat split; try (vm_compute; reflexivity);
    apply text_neq; vm_compute; reflexivity.
Qed.

(** C5, amended: where the [format!] pattern of
    [fix_format_strings_phase2.py] or the variable-field pattern of
    [fix_final_format_strings.py] matches, only the one matched region is
    replaced by the bare placeholder; the template text before and after
    it, with every doubled marker it holds, is copied byte for byte. *)
Theorem C5_text_around_region_copied
    (s : text) (m : Re.rmatch) (rest : text) :
  (Re.match_here Phase2.pattern s = Some (m, rest) ->
   Rewrites.extract_rewrite Phase2.pattern Phase2.replacer s rest)
  /\ (Re.match_here Final.format_var_field s = Some (m, rest) ->
      Rewrites.extract_rewrite Final.format_var_field
        Final.format_var_field_repl s rest).
Proof.
  split.
  - apply RewriteFacts.pattern_rewrite.
  - apply RewriteFacts.format_var_field_rewrite.
Qed.

Lemma C5_text_around_region_witness :
  let s := Q "format!('{{id}} = {item.id} {{end}}')" in
  exists m rest,
    Re.match_here Final.format_var_field s = Some (m, rest)
    /\ Rewrites.extract_rewrite Final.format_var_field
         Final.format_var_field_repl s rest
    /\ Final.fix_format_string_field_access s
       = Q "format!('{{id}} = {} {{end}}', item.id)".
Proof.
  intros s. eexists. eexists. split; [vm_compute; reflexivity|]. split.
  - eapply (proj2 (C5_text_around_region_copied s _ _)).
    vm_compute; reflexivity.
  - vm_compute; reflexivity.
Defined.

(** C6, as stated, fails: not only the template and the argument list
    are modified.  The replacement is built from the groups alone, so the
    white space between the tokens of the call is lost: here the text in
    front of the template changes from [write!( f , ] to [write!(f, ]. *)
Theorem C6_white_space_between_tokens_lost :
  let x := Q "write!( f , 'x{a.b}' )" in
  let y := Q "write!(f, 'x{}', a.b)" in
  Final.fix_format_string_field_access x = y
  /\ Str.startswith x (Q "write!( f , '") = true
  /\ Str.startswith y (Q "write!( f , '") = false
  /\ Phase2.fix_format_string_field_access (Q "write!( f, 'x{a.b}' )") = y
  /\ Str.startswith y (Q "write!( f, '") = false.
Proof. repeat split; vm_compute; reflexivity. Qed.

(** C6, amended: where a [write!] pattern of [fix_format_strings_phase2.py] or of
    [fix_final_format_strings.py] matches, the writer expression (group 1)
    is not part of the template or of the arguments: the replacement is
    [write!(], the writer exactly as it stands in the input, a comma, the
    template with the embedded expression replaced by the bare
    placeholder, and the expression as the argument.  The white space
    that the call has between its tokens is not part of the
    replacement. *)
Theorem C6_writer_first_and_unchanged (s : text) (m : Re.rmatch) (rest : text) :
  (Re.match_here Phase2.pattern3 s = Some (m, rest) ->
   Rewrites.write_rewrite Phase2.pattern3 Phase2.replacer3 s rest)
  /\ (Re.match_here Final.write_self_field s = Some (m, rest) ->
      Rewrites.write_rewrite Final.write_self_field
        Final.write_self_field_repl s rest)
  /\ (Re.match_here Final.write_var_field s = Some (m, rest) ->
      Rewrites.write_rewrite Final.write_var_field
        Final.write_var_field_repl s rest).
Proof.
  split; [|split].
  - apply RewriteFacts.pattern3_rewrite.
  - apply RewriteFacts.write_self_field_rewrite.
  - apply RewriteFacts.write_var_field_rewrite.
Qed.

Lemma C6_writer_witness :
  let s1 := Q "write!(f, 'v={self.value()}'); done" in
  let s2 := Q "write!( out , '{self.name}!' ) ?" in
  let s3 := Q "write!(w,'<{item.id}>')" in
  (exists m rest,
     Re.match_here Phase2.pattern3 s1 = Some (m, rest)
     /\ Rewrites.write_rewrite Phase2.pattern3 Phase2.replacer3 s1 rest
     /\ Re.sub Phase2.pattern3 Phase2.replacer3 s1
        = Q "write!(f, 'v={}', self.value()); done")
  /\ (exists m rest,
        Re.match_here Final.write_self_field s2 = Some (m, rest)
        /\ Rewrites.write_rewrite Final.write_self_field
             Final.write_self_field_repl s2 rest
        /\ Re.sub Final.write_self_field Final.write_self_field_repl s2
           = Q "write!(out, '{}!', self.name) ?")
  /\ (exists m rest,
        Re.match_here Final.write_var_field s3 = Some (m, rest)
        /\ Rewrites.write_rewrite Final.write_var_field
             Final.write_var_field_repl s3 rest
        /\ Re.sub Final.write_var_field Final.write_var_field_repl s3
           = Q "write!(w, '<{}>', item.id)").
Proof.
  intros s1 s2 s3. split; [|split].
  - eexists. eexists. split; [vm_compute; reflexivity|]. split.
    + eapply (proj1 (C6_writer_first_and_unchanged s1 _ _)).
      vm_compute; reflexivity.
    + vm_compute; reflexivity.
  - eexists. eexists. split; [vm_compute; reflexivity|]. split.
    + eapply (proj1 (proj2 (C6_writer_first_and_unchanged s2 _ _))).
      vm_compute; reflexivity.
    + vm_compute; reflexivity.
  - eexists. eexists. split; [vm_compute; reflexivity|]. split.
    + eapply (proj2 (proj2 (C6_writer_first_and_unchanged s3 _ _))).
      vm_compute; reflexivity.
    + vm_compute; reflexivity.
Defined.

(** C7: the fixer functions are total functions from text to text (no
    input makes them fail); text in which no pattern matches at any
    position comes back unchanged, the text in front of a match is copied
    character by character, and [process_file] then reports [False]
    without writing and without an error line. *)
Theorem C7_unrecognised_text_is_left_verbatim
    (FS : Type) (read_text : FS -> text -> Driver.outcome text)
    (write_text : FS -> text -> text -> FS * option text)
    (fs : FS) (path content : text) :
  ((forall r, In r [Phase2.pattern; Phase2.pattern2; Phase2.pattern3] ->
              Re.search r content = false) ->
   Phase2.fix_format_string_field_access content = content)
  /\ ((forall r, In r (map fst Remaining.patterns) ->
                 Re.search r content = false) ->
      Remaining.fix_format_string_field_access content = content
      /\ (read_text fs path = Driver.Ok content ->
          Driver.process_file_verbose read_text write_text
            Remaining.fix_format_string_field_access fs path
          = (false, fs, [])))
  /\ (forall r repl a b,
        (forall a1 a2, a = a1 ++ a2 -> a2 <> [] ->
                       Re.match_here r (a2 ++ b) = None) ->
        Re.sub r repl (a ++ b) = a ++ Re.sub r repl b).
Proof.
  split; [|split].
  - intros H. unfold Phase2.fix_format_string_field_access.
    rewrite (ReFacts.sub_no_match Phase2.pattern) by (apply H; simpl; auto).
    rewrite (ReFacts.sub_no_match Phase2.pattern2) by (apply H; simpl; auto).
    apply ReFacts.sub_no_match, H; simpl; auto.
  - intros H.
    assert (E : Remaining.fix_format_string_field_access content = content)
      by (apply Verbatim.apply_patterns_no_match; exact H).
    split; [exact E|].
    intros Hr. unfold Driver.process_file_verbose. rewrite Hr, E.
    rewrite (proj2 (text_eqb_eq content content) eq_refl). reflexivity.
  - intros. apply Verbatim.sub_prefix_verbatim; assumption.
Qed.

Lemma C7_unrecognised_text_witness :
  let content := Q "let s = format!(name); write!(f, x); println!('{}', a.b);" in
  let fs : Driver.memfs := [(s2l "x.rs", inr content)] in
  Phase2.fix_format_string_field_access content = content
  /\ Driver.process_file_verbose Driver.mem_read Driver.mem_write
       Remaining.fix_format_string_field_access fs (s2l "x.rs")
     = (false, fs, []).
Proof.
  intros content fs.
  destruct (C7_unrecognised_text_is_left_verbatim
              Driver.memfs Driver.mem_read Driver.mem_write fs (s2l "x.rs")
              content) as (H2 & HR & _).
  split.
  - apply H2. intros r Hr. simpl in Hr.
    destruct Hr as [<- | [<- | [<- | []]]]; vm_compute; reflexivity.
  - apply HR; [|vm_compute; reflexivity].
    intros r Hr. simpl in Hr.
    destruct Hr as [<- | [<- | [<- | [<- | [<- | []]]]]];
      vm_compute; reflexivity.
Defined.

(** C8: [process_file] of [fix_format_strings_advanced.py] writes the
    file only when the fixed text differs from the text read; a failure
    to read or to write is reported by the line
    [Error processing <path>: <cause>] and gives [False].  [main] hands
    every eligible file ([.rs] files outside the skipped directories), in
    the order of the walk, to [process_file], each from the file system
    left by the file before and whatever the outcome of the files before
    it, prints [Fixed: <path>] after each file written back, and ends
    with the number of files processed and the number of files written
    back. *)
Theorem C8_driver_writes_counts_and_continues
    (FS : Type) (read_text : FS -> text -> Driver.outcome text)
    (write_text : FS -> text -> text -> FS * option text) :
  let fix_text := Advanced.fix_format_strings in
  let process := Driver.process_file read_text write_text fix_text in
  (forall fs p,
      DriverSpec.processed FS read_text write_text fix_text fs p
        (process fs p))
  /\ (forall fs p cause,
        read_text fs p = Driver.Raise cause ->
        process fs p
        = (false, fs,
           [Driver.Printed
              (s2l "Error processing " ++ p ++ s2l ": " ++ cause)]))
  /\ (forall fs p content fs' cause,
        read_text fs p = Driver.Ok content ->
        fix_text content <> content ->
        write_text fs p (fix_text content) = (fs', Some cause) ->
        process fs p
        = (false, fs',
           [Driver.Printed
              (s2l "Error processing " ++ p ++ s2l ": " ++ cause)]))
  /\ (forall walk fs,
        let r := Driver.main read_text write_text fix_text walk fs in
        let ps := DriverSpec.eligible walk in
        exists evs n,
          DriverSpec.runs FS read_text write_text fix_text fs ps
            (Driver.files r) evs n
          /\ Driver.trace r
             = evs
               ++ [ Driver.Printed
                      ([10%N] ++ s2l "Processed " ++ Driver.decimal (length ps)
                       ++ s2l " files, fixed " ++ Driver.decimal n
                       ++ s2l " files");
                    Driver.Printed
                      (s2l "Run 'cargo fmt' to ensure proper formatting") ]
          /\ Driver.total_count r = length ps
          /\ Driver.fixed_count r = n
          /\ n = DriverSpec.wrote_count evs
          /\ forall p, In p ps ->
               exists fs0 ok fs1 e pre post,
                 process fs0 p = (ok, fs1, e)
                 /\ evs = pre ++ e ++ DriverSpec.fixed_line ok p ++ post).
Proof.
  intros fix_text process. split; [|split; [|split]].
  - intros fs p. apply DriverFacts.process_file_cases.
  - intros fs p cause Hr. unfold process, Driver.process_file.
    rewrite Hr. reflexivity.
  - intros fs p content fs' cause Hr Hne Hw.
    unfold process, Driver.process_file. rewrite Hr.
    destruct (text_eqb (fix_text content) content) eqn:E.
    + apply text_eqb_eq in E. contradiction.
    + cbn [negb]. rewrite Hw. reflexivity.
  - intros walk fs r ps.
    destruct (DriverFacts.walk_runs FS read_text write_text fix_text walk
                {| Driver.total_count := 0; Driver.fixed_count := 0;
                   Driver.files := fs; Driver.trace := [] |})
      as (evs & n & Hr & Ht & Hc & Hf).
    cbn [Driver.total_count Driver.fixed_count Driver.trace Driver.files
         app Nat.add] in Hr, Ht, Hc, Hf.
    exists evs, n. subst r ps. unfold Driver.main.
    cbn [Driver.total_count Driver.fixed_count Driver.trace Driver.files].
    rewrite Ht, Hc, Hf. split; [exact Hr|]. split; [reflexivity|].
    split; [reflexivity|]. split; [reflexivity|]. split.
    + symmetry. eapply DriverFacts.runs_wrote; eauto.
    + intros p Hin.
      destruct (DriverFacts.runs_each FS read_text write_text fix_text
                  _ _ _ _ _ p Hr Hin)
        as (fs0 & ok & fs1 & e & pre & post & Hp & E).
      exists fs0, ok, fs1, e, pre, post. split; [|exact E].
      eapply DriverFacts.processed_is_result; eauto.
Qed.

Lemma C8_driver_witness :
  let main :=
    Driver.main Driver.mem_read Driver.mem_write Advanced.fix_format_strings
      DriverExample.tree DriverExample.disk in
  Driver.process_file Driver.mem_read Driver.mem_write
    Advanced.fix_format_strings DriverExample.disk (s2l "./b.rs")
  = (false, DriverExample.disk,
     [Driver.Printed
        (s2l "Error processing ./b.rs: [Errno 13] Permission denied: './b.rs'")])
  /\ Driver.total_count main = 3
  /\ Driver.fixed_count main = 1
  /\ Driver.trace main
     = [ Driver.Printed
           (s2l "Error processing ./b.rs: [Errno 13] Permission denied: './b.rs'");
         Driver.Wrote (s2l "./a.rs") (Q "format!('{x}')");
         Driver.Printed (s2l "Fixed: ./a.rs");
         Driver.Printed ([10%N] ++ s2l "Processed 3 files, fixed 1 files");
         Driver.Printed (s2l "Run 'cargo fmt' to ensure proper formatting") ].
Proof.
  intros main.
  destruct (C8_driver_writes_counts_and_continues
              Driver.memfs Driver.mem_read Driver.mem_write)
    as (_ & Hread & _ & Hmain).
  split.
  - assert (Hr : Driver.mem_read DriverExample.disk (s2l "./b.rs")
                 = Driver.Raise
                     (s2l "[Errno 13] Permission denied: './b.rs'"))
      by (vm_compute; reflexivity).
    rewrite (Hread _ _ _ Hr). vm_compute; reflexivity.
  - destruct (Hmain DriverExample.tree DriverExample.disk)
      as (evs & n & _ & Ht & Hc & Hf & Hn & _).
    fold main in Hc.
    split; [rewrite Hc; vm_compute; reflexivity|].
    split; vm_compute; reflexivity.
Defined.

(** C9, as stated, fails: a term is grouped under a heading only when
    its category, and its subcategory if it has one, are declared.  In
    the sample, [T3] names a subcategory that its category does not
    declare and [T4] a category that is not declared; neither is in the
    document, which does hold the headings and the other terms. *)
Theorem C9_term_outside_declared_groups :
  let v := VocabExample.sample in
  let doc := Vocab.generate_markdown Vocab.ascii_title v in
  In (VocabExample.mk_term "T3" "b" (Some "zz")) (Vocab.terms v)
  /\ In (VocabExample.mk_term "T4" "q" None) (Vocab.terms v)
  /\ Driver.contains doc (s2l "Term: T3") = false
  /\ Driver.contains doc (s2l "Term: T4") = false
  /\ Driver.contains doc (s2l "## Bee") = true
  /\ Driver.contains doc (s2l "#### Term: T2") = true.
Proof.
  intros v doc. split; [simpl; auto|]. split; [simpl; auto 6|].
  repeat split; vm_compute; reflexivity.
Qed.

(** C9, amended: the text of the document is, line by line, the title
    and the link back to the index, then for every category of the
    input, in the order of the list [categories], the section of that
    category (its heading, then its declared subcategories in their order,
    each with its heading and its terms, then the terms without
    subcategory), then the closing note; every term in it is the block
    of labelled fields [block], in this fixed order.  A term whose
    category and subcategory are declared has its block in the section
    of its category, after the heading of its subcategory if it has
    one. *)
Theorem C9_sections_in_declaration_order
    (title : text -> text) (v : Vocab.vocabulary) :
  Vocab.generate_markdown title v
  = Str.join Vocab.nl (VocabSpec.document title v)
  /\ forall t,
      In t (Vocab.terms v) -> VocabSpec.undeclared v t = false ->
      exists cat,
        In cat (Vocab.categories v)
        /\ Vocab.c_id cat = Vocab.t_category t
        /\ match Vocab.truthy_get (Vocab.t_subcategory t) with
           | Some sid =>
               exists sc pre mid post,
                 Vocab.s_id sc = sid
                 /\ VocabSpec.section_of title (Vocab.terms v) cat
                    = VocabSpec.heading "##" (Vocab.c_name cat)
                        (Vocab.c_description cat)
                      ++ pre
                      ++ VocabSpec.heading "###" (Vocab.s_name sc)
                           (Vocab.s_description sc)
                      ++ mid ++ VocabSpec.block title (s2l "####") t ++ post
           | None =>
               exists pre post,
                 VocabSpec.section_of title (Vocab.terms v) cat
                 = VocabSpec.heading "##" (Vocab.c_name cat)
                     (Vocab.c_description cat)
                   ++ pre ++ VocabSpec.block title (s2l "###") t ++ post
           end.
Proof.
  split.
  - apply VocabFacts.generate_markdown_document.
  - apply VocabFacts.declared_term_in_section.
Qed.

Lemma C9_sections_witness :
  let v := VocabExample.sample in
  let t := VocabExample.mk_term "T2" "b" (Some "s1") in
  In t (Vocab.terms v)
  /\ VocabSpec.undeclared v t = false
  /\ Vocab.generate_markdown Vocab.ascii_title v
     = Str.join Vocab.nl (VocabSpec.document Vocab.ascii_title v)
  /\ exists cat pre post,
       In cat (Vocab.categories v)
       /\ VocabSpec.section_of Vocab.ascii_title (Vocab.terms v) cat
          = pre
            ++ [ s2l "#### Term: T2";
                 s2l "- **Category**: Entity";
                 s2l "- **Type**: Entity";
                 s2l "- **Definition**: No definition provided";
                 s2l "- **Relationships**:";
                 s2l "  * Is A: x, y";
                 s2l "- **Usage Context**: Not specified";
                 s2l "- **Code Reference**: TBD" ]
            ++ post.
Proof.
  intros v t.
  assert (Hin : In t (Vocab.terms v)) by (simpl; auto).
  assert (Hu : VocabSpec.undeclared v t = false) by (vm_compute; reflexivity).
  destruct (C9_sections_in_declaration_order Vocab.ascii_title v)
    as [Hdoc Hterm].
  split; [exact Hin|]. split; [exact Hu|]. split; [exact Hdoc|].
  destruct (Hterm t Hin Hu) as (cat & Hcat & _ & H).
  change (Vocab.truthy_get (Vocab.t_subcategory t)) with (Some (s2l "s1")) in H.
  destruct H as (sc & pre & mid & post & _ & E).
  exists cat, (VocabSpec.heading "##" (Vocab.c_name cat)
                 (Vocab.c_description cat)
               ++ pre
               ++ VocabSpec.heading "###" (Vocab.s_name sc)
                    (Vocab.s_description sc) ++ mid), post.
  split; [exact Hcat|]. rewrite E, <- !app_assoc. reflexivity.
Defined.

(** C10: a term whose category is not declared, or whose subcategory is
    not declared among the subcategories of its category, has no block in
    the document, while the count of terms reported by [main] is the
    length of the whole list of terms, this term included. *)
Theorem C10_undeclared_term_omitted (v : Vocab.vocabulary) (t : Vocab.term) :
  In t (Vocab.terms v) ->
  VocabSpec.undeclared v t = true ->
  (forall level, ~ In (Vocab.TermBlock t level) (Vocab.markdown_lines v))
  /\ Vocab.processed_line v
     = s2l "Processed " ++ Driver.decimal (length (Vocab.terms v))
       ++ s2l " terms across "
       ++ Driver.decimal (length (Vocab.categories v)) ++ s2l " categories"
  /\ 1 <= length (Vocab.terms v).
Proof.
  intros Hin Hu. split; [|split].
  - intros level H. apply VocabFacts.block_needs_declaration in H. congruence.
  - reflexivity.
  - destruct (Vocab.terms v); [contradiction | simpl; lia].
Qed.

Lemma C10_undeclared_term_witness :
  let v := VocabExample.sample in
  let t := VocabExample.mk_term "T3" "b" (Some "zz") in
  In t (Vocab.terms v)
  /\ VocabSpec.undeclared v t = true
  /\ (forall level, ~ In (Vocab.TermBlock t level) (Vocab.markdown_lines v))
  /\ Vocab.processed_line v = s2l "Processed 5 terms across 2 categories".
Proof.
  intros v t.
  assert (Hin : In t (Vocab.terms v)) by (simpl; auto).
  assert (Hu : VocabSpec.undeclared v t = true) by (vm_compute; reflexivity).
  destruct (C10_undeclared_term_omitted v t Hin Hu) as (H1 & H2 & _).
  repeat split; auto.
Defined.

(** * Part V: further properties of the code *)

(** ** Text without the macro names *)

Module Frame.
Import Re ReSem ReFacts.

Lemma Sem_lit w u c c1 : Sem (lit w) u c c1 -> u = w /\ c1 = c.
Proof.
  revert u c c1; induction w as [|a w IH]; intros u c c1 H; simpl in H.
  - inversion H; auto.
  - inversion H as [| | |r1 r2 w1 w2 c0 c2 c3 H1 H2| | |]; subst.
    inversion H1; subst. apply IH in H2 as [-> ->]. auto.
Qed.

(** A pattern that starts with a literal only matches where the literal
    stands. *)
Lemma match_starts_with_lit w r s m rest :
  match_here (Seq (lit w) r) s = Some (m, rest) -> Str.startswith s w = true.
Proof.
  intros H. apply match_here_sound in H as [-> H].
  inversion H as [| | |r1 r2 w1 w2 c0 c2 c3 H1 H2| | |]; subst.
  apply Sem_lit in H1 as [-> _]. rewrite <- app_assoc.
  apply VocabFacts.startswith_app.
Qed.

Lemma contains_suffix a b w :
  Driver.contains (a ++ b) w = false -> Str.startswith b w = false.
Proof.
  induction a as [|x a IH]; simpl.
  - destruct b; simpl; intros H; apply orb_false_iff in H as [H _]; exact H.
  - intros H. apply orb_false_iff in H as [_ H]. auto.
Qed.

Lemma no_lit_no_search w r s :
  Driver.contains s w = false -> search (Seq (lit w) r) s = false.
Proof.
  intros Hc. apply search_false_iff. intros a b ->.
  destruct (match_here _ b) as [[m rest]|] eqn:E; [|reflexivity].
  apply match_starts_with_lit in E. apply contains_suffix in Hc. congruence.
Qed.

Lemma startswith_tail s x w :
  Str.startswith s (x :: w) = true ->
  exists s', s = x :: s' /\ Str.startswith s' w = true.
Proof.
  destruct s as [|y s]; simpl; [discriminate|].
  intros [E H]%andb_true_iff. apply N.eqb_eq in E. subst. eauto.
Qed.

Lemma contains_here s w : Str.startswith s w = true -> Driver.contains s w = true.
Proof. destruct s; simpl; intros ->; reflexivity. Qed.

(** A text that holds [x :: w] holds [w]. *)
Lemma contains_tail s x w :
  Driver.contains s (x :: w) = true -> Driver.contains s w = true.
Proof.
  induction s as [|y s IH]; cbn [Driver.contains].
  - simpl. discriminate.
  - intros [H | H]%orb_true_iff.
    + apply startswith_tail in H as (s' & [= -> ->] & H).
      apply orb_true_iff. right. apply contains_here, H.
    + apply orb_true_iff. right. auto.
Qed.

Lemma apply_patterns_untouched ps s :
  Forall (fun pr => exists w r, fst pr = Seq (lit w) r
                                /\ Driver.contains s w = false) ps ->
  Final.apply_patterns ps s = s.
Proof.
  intros H. apply Verbatim.apply_patterns_no_match.
  intros r Hr. apply in_map_iff in Hr as (pr & <- & Hpr).
  rewrite List.Forall_forall in H. destruct (H pr Hpr) as (w & r' & -> & Hc).
  apply no_lit_no_search, Hc.
Qed.

End Frame.

(** X1: a text that holds none of the names [format!], [println!] and
    [write!] is returned unchanged by each of the four fixer functions. *)
Theorem X1_text_without_macros_untouched (s : text) :
  Driver.contains s (s2l "format!") = false ->
  Driver.contains s (s2l "println!") = false ->
  Driver.contains s (s2l "write!") = false ->
  Phase2.fix_format_string_field_access s = s
  /\ Final.fix_format_string_field_access s = s
  /\ Remaining.fix_format_string_field_access s = s
  /\ Advanced.fix_format_strings s = s.
Proof.
  intros Hf Hp Hw.
  assert (He : Driver.contains s (s2l "eprintln!") = false).
  { destruct (Driver.contains s (s2l "eprintln!")) eqn:E; [|reflexivity].
    apply Frame.contains_tail in E. cbn in E, Hp. congruence. }
  repeat split.
  - unfold Phase2.fix_format_string_field_access.
    rewrite (ReFacts.sub_no_match Phase2.pattern)
      by (apply (Frame.no_lit_no_search (s2l "format!")), Hf).
    rewrite (ReFacts.sub_no_match Phase2.pattern2)
      by (apply (Frame.no_lit_no_search (s2l "format!")), Hf).
    apply ReFacts.sub_no_match, (Frame.no_lit_no_search (s2l "write!")), Hw.
  - apply Frame.apply_patterns_untouched.
    repeat (constructor;
            [eexists _, _; split; [reflexivity | assumption]|]).
    constructor.
  - apply Frame.apply_patterns_untouched.
    repeat (constructor;
            [eexists _, _; split; [reflexivity | assumption]|]).
    constructor.
  - unfold Advanced.fix_format_strings.
    rewrite (ReFacts.sub_no_match (Advanced.call_pattern "format!"))
      by (apply (Frame.no_lit_no_search (s2l "format!")), Hf).
    rewrite (ReFacts.sub_no_match (Advanced.call_pattern "println!"))
      by (apply (Frame.no_lit_no_search (s2l "println!")), Hp).
    rewrite (ReFacts.sub_no_match (Advanced.call_pattern "eprintln!"))
      by (apply (Frame.no_lit_no_search (s2l "eprintln!")), He).
    apply ReFacts.sub_no_match, (Frame.no_lit_no_search (s2l "write!")), Hw.
Qed.

Lemma X1_text_without_macros_witness :
  let s := Q "fn area(w: u32, h: u32) -> u32 { w * h } // 'plain'" in
  Driver.contains s (s2l "format!") = false
  /\ Advanced.fix_format_strings s = s
  /\ Final.fix_format_string_field_access s = s.
Proof.
  intros s.
  assert (Hf : Driver.contains s (s2l "format!") = false)
    by (vm_compute; reflexivity).
  assert (Hp : Driver.contains s (s2l "println!") = false)
    by (vm_compute; reflexivity).
  assert (Hw : Driver.contains s (s2l "write!") = false)
    by (vm_compute; reflexivity).
  destruct (X1_text_without_macros_untouched s Hf Hp Hw) as (_ & H2 & _ & H4).
  split; [exact Hf|]. split; [exact H4 | exact H2].
Defined.

(** ** The matcher along the path it takes *)

Module Forward.
Import Re ReSem ReFacts.

Section Along.
Context {R : Type}.
Implicit Types (k : text -> option R) (K : text -> caps -> option R) (x : R).

Lemma rep_min_exact p k w s :
  forallb p w = true -> rep_min p (length w) k (w ++ s) = k s.
Proof.
  induction w as [|a w IH]; simpl; auto.
  intros [-> Hw]%andb_true_iff. auto.
Qed.

Lemma rep_greedy_stop p k s : stop p s = true -> rep_greedy p k s = k s.
Proof.
  destruct s as [|y s]; simpl; auto.
  intros H. apply negb_true_iff in H. rewrite H. reflexivity.
Qed.

(** Greedy repetition takes the whole run when what follows succeeds
    there. *)
Lemma rep_greedy_max p k w s x :
  forallb p w = true -> stop p s = true -> k s = Some x ->
  rep_greedy p k (w ++ s) = Some x.
Proof.
  intros Hw Hs Hk. induction w as [|a w IH]; simpl.
  - rewrite rep_greedy_stop; auto.
  - simpl in Hw. apply andb_true_iff in Hw as [-> Hw].
    rewrite IH by auto. reflexivity.
Qed.

(** Lazy repetition stops at the first place where what follows
    succeeds. *)
Lemma rep_lazy_first p k w s x :
  forallb p w = true ->
  (forall w1 w2, w = w1 ++ w2 -> w2 <> [] -> k (w2 ++ s) = None) ->
  k s = Some x ->
  rep_lazy p k (w ++ s) = Some x.
Proof.
  intros Hw Hf Hk. induction w as [|a w IH].
  - simpl. destruct s; simpl; rewrite Hk; reflexivity.
  - cbn [app rep_lazy].
    assert (H0 : k (a :: w ++ s) = None)
      by (apply (Hf [] (a :: w)); [reflexivity | discriminate]).
    rewrite H0. cbn [orelse].
    simpl in Hw. apply andb_true_iff in Hw as [-> Hw].
    apply IH; auto. intros w1 w2 -> Hne. apply (Hf (a :: w1) w2); auto.
Qed.

Lemma rep_greedy_range p k w s x :
  forallb p w = true -> stop p s = true ->
  (forall w1 w2, w = w1 ++ w2 -> k (w2 ++ s) = None \/ k (w2 ++ s) = Some x) ->
  rep_greedy p k (w ++ s) = None \/ rep_greedy p k (w ++ s) = Some x.
Proof.
  intros Hw Hs. induction w as [|a w IH]; intros H.
  - simpl. rewrite rep_greedy_stop by auto. apply (H [] []); reflexivity.
  - simpl in Hw. apply andb_true_iff in Hw as [Ha Hw].
    cbn [app rep_greedy]. rewrite Ha.
    assert (H0 := H [] (a :: w) eq_refl). cbn [app] in H0.
    destruct IH as [-> | ->]; simpl; auto.
    intros w1 w2 ->. apply (H (a :: w1) w2); reflexivity.
Qed.

(** When what follows gives the same result wherever it succeeds, greedy
    repetition gives that result if it succeeds somewhere in the run. *)
Lemma rep_greedy_any p k w s x :
  forallb p w = true -> stop p s = true ->
  (forall w1 w2, w = w1 ++ w2 -> k (w2 ++ s) = None \/ k (w2 ++ s) = Some x) ->
  (exists w1 w2, w = w1 ++ w2 /\ k (w2 ++ s) = Some x) ->
  rep_greedy p k (w ++ s) = Some x.
Proof.
  intros Hw Hs. induction w as [|a w IH]; intros Hr (w1 & w2 & E & Hk).
  - symmetry in E. apply app_eq_nil in E as [-> ->].
    simpl. rewrite rep_greedy_stop; auto.
  - simpl in Hw. apply andb_true_iff in Hw as [Ha Hw].
    cbn [app rep_greedy]. rewrite Ha.
    assert (Hr' : forall w1 w2, w = w1 ++ w2 ->
                                k (w2 ++ s) = None \/ k (w2 ++ s) = Some x).
    { intros v1 v2 ->. apply (Hr (a :: v1) v2). reflexivity. }
    destruct w1 as [|b w1]; simpl in E.
    + subst w2. cbn [app] in Hk.
      destruct (rep_greedy_range p k w s x Hw Hs Hr') as [-> | ->];
        simpl; auto.
    + injection E as -> ->. rewrite IH; eauto.
Qed.

Lemma exec_lit l K s c : exec (lit l) K (l ++ s) c = K s c.
Proof.
  induction l as [|a l IH]; simpl; auto.
  rewrite N.eqb_refl. apply IH.
Qed.

Lemma exec_chr a K s c : exec (Chr a) K (a :: s) c = K s c.
Proof. simpl. rewrite N.eqb_refl. reflexivity. Qed.

Lemma exec_chr_fail a K y s c : y <> a -> exec (Chr a) K (y :: s) c = None.
Proof.
  intros H. simpl. apply N.eqb_neq in H. rewrite H. reflexivity.
Qed.

Lemma exec_greedy lo p K w s c x :
  lo <= length w -> forallb p w = true -> stop p s = true ->
  K s c = Some x ->
  exec (Rep true lo p) K (w ++ s) c = Some x.
Proof.
  intros Hlo Hw Hs Hk. cbn [exec].
  rewrite <- (firstn_skipn lo w), <- app_assoc.
  rewrite <- (firstn_skipn lo w), forallb_app in Hw.
  apply andb_true_iff in Hw as [H1 H2].
  replace lo with (length (firstn lo w)) at 1
    by (rewrite length_firstn; lia).
  rewrite rep_min_exact by assumption.
  apply rep_greedy_max; auto.
Qed.

Lemma exec_lazy p K w s c x :
  forallb p w = true ->
  (forall w1 w2, w = w1 ++ w2 -> w2 <> [] -> K (w2 ++ s) c = None) ->
  K s c = Some x ->
  exec (Rep false 0 p) K (w ++ s) c = Some x.
Proof.
  intros Hw Hf Hk. cbn [exec rep_min]. apply rep_lazy_first; auto.
Qed.

Lemma exec_grp n r K s c :
  exec (Grp n r) K s c
  = exec r (fun s1 c1 => K s1 ((n, firstn (length s - length s1) s) :: c1)) s c.
Proof. reflexivity. Qed.

(** The group [([^}]+\.[^}]+)] in front of a close marker: whichever dot
    the matcher splits at, the group is the whole expression. *)
Lemma exec_field_group n K e1 e2 rest c x :
  Rewrites.is_field_expr e1 e2 ->
  K ("}"%char :: rest) ((n, Rewrites.field_expr e1 e2) :: c) = Some x ->
  exec (Grp n (seq [some_not ["}"%char]; Chr "."%char; some_not ["}"%char]])) K
    (Rewrites.field_expr e1 e2 ++ "}"%char :: rest) c
  = Some x.
Proof.
  intros (Hn1 & Hn2 & H1 & H2) HK.
  set (P := none_of ["}"%char]) in *.
  set (s0 := Rewrites.field_expr e1 e2 ++ "}"%char :: rest).
  rewrite exec_grp. fold s0.
  set (K' := fun (s1 : text) (c1 : caps) =>
               K s1 ((n, firstn (length s0 - length s1) s0) :: c1)).
  assert (HK' : K' ("}"%char :: rest) c = Some x).
  { unfold K', s0. rewrite firstn_app_rest. exact HK. }
  assert (Hstop : stop P ("}"%char :: rest) = true) by reflexivity.
  (* what follows the first repetition, at a position inside the run *)
  set (k1 := exec (Seq (Chr "."%char) (Seq (some_not ["}"%char]) Eps)) K').
  assert (Hdot : forall w3, w3 <> [] -> forallb P w3 = true ->
                 k1 ("."%char :: w3 ++ "}"%char :: rest) c = Some x).
  { intros w3 Hne Hw3. unfold k1. cbn [exec]. rewrite N.eqb_refl.
    change (exec (some_not ["}"%char])
              (fun s1 c1 => K' s1 c1) (w3 ++ "}"%char :: rest) c = Some x).
    apply exec_greedy; auto.
    destruct w3; [congruence | simpl; lia]. }
  assert (Hrange : forall w2, forallb P w2 = true ->
                   k1 (w2 ++ "}"%char :: rest) c = None
                   \/ k1 (w2 ++ "}"%char :: rest) c = Some x).
  { intros [|y w3] Hw2.
    - left. reflexivity.
    - simpl in Hw2. apply andb_true_iff in Hw2 as [_ Hw3].
      destruct (N.eqb y "."%char) eqn:Ey.
      + apply N.eqb_eq in Ey. subst y.
        destruct w3 as [|z w4]; [left; reflexivity|].
        right. apply Hdot; [discriminate | exact Hw3].
      + left. unfold k1. cbn [exec app]. rewrite Ey. reflexivity. }
  destruct e1 as [|a e1]; [congruence|].
  simpl in H1. apply andb_true_iff in H1 as [Ha H1].
  change (rep_min P 1 (rep_greedy P (fun s1 => k1 s1 c))
            (a :: (e1 ++ s2l "." ++ e2) ++ "}"%char :: rest) = Some x).
  cbn [rep_min]. rewrite Ha.
  apply rep_greedy_any; auto.
  - rewrite forallb_app, H1. simpl. exact H2.
  - intros w1 w2 E. apply Hrange.
    assert (Hall : forallb P (e1 ++ s2l "." ++ e2) = true)
      by (rewrite forallb_app, H1; simpl; exact H2).
    rewrite E, forallb_app in Hall. apply andb_true_iff in Hall as [_ Hall].
    exact Hall.
  - exists e1, (s2l "." ++ e2). split; [reflexivity|].
    apply Hdot; auto.
Qed.

End Along.

End Forward.

(** ** Calls that the phase-2 patterns recognise *)

Module CallSites.
Import Re ReSem ReFacts Rewrites Forward.

Lemma exec_seq {R} r1 r2 (K : text -> caps -> option R) s c :
  exec (Seq r1 r2) K s c = exec r1 (exec r2 K) s c.
Proof. reflexivity. Qed.

Lemma exec_lazy_group {R} n p (K : text -> caps -> option R) w s c x :
  forallb p w = true ->
  (forall w1 w2 c', w = w1 ++ w2 -> w2 <> [] -> K (w2 ++ s) c' = None) ->
  K s ((n, w) :: c) = Some x ->
  exec (Grp n (Rep false 0 p)) K (w ++ s) c = Some x.
Proof.
  intros Hw Hf Hk. rewrite exec_grp. apply exec_lazy; auto.
  - intros w1 w2 E Hne. apply (Hf w1); auto.
  - rewrite firstn_app_rest. exact Hk.
Qed.

Lemma exec_greedy_group {R} n lo p (K : text -> caps -> option R) w s c x :
  lo <= length w -> forallb p w = true -> stop p s = true ->
  K s ((n, w) :: c) = Some x ->
  exec (Grp n (Rep true lo p)) K (w ++ s) c = Some x.
Proof.
  intros Hlo Hw Hs Hk. rewrite exec_grp. apply exec_greedy; auto.
  rewrite firstn_app_rest. exact Hk.
Qed.

Lemma exec_ws {R} (K : text -> caps -> option R) w s c x :
  blank w -> stop is_space s = true -> K s c = Some x ->
  exec ws K (w ++ s) c = Some x.
Proof. intros Hw Hs Hk. apply exec_greedy; auto. lia. Qed.

(** In a template text with bare placeholders only, an open marker is
    followed by the close marker. *)
Lemma bare_template_open w1 w3 :
  bare_template (w1 ++ "{"%char :: w3) = true ->
  exists w4, w3 = "}"%char :: w4.
Proof.
  induction w1 as [|a w1 IH]; cbn [app bare_template].
  - rewrite N.eqb_refl. destruct w3 as [|d w4]; [discriminate|].
    intros [E _]%andb_true_iff. apply N.eqb_eq in E. subst. eauto.
  - destruct (N.eqb a "{"%char); [intros [_ H]%andb_true_iff | intros H]; auto.
Qed.

Lemma tpl_app prefix expr suffix t r :
  tpl prefix expr suffix t ++ r = tpl prefix expr suffix (t ++ r).
Proof.
  unfold tpl. cbn [app]. f_equal.
  repeat (rewrite <- app_assoc; cbn [app]). reflexivity.
Qed.

(** The quoted template [prefix{e1.e2}suffix], where the prefix holds only
    bare placeholders: the three groups are the prefix, the expression and
    the suffix, whatever regular expression [r] follows it. *)
Lemma exec_template {R} n1 n2 n3 r (K : text -> caps -> option R)
    prefix e1 e2 suffix tail c x :
  quote_free prefix -> bare_template prefix = true ->
  is_field_expr e1 e2 -> quote_free suffix ->
  exec r K tail ((n3, suffix) :: (n2, field_expr e1 e2) :: (n1, prefix) :: c)
  = Some x ->
  exec (Seq (Chr dq)
         (Seq (Grp n1 (lazy_not [dq]))
           (Seq (Chr "{"%char)
             (Seq (Grp n2 (seq [some_not ["}"%char]; Chr "."%char;
                                some_not ["}"%char]]))
               (Seq (Chr "}"%char)
                 (Seq (Grp n3 (lazy_not [dq]))
                   (Seq (Chr dq) r)))))))
       K (tpl prefix (field_expr e1 e2) suffix tail) c
  = Some x.
Proof.
  intros Hp Hb He Hs Hk.
  change (tpl prefix (field_expr e1 e2) suffix tail)
    with (dq :: prefix ++ "{"%char :: field_expr e1 e2
             ++ "}"%char :: suffix ++ dq :: tail).
  rewrite exec_seq, exec_chr, exec_seq.
  apply exec_lazy_group; [exact Hp| |].
  - intros w1 [|y w3] c' E Hne; [congruence|]. cbn [app].
    destruct (N.eqb y "{"%char) eqn:Ey.
    + apply N.eqb_eq in Ey. subst y prefix.
      apply bare_template_open in Hb as [w4 ->]. reflexivity.
    + rewrite exec_seq. apply exec_chr_fail.
      intros ->. rewrite N.eqb_refl in Ey. discriminate.
  - rewrite exec_seq, exec_chr, exec_seq.
    apply exec_field_group; [exact He|].
    rewrite exec_seq, exec_chr, exec_seq.
    apply exec_lazy_group; [exact Hs| |].
    + intros w1 [|y w3] c' E Hne; [congruence|]. cbn [app].
      rewrite exec_seq. apply exec_chr_fail. intros ->.
      unfold quote_free in Hs. rewrite E, forallb_app in Hs.
      apply andb_true_iff in Hs as [_ Hs]. simpl in Hs. discriminate.
    + rewrite exec_seq, exec_chr. exact Hk.
Qed.

(** [pattern] at a [format!] call without arguments. *)
Lemma pattern_matches w1 w2 w3 prefix e1 e2 suffix rest :
  blank w1 -> blank w2 -> blank w3 ->
  quote_free prefix -> bare_template prefix = true ->
  is_field_expr e1 e2 -> quote_free suffix ->
  let call := s2l "format!" ++ w1 ++ s2l "(" ++ w2
                ++ tpl prefix (field_expr e1 e2) suffix (w3 ++ s2l ")") in
  match_here Phase2.pattern (call ++ rest)
  = Some ({| whole := call;
             groups := [(3, suffix); (2, field_expr e1 e2); (1, prefix)] |},
          rest).
Proof.
  intros B1 B2 B3 Hp Hb He Hs call. unfold match_here.
  match goal with |- exec _ ?K _ _ = _ => set (K0 := K) end.
  assert (HK0 : forall c, K0 rest c
                          = Some ({| whole := call; groups := c |}, rest)).
  { intros c. unfold K0. rewrite firstn_app_rest. reflexivity. }
  clearbody K0.
  replace (call ++ rest)
    with (s2l "format!" ++ w1 ++ "("%char :: w2
            ++ tpl prefix (field_expr e1 e2) suffix
                 (w3 ++ ")"%char :: rest)).
  2:{ unfold call. rewrite <- !app_assoc. text_literals; cbn [app].
      rewrite tpl_app, <- ?app_assoc. reflexivity. }
  unfold Phase2.pattern. cbn [seq]. unfold L.
  rewrite exec_seq, exec_lit, exec_seq.
  apply exec_ws; [exact B1 | reflexivity|].
  rewrite exec_seq, exec_chr, exec_seq.
  apply exec_ws; [exact B2 | reflexivity|].
  apply exec_template; auto.
  rewrite exec_seq. apply exec_ws; [exact B3 | reflexivity|].
  rewrite exec_seq, exec_chr. apply HK0.
Qed.

Lemma stop_app p w s : w <> [] -> stop p w = true -> stop p (w ++ s) = true.
Proof. destruct w; [congruence | auto]. Qed.

(** [pattern2] at a [format!] call with explicit arguments. *)
Lemma pattern2_matches w1 w2 w3 w4 prefix e1 e2 suffix other_args rest :
  blank w1 -> blank w2 -> blank w3 -> blank w4 ->
  quote_free prefix -> bare_template prefix = true ->
  is_field_expr e1 e2 -> quote_free suffix ->
  other_args <> [] -> stop is_space other_args = true ->
  forallb (none_of [")"%char]) other_args = true ->
  let call := s2l "format!" ++ w1 ++ s2l "(" ++ w2
                ++ tpl prefix (field_expr e1 e2) suffix
                     (w3 ++ s2l "," ++ w4 ++ other_args ++ s2l ")") in
  match_here Phase2.pattern2 (call ++ rest)
  = Some ({| whole := call;
             groups := [(4, other_args); (3, suffix);
                        (2, field_expr e1 e2); (1, prefix)] |},
          rest).
Proof.
  intros B1 B2 B3 B4 Hp Hb He Hs Hne Hst Ho call. unfold match_here.
  match goal with |- exec _ ?K _ _ = _ => set (K0 := K) end.
  assert (HK0 : forall c, K0 rest c
                          = Some ({| whole := call; groups := c |}, rest)).
  { intros c. unfold K0. rewrite firstn_app_rest. reflexivity. }
  clearbody K0.
  replace (call ++ rest)
    with (s2l "format!" ++ w1 ++ "("%char :: w2
            ++ tpl prefix (field_expr e1 e2) suffix
                 (w3 ++ ","%char :: w4 ++ other_args ++ ")"%char :: rest)).
  2:{ unfold call. rewrite <- !app_assoc. text_literals; cbn [app].
      rewrite tpl_app, <- ?app_assoc. cbn [app].
      rewrite <- ?app_assoc. reflexivity. }
  unfold Phase2.pattern2. cbn [seq]. unfold L.
  rewrite exec_seq, exec_lit, exec_seq.
  apply exec_ws; [exact B1 | reflexivity|].
  rewrite exec_seq, exec_chr, exec_seq.
  apply exec_ws; [exact B2 | reflexivity|].
  apply exec_template; auto.
  rewrite exec_seq. apply exec_ws; [exact B3 | reflexivity|].
  rewrite exec_seq, exec_chr, exec_seq.
  apply exec_ws; [exact B4 | apply stop_app; assumption|].
  rewrite exec_seq. apply exec_greedy_group; auto.
  - destruct other_args; [congruence | simpl; lia].
  - rewrite exec_seq, exec_chr. apply HK0.
Qed.

(** [pattern3] at a [write!] call. *)
Lemma pattern3_matches w1 w2 writer w4 w5 prefix e1 e2 suffix rest :
  blank w1 -> blank w2 -> blank w4 -> blank w5 ->
  writer <> [] -> stop is_space writer = true ->
  forallb (none_of [","%char]) writer = true ->
  quote_free prefix -> bare_template prefix = true ->
  is_field_expr e1 e2 -> quote_free suffix ->
  let call := s2l "write!" ++ w1 ++ s2l "(" ++ w2 ++ writer ++ s2l ","
                ++ w4 ++ tpl prefix (field_expr e1 e2) suffix
                           (w5 ++ s2l ")") in
  match_here Phase2.pattern3 (call ++ rest)
  = Some ({| whole := call;
             groups := [(4, suffix); (3, field_expr e1 e2); (2, prefix);
                        (1, writer)] |},
          rest).
Proof.
  intros B1 B2 B4 B5 Hne Hst Hw Hp Hb He Hs call. unfold match_here.
  match goal with |- exec _ ?K _ _ = _ => set (K0 := K) end.
  assert (HK0 : forall c, K0 rest c
                          = Some ({| whole := call; groups := c |}, rest)).
  { intros c. unfold K0. rewrite firstn_app_rest. reflexivity. }
  clearbody K0.
  replace (call ++ rest)
    with (s2l "write!" ++ w1 ++ "("%char :: w2 ++ writer ++ ","%char :: w4
            ++ tpl prefix (field_expr e1 e2) suffix
                 (w5 ++ ")"%char :: rest)).
  2:{ unfold call. rewrite <- !app_assoc. text_literals; cbn [app].
      rewrite <- ?app_assoc. cbn [app].
      rewrite tpl_app, <- ?app_assoc. reflexivity. }
  unfold Phase2.pattern3. cbn [seq]. unfold L.
  rewrite exec_seq, exec_lit, exec_seq.
  apply exec_ws; [exact B1 | reflexivity|].
  rewrite exec_seq, exec_chr, exec_seq.
  apply exec_ws; [exact B2 | apply stop_app; assumption|].
  rewrite exec_seq. apply exec_greedy_group; auto.
  { destruct writer; [congruence | simpl; lia]. }
  rewrite exec_seq, exec_chr, exec_seq.
  apply exec_ws; [exact B4 | reflexivity|].
  apply exec_template; auto.
  rewrite exec_seq. apply exec_ws; [exact B5 | reflexivity|].
  rewrite exec_seq, exec_chr. apply HK0.
Qed.

(** [only_bare] from any state gives [only_bare] from the initial one. *)
Lemma only_bare_mono a i a' i' s :
  only_bare a i s = true ->
  (a' = true -> a = true) -> (i' = true -> i = true) ->
  only_bare a' i' s = true.
Proof.
  revert a i a' i'. induction s as [|c s IH]; intros a i a' i' H Ha Hi;
    [reflexivity|].
  cbn [only_bare] in *.
  destruct (N.eqb c dq); [eapply IH; eauto; discriminate|].
  destruct (is_space c); [eapply IH; eauto|].
  destruct (N.eqb c "("%char || N.eqb c ","%char); [eapply IH; eauto|].
  destruct (N.eqb c "{"%char); cbn [andb] in *.
  - destruct i'.
    + rewrite (Hi eq_refl) in H. apply andb_true_iff in H as [H1 H2].
      rewrite H1. cbn [andb]. eapply IH; eauto.
    + destruct i.
      * apply andb_true_iff in H as [_ H]. eapply IH; eauto; discriminate.
      * eapply IH; eauto.
  - eapply IH; eauto.
Qed.

Lemma only_bare_rest out rest :
  only_bare false false (out ++ rest) = true ->
  only_bare false false rest = true.
Proof.
  intros H. apply Bare.only_bare_app in H as (a & i & H).
  eapply only_bare_mono; eauto; discriminate.
Qed.

(** After a rewrite whose result holds only bare placeholders, the three
    substitutions of phase 2 have nothing more to do. *)
Lemma phase2_done r repl out rest s :
  In r [Phase2.pattern; Phase2.pattern2; Phase2.pattern3] ->
  sub r repl s = out ++ sub r repl rest ->
  only_bare false false (out ++ rest) = true ->
  sub r repl s = out ++ rest
  /\ forall r' repl',
       In r' [Phase2.pattern; Phase2.pattern2; Phase2.pattern3] ->
       sub r' repl' (out ++ rest) = out ++ rest.
Proof.
  intros Hr E Hb. split.
  - rewrite E. f_equal. apply sub_no_match, Bare.phase2_no_search; auto.
    eapply only_bare_rest; eauto.
  - intros r' repl' Hr'. apply sub_no_match, Bare.phase2_no_search; auto.
Qed.

End CallSites.

(** Concrete instances: the hypotheses of [H] are discharged by
    evaluation, and the instance speaks of the same texts as the goal. *)
Ltac by_eval :=
  repeat
    first [ lazymatch goal with |- _ <> _ => discriminate end
          | (vm_compute; reflexivity)
          | split
          | constructor ].

Ltac feed H :=
  repeat
    (cbv zeta in H;
     lazymatch type of H with
     | ?A -> _ =>
         let a := fresh in
         assert (a : A) by by_eval; specialize (H a); clear a
     end).

Ltac same_text a' a :=
  let E := fresh in
  assert (E : a' = a) by (vm_compute; reflexivity); rewrite ?E; clear E.

Ltac same_texts H :=
  lazymatch type of H with
  | _ ?a1 ?a2 = ?b =>
      lazymatch goal with
      | |- _ ?a1' ?a2' = ?b' =>
          same_text a1' a1; same_text a2' a2; same_text b' b; exact H
      end
  | _ ?a = ?b =>
      lazymatch goal with
      | |- _ ?a' = ?b' => same_text a' a; same_text b' b; exact H
      end
  end.

(** X2: a [format!] call without arguments whose template holds a field
    access [{e1.e2}], after bare placeholders only: [re.sub] with the
    first pattern of [fix_format_strings_phase2.py] replaces the call by
    the call with [{}] in the template and the expression as its argument;
    if the text then holds only bare placeholders, this is what
    [fix_format_string_field_access] returns. *)
Theorem X2_format_call_is_rewritten
    (w1 w2 w3 prefix e1 e2 suffix rest : text) :
  Rewrites.blank w1 -> Rewrites.blank w2 -> Rewrites.blank w3 ->
  Rewrites.quote_free prefix -> bare_template prefix = true ->
  Rewrites.is_field_expr e1 e2 -> Rewrites.quote_free suffix ->
  let call := s2l "format!" ++ w1 ++ s2l "(" ++ w2
                ++ Rewrites.tpl prefix (Rewrites.field_expr e1 e2) suffix
                     (w3 ++ s2l ")") in
  let out := Rewrites.call_out "format!" prefix suffix
               (Rewrites.field_expr e1 e2) in
  Re.sub Phase2.pattern Phase2.replacer (call ++ rest)
  = out ++ Re.sub Phase2.pattern Phase2.replacer rest
  /\ (only_bare false false (out ++ rest) = true ->
      Phase2.fix_format_string_field_access (call ++ rest) = out ++ rest).
Proof.
  intros B1 B2 B3 Hp Hb He Hs call out.
  assert (E : Re.sub Phase2.pattern Phase2.replacer (call ++ rest)
              = out ++ Re.sub Phase2.pattern Phase2.replacer rest).
  { rewrite (ReFacts.sub_match _ _ _ _ _
               (CallSites.pattern_matches w1 w2 w3 prefix e1 e2 suffix rest
                  B1 B2 B3 Hp Hb He Hs)).
    - reflexivity.
    - discriminate.
    - right. reflexivity. }
  split; [exact E|]. intros Hbare.
  destruct (CallSites.phase2_done _ _ _ _ _ (or_introl eq_refl) E Hbare)
    as [E1 E2].
  unfold Phase2.fix_format_string_field_access.
  rewrite E1, !E2; simpl; auto.
Qed.

Lemma X2_format_call_witness :
  Phase2.fix_format_string_field_access
    (Q "format!( 'id {}: {self.name} ok' ); next")
  = Q "format!('id {}: {} ok', self.name); next".
Proof.
  pose proof (X2_format_call_is_rewritten
                [] (s2l " ") (s2l " ") (s2l "id {}: ") (s2l "self")
                (s2l "name") (s2l " ok") (s2l "; next")) as H.
  feed H. destruct H as [_ H]. feed H.
  same_texts H.
Defined.

(** X3: a [format!] call with explicit arguments whose template holds a
    field access after bare placeholders only: [re.sub] with [pattern2] of
    [fix_format_strings_phase2.py] puts [{}] in the template and the
    expression in front of the explicit arguments, which are copied; if
    the first pattern finds nothing in the text and the result holds only
    bare placeholders, this is what [fix_format_string_field_access]
    returns. *)
Theorem X3_format_call_with_arguments_is_rewritten
    (w1 w2 w3 w4 prefix e1 e2 suffix other_args rest : text) :
  Rewrites.blank w1 -> Rewrites.blank w2 ->
  Rewrites.blank w3 -> Rewrites.blank w4 ->
  Rewrites.quote_free prefix -> bare_template prefix = true ->
  Rewrites.is_field_expr e1 e2 -> Rewrites.quote_free suffix ->
  other_args <> [] -> stop is_space other_args = true ->
  forallb (none_of [")"%char]) other_args = true ->
  let call := s2l "format!" ++ w1 ++ s2l "(" ++ w2
                ++ Rewrites.tpl prefix (Rewrites.field_expr e1 e2) suffix
                     (w3 ++ s2l "," ++ w4 ++ other_args ++ s2l ")") in
  let out := Rewrites.call_out "format!" prefix suffix
               (Rewrites.field_expr e1 e2 ++ s2l ", " ++ other_args) in
  Re.sub Phase2.pattern2 Phase2.replacer2 (call ++ rest)
  = out ++ Re.sub Phase2.pattern2 Phase2.replacer2 rest
  /\ (Re.search Phase2.pattern (call ++ rest) = false ->
      only_bare false false (out ++ rest) = true ->
      Phase2.fix_format_string_field_access (call ++ rest) = out ++ rest).
Proof.
  intros B1 B2 B3 B4 Hp Hb He Hs Hne Hst Ho call out.
  assert (E : Re.sub Phase2.pattern2 Phase2.replacer2 (call ++ rest)
              = out ++ Re.sub Phase2.pattern2 Phase2.replacer2 rest).
  { rewrite (ReFacts.sub_match _ _ _ _ _
               (CallSites.pattern2_matches w1 w2 w3 w4 prefix e1 e2 suffix
                  other_args rest B1 B2 B3 B4 Hp Hb He Hs Hne Hst Ho)).
    - f_equal. unfold Phase2.replacer2, Re.group, out, Rewrites.call_out,
        Rewrites.tpl.
      cbn [Re.groups Re.lookup_group Nat.eqb fst snd].
      text_literals; cbn [app].
      rewrite <- ?app_assoc. reflexivity.
    - discriminate.
    - right. reflexivity. }
  split; [exact E|]. intros Hfirst Hbare.
  destruct (CallSites.phase2_done _ _ _ _ _
              (or_intror (or_introl eq_refl)) E Hbare) as [E1 E2].
  unfold Phase2.fix_format_string_field_access.
  rewrite (ReFacts.sub_no_match Phase2.pattern) by exact Hfirst.
  rewrite E1, E2; simpl; auto.
Qed.

Lemma X3_format_call_with_arguments_witness :
  Phase2.fix_format_string_field_access
    (Q "format!('{} has {item.count} left' , name, total); done")
  = Q "format!('{} has {} left', item.count, name, total); done".
Proof.
  pose proof (X3_format_call_with_arguments_is_rewritten
                [] [] (s2l " ") (s2l " ") (s2l "{} has ") (s2l "item")
                (s2l "count") (s2l " left") (s2l "name, total")
                (s2l "; done")) as H.
  feed H. destruct H as [_ H]. feed H.
  same_texts H.
Defined.

(** X4: a [write!] call whose template holds a field access after bare
    placeholders only: [re.sub] with [pattern3] of
    [fix_format_strings_phase2.py] keeps the writer, puts [{}] in the
    template and appends the expression as the argument; in a text
    without [format!] whose result holds only bare placeholders, this is
    what [fix_format_string_field_access] returns. *)
Theorem X4_write_call_is_rewritten
    (w1 w2 writer w4 w5 prefix e1 e2 suffix rest : text) :
  Rewrites.blank w1 -> Rewrites.blank w2 ->
  Rewrites.blank w4 -> Rewrites.blank w5 ->
  writer <> [] -> stop is_space writer = true ->
  forallb (none_of [","%char]) writer = true ->
  Rewrites.quote_free prefix -> bare_template prefix = true ->
  Rewrites.is_field_expr e1 e2 -> Rewrites.quote_free suffix ->
  let call := s2l "write!" ++ w1 ++ s2l "(" ++ w2 ++ writer ++ s2l ","
                ++ w4 ++ Rewrites.tpl prefix (Rewrites.field_expr e1 e2)
                           suffix (w5 ++ s2l ")") in
  let out := Rewrites.write_out writer prefix suffix
               (Rewrites.field_expr e1 e2) in
  Re.sub Phase2.pattern3 Phase2.replacer3 (call ++ rest)
  = out ++ Re.sub Phase2.pattern3 Phase2.replacer3 rest
  /\ (Driver.contains (call ++ rest) (s2l "format!") = false ->
      only_bare false false (out ++ rest) = true ->
      Phase2.fix_format_string_field_access (call ++ rest) = out ++ rest).
Proof.
  intros B1 B2 B4 B5 Hne Hst Hw Hp Hb He Hs call out.
  assert (E : Re.sub Phase2.pattern3 Phase2.replacer3 (call ++ rest)
              = out ++ Re.sub Phase2.pattern3 Phase2.replacer3 rest).
  { rewrite (ReFacts.sub_match _ _ _ _ _
               (CallSites.pattern3_matches w1 w2 writer w4 w5 prefix e1 e2
                  suffix rest B1 B2 B4 B5 Hne Hst Hw Hp Hb He Hs)).
    - reflexivity.
    - discriminate.
    - right. reflexivity. }
  split; [exact E|]. intros Hfmt Hbare.
  destruct (CallSites.phase2_done _ _ _ _ _
              (or_intror (or_intror (or_introl eq_refl))) E Hbare)
    as [E1 _].
  unfold Phase2.fix_format_string_field_access.
  rewrite (ReFacts.sub_no_match Phase2.pattern)
    by (apply (Frame.no_lit_no_search (s2l "format!")), Hfmt).
  rewrite (ReFacts.sub_no_match Phase2.pattern2)
    by (apply (Frame.no_lit_no_search (s2l "format!")), Hfmt).
  exact E1.
Qed.

Lemma X4_write_call_witness :
  Phase2.fix_format_string_field_access
    (Q "write!(f, 'rate {self.rate}%')?; Ok(())")
  = Q "write!(f, 'rate {}%', self.rate)?; Ok(())".
Proof.
  pose proof (X4_write_call_is_rewritten
                [] [] (s2l "f") (s2l " ") [] (s2l "rate ") (s2l "self")
                (s2l "rate") (s2l "%") (s2l "?; Ok(())")) as H.
  feed H. destruct H as [_ H]. feed H.
  same_texts H.
Defined.

(** ** Placeholders and variables of the advanced script *)

Module Placeholders.
Import Advanced.

Lemma replace_go_done old new s :
  Str.replace_go old new s 0 (Some 0) = s.
Proof. induction s as [|x s IH]; simpl; congruence. Qed.

(** The first bare placeholder is the one that is replaced. *)
Lemma replace_first a b new :
  no_hole a = true ->
  Str.replace (a ++ s2l "{}" ++ b) (s2l "{}") new (Some 1) = a ++ new ++ b.
Proof.
  unfold Str.replace. induction a as [|x a IH]; intros Ha.
  - cbn. rewrite replace_go_done. reflexivity.
  - cbn [no_hole] in Ha. apply andb_true_iff in Ha as [Hx Ha].
    cbn [app Str.replace_go].
    replace (Str.startswith (x :: a ++ s2l "{}" ++ b) (s2l "{}")) with false.
    + rewrite IH by exact Ha. reflexivity.
    + text_literals; cbn [Str.startswith].
      rewrite (N.eqb_sym "{"%char x).
      destruct (N.eqb x "{"%char); [|reflexivity].
      destruct a as [|d a]; cbn [app]; [reflexivity|].
      rewrite (N.eqb_sym "}"%char d).
      destruct (N.eqb d "}"%char); [discriminate | reflexivity].
Qed.

(** Without a bare placeholder nothing is replaced. *)
Lemma replace_none a new limit :
  no_hole a = true -> Str.replace a (s2l "{}") new limit = a.
Proof.
  unfold Str.replace. induction a as [|x a IH]; intros Ha; [reflexivity|].
  cbn [no_hole] in Ha. apply andb_true_iff in Ha as [Hx Ha].
  cbn [Str.replace_go].
  replace (Str.startswith (x :: a) (s2l "{}")) with false.
  - rewrite IH by exact Ha. destruct limit as [[|n]|]; reflexivity.
  - text_literals; cbn [Str.startswith].
    rewrite (N.eqb_sym "{"%char x).
    destruct (N.eqb x "{"%char); [|reflexivity].
    destruct a as [|d a]; [discriminate|].
    rewrite (N.eqb_sym "}"%char d).
    destruct (N.eqb d "}"%char); [discriminate | reflexivity].
Qed.

Lemma no_hole_app a b :
  no_hole a = true -> no_hole b = true -> no_hole (a ++ b) = true.
Proof.
  induction a as [|x a IH]; intros Ha Hb; [exact Hb|].
  cbn [no_hole app] in *. apply andb_true_iff in Ha as [Hx Ha].
  rewrite IH by assumption. rewrite andb_true_r.
  destruct (N.eqb x "{"%char); [|reflexivity].
  destruct a; [discriminate | exact Hx].
Qed.

Lemma no_hole_braced v : plain_var v -> no_hole (braced v) = true.
Proof.
  intros [Hne Hv]. destruct v as [|d v]; [congruence|].
  unfold braced. text_literals; cbn [app no_hole].
  rewrite N.eqb_refl.
  cbn [forallb] in Hv. apply andb_true_iff in Hv as [Hd Hv].
  assert (Hd' : N.eqb d "{"%char = false /\ N.eqb d "}"%char = false).
  { unfold none_of in Hd. cbn [existsb] in Hd.
    apply negb_true_iff in Hd. rewrite orb_false_r in Hd.
    apply orb_false_iff in Hd. exact Hd. }
  destruct Hd' as [E1 E2]. rewrite E1, E2. cbn [negb andb].
  clear Hne Hd E1 E2. induction v as [|e v IH]; [reflexivity|].
  cbn [forallb] in Hv. apply andb_true_iff in Hv as [He Hv].
  cbn [app no_hole]. rewrite IH by exact Hv.
  unfold none_of in He. cbn [existsb] in He.
  apply negb_true_iff in He. apply orb_false_iff in He as [-> _].
  reflexivity.
Qed.

Lemma fold_none vs a :
  no_hole a = true ->
  fold_left
    (fun result var => Str.replace result (s2l "{}") (braced var) (Some 1))
    vs a = a.
Proof.
  intros Ha. induction vs as [|v vs IH]; [reflexivity|].
  cbn [fold_left]. rewrite replace_none by exact Ha. exact IH.
Qed.

Lemma fix_placeholders_fill ts : forall vs a,
  no_hole a = true ->
  Forall (fun t => no_hole t = true) ts ->
  Forall plain_var vs ->
  fix_placeholders (a ++ fill ts []) vs = a ++ fill ts vs.
Proof.
  unfold fix_placeholders.
  induction ts as [|t ts IH]; intros vs a Ha Hts Hvs.
  - cbn [fill]. rewrite app_nil_r. apply fold_none, Ha.
  - destruct vs as [|v vs]; [reflexivity|].
    inversion Hts as [|? ? Ht Hts']; subst.
    inversion Hvs as [|? ? Hv Hvs']; subst.
    cbn [fold_left fill]. rewrite replace_first by exact Ha.
    replace (a ++ braced v ++ t ++ fill ts [])
      with ((a ++ braced v ++ t) ++ fill ts [])
      by (rewrite <- !app_assoc; reflexivity).
    rewrite IH; auto.
    + rewrite <- !app_assoc. reflexivity.
    + apply no_hole_app; [exact Ha|].
      apply no_hole_app; [apply no_hole_braced, Hv | exact Ht].
Qed.

End Placeholders.

(** X5: [fix_placeholders] of [fix_format_strings_advanced.py] fills the
    bare placeholders of a template from left to right with the variables
    in their order; placeholders for which no variable is left stay bare,
    and variables for which no placeholder is left are dropped.  (The
    pieces of the template around the placeholders hold no [{}] and do
    not end in an open marker; the variables are not empty and hold no
    brace.) *)
Theorem X5_placeholders_filled_in_order (t0 : text) (ts vs : list text) :
  no_hole t0 = true ->
  Forall (fun t => no_hole t = true) ts ->
  Forall plain_var vs ->
  Advanced.fix_placeholders (t0 ++ fill ts []) vs = t0 ++ fill ts vs.
Proof. apply Placeholders.fix_placeholders_fill. Qed.

Lemma X5_placeholders_witness :
  Advanced.fix_placeholders (s2l "{{k}}: {} of {}{}") [s2l "a"; s2l "b.c"]
  = s2l "{{k}}: {a} of {b.c}{}"
  /\ Advanced.fix_placeholders (s2l "{}!") [s2l "a"; s2l "b"] = s2l "{a}!".
Proof.
  split.
  - pose proof (X5_placeholders_filled_in_order
                  (s2l "{{k}}: ") [s2l " of "; []; []] [s2l "a"; s2l "b.c"])
      as H.
    feed H. same_texts H.
  - pose proof (X5_placeholders_filled_in_order
                  [] [s2l "!"] [s2l "a"; s2l "b"]) as H.
    feed H. same_texts H.
Defined.

(** ** Splitting the argument text *)

Module Splitting.
Import Advanced Rewrites.

Lemma lstrip_stop s : stop is_space s = true -> Str.lstrip s = s.
Proof.
  destruct s as [|c s]; [reflexivity|]. cbn [stop Str.lstrip].
  intros H. apply negb_true_iff in H. rewrite H. reflexivity.
Qed.

Lemma lstrip_blank w s : blank w -> Str.lstrip (w ++ s) = Str.lstrip s.
Proof.
  unfold blank. induction w as [|c w IH]; [reflexivity|].
  cbn [forallb app Str.lstrip]. intros [-> Hw]%andb_true_iff. auto.
Qed.

Lemma lstrip_app_stop x c y :
  is_space c = false -> Str.lstrip (x ++ c :: y) = Str.lstrip x ++ c :: y.
Proof.
  intros Hc. induction x as [|a x IH]; cbn [app Str.lstrip].
  - rewrite Hc. reflexivity.
  - destruct (is_space a); [exact IH | reflexivity].
Qed.

Lemma lstrip_idem s : Str.lstrip (Str.lstrip s) = Str.lstrip s.
Proof.
  induction s as [|c s IH]; [reflexivity|]. cbn [Str.lstrip].
  destruct (is_space c) eqn:E; [exact IH|].
  cbn [Str.lstrip]. rewrite E. reflexivity.
Qed.

Lemma rstrip_stop s : stop is_space (rev s) = true -> Str.rstrip s = s.
Proof.
  intros H. unfold Str.rstrip. rewrite lstrip_stop by exact H.
  apply rev_involutive.
Qed.

Lemma rstrip_app_stop x c y :
  is_space c = false -> Str.rstrip (x ++ c :: y) = x ++ c :: Str.rstrip y.
Proof.
  intros Hc. unfold Str.rstrip.
  rewrite rev_app_distr. cbn [rev]. rewrite <- app_assoc. cbn [app].
  rewrite lstrip_app_stop by exact Hc.
  rewrite rev_app_distr. cbn [rev]. rewrite rev_involutive, <- app_assoc.
  reflexivity.
Qed.

Lemma rstrip_idem s : Str.rstrip (Str.rstrip s) = Str.rstrip s.
Proof.
  unfold Str.rstrip. rewrite rev_involutive, lstrip_idem. reflexivity.
Qed.

Lemma stop_rev_app x s :
  s <> [] -> stop is_space (rev s) = true ->
  stop is_space (rev (x ++ s)) = true.
Proof.
  intros Hne H. rewrite rev_app_distr. apply CallSites.stop_app; auto.
  intros E. apply Hne. rewrite <- (rev_involutive s), E. reflexivity.
Qed.

(** The text of a non-empty argument list ends in an argument. *)
Lemma arg_list_end args :
  Forall is_item args -> args <> [] ->
  arg_list args <> [] /\ stop is_space (rev (arg_list args)) = true.
Proof.
  induction 1 as [|[w v] args [Hw (Hne & H1 & H2 & H3)] Hargs IH];
    intros Hn; [congruence|].
  split; [discriminate|]. cbn [arg_list fst snd] in *.
  destruct args as [|a args].
  - cbn [arg_list]. rewrite app_nil_r.
    rewrite app_assoc. apply stop_rev_app; auto.
  - destruct IH as [IH1 IH2]; [discriminate|].
    rewrite !app_assoc. apply stop_rev_app; auto.
Qed.

Lemma strip_item w v : blank w -> is_arg v -> Str.strip (w ++ v) = v.
Proof.
  intros Hw (Hne & H1 & H2 & H3). unfold Str.strip.
  rewrite lstrip_blank, lstrip_stop by assumption.
  apply rstrip_stop, H2.
Qed.

Lemma space_plain c :
  is_space c = true ->
  N.eqb c "("%char || N.eqb c "<"%char = false
  /\ N.eqb c ")"%char || N.eqb c ">"%char = false
  /\ N.eqb c ","%char = false.
Proof.
  intros H.
  repeat match goal with
         | |- context [N.eqb c ?a] =>
             destruct (N.eqb_spec c a); [subst; discriminate|]
         end.
  auto.
Qed.

Lemma arg_depth_blank w d : blank w -> arg_depth d w = Some d.
Proof.
  unfold blank. induction w as [|c w IH]; [reflexivity|].
  cbn [forallb arg_depth]. intros [Hc Hw]%andb_true_iff.
  destruct (space_plain c Hc) as (-> & -> & ->). cbn [andb]. auto.
Qed.

Lemma arg_depth_app a b d d' :
  arg_depth d a = Some d' -> arg_depth d (a ++ b) = arg_depth d' b.
Proof.
  revert d. induction a as [|c a IH]; intros d; cbn [arg_depth app].
  - intros [= ->]. reflexivity.
  - destruct (N.eqb c "("%char || N.eqb c "<"%char); [apply IH|].
    destruct (N.eqb c ")"%char || N.eqb c ">"%char).
    + destruct (d - 1 <? 0)%Z; [discriminate | apply IH].
    + destruct (N.eqb c ","%char && (d =? 0)%Z); [discriminate | apply IH].
Qed.

(** The loop passes over a text without a comma at depth 0 and without
    an unmatched closer, adding it to the current variable. *)
Lemma split_loop_over v : forall rest vars cur d d',
  arg_depth d v = Some d' ->
  split_loop (v ++ rest) vars cur d = split_loop rest vars (cur ++ v) d'.
Proof.
  induction v as [|c v IH]; intros rest vars cur d d'; cbn [arg_depth app].
  - intros [= ->]. rewrite app_nil_r. reflexivity.
  - cbn [split_loop].
    replace (cur ++ c :: v) with ((cur ++ [c]) ++ v)
      by (rewrite <- app_assoc; reflexivity).
    destruct (N.eqb c "("%char || N.eqb c "<"%char); [apply IH|].
    destruct (N.eqb c ")"%char || N.eqb c ">"%char).
    + destruct (d - 1 <? 0)%Z; [discriminate | apply IH].
    + destruct (N.eqb c ","%char && (d =? 0)%Z); [discriminate | apply IH].
Qed.

Lemma split_items args : forall rest vars w0 v0,
  blank w0 -> is_arg v0 -> Forall is_item args ->
  (forall vars w v, blank w -> is_arg v ->
     finish (split_loop rest vars (w ++ v) 0) = vars ++ [v]) ->
  finish (split_loop (arg_list args ++ rest) vars (w0 ++ v0) 0)
  = vars ++ v0 :: map snd args.
Proof.
  induction args as [|[w v] args IH]; intros rest vars w0 v0 Hw0 Hv0 Hargs Hrest.
  - apply Hrest; assumption.
  - inversion Hargs as [|? ? [Hw Hv] Hargs']; subst. cbn [fst snd] in *.
    cbn [arg_list map snd]. text_literals; cbn [app split_loop].
    cbn [N.eqb Pos.eqb orb andb Z.eqb].
    rewrite strip_item by assumption.
    destruct v0 as [|x v0]; [destruct Hv0; congruence|]. cbn [Str.truthy].
    rewrite <- !app_assoc. rewrite (app_assoc w v).
    assert (Hd : arg_depth 0 (w ++ v) = Some 0%Z).
    { rewrite (arg_depth_app w v 0 0) by (apply arg_depth_blank, Hw).
      apply Hv. }
    rewrite (split_loop_over (w ++ v) _ _ _ _ _ Hd). cbn [app].
    rewrite IH; auto. rewrite <- app_assoc. reflexivity.
Qed.

Lemma finish_end vars w v :
  blank w -> is_arg v -> finish (split_loop [] vars (w ++ v) 0) = vars ++ [v].
Proof.
  intros Hw Hv. cbn [split_loop finish]. rewrite strip_item by assumption.
  destruct v; [destruct Hv; congruence | reflexivity].
Qed.

(** An unmatched closer ends the loop; what was read of the current
    variable is dropped with everything behind the closer. *)
Lemma finish_closer u c junk vars w v :
  arg_depth 0 u = Some 0%Z -> c = ")"%char \/ c = ">"%char ->
  blank w -> is_arg v ->
  finish (split_loop (","%char :: u ++ c :: junk) vars (w ++ v) 0)
  = vars ++ [v].
Proof.
  intros Hu Hc Hw Hv. cbn [split_loop].
  cbn [N.eqb Pos.eqb orb andb Z.eqb].
  rewrite strip_item by assumption.
  destruct v as [|x v]; [destruct Hv; congruence|]. cbn [Str.truthy].
  rewrite (split_loop_over u _ _ _ _ _ Hu). cbn [app].
  destruct Hc as [-> | ->];
    cbn [split_loop N.eqb Pos.eqb orb andb];
    change (0 - 1 <? 0)%Z with true; cbn [finish];
    change (0 <=? 0 - 1)%Z with false; rewrite andb_false_r; reflexivity.
Qed.

Lemma extract_vars_finish s :
  extract_vars s
  = finish (split_loop
              (let s1 := Str.strip s in
               if Str.startswith s1 (s2l ",") then Str.strip (tl s1) else s1)
              [] [] 0).
Proof.
  unfold extract_vars, finish. cbv zeta.
  destruct (split_loop _ [] [] 0) as [[variables current_var] d]. reflexivity.
Qed.

End Splitting.
